(** * TransactionMail: the asynchronous delivery pipeline

    A shallow embedding of the queue-facing code of the TransactionMail
    relay: the shared utilities (back-off, webhook signatures, template
    rendering, text helpers, address validation), the rate limiter and the
    idempotency store, the send service of the REST API with the
    authentication middleware and the routes in front of it, the inbound
    SMTP relay, the webhook fan-out service and the two queue processors of
    the worker, followed by the properties proved of them.

    Conventions.
    - Strings are byte strings.  [toLowerCase] acts on the ASCII letters.
    - Instants are milliseconds since the epoch, in [Z]; an ISO-8601 text is
      kept as the instant it denotes.  A handler samples the clock once per
      invocation.
    - [calculateBackoff] computes over the rationals; the value of
      [Math.random()] is an argument.
    - An object used as a map is the finite map of its own properties; a
      lookup that misses them falls back on [Object.prototype].
    - The Prisma tables are finite maps keyed by their unique index, or
      append-only lists where the code only ever inserts.  Foreign keys are
      not checked.  Identifiers the database or [randomUUID] generate are
      arguments.
    - An [async] function is a state transformer over the [World] of tables
      and queues that returns or throws ([Outcome]); a rejected promise is a
      [Throw].
    - Library functions that are not part of the repository (the HTTP
      client, the outbound transport, the mail parser, bcrypt, HMAC-SHA256,
      JSON.stringify) are arguments of the definitions that call them. *)

From Stdlib Require Import ZArith QArith Qminmax Qround Lqa Lia Ascii String.
From stdpp Require Import gmap strings list pretty.

Local Open Scope string_scope.
Local Open Scope Z_scope.
Local Open Scope list_scope.

(** ** Thrown values and the handler monad *)

(** What a [catch (error)] clause can receive: an [Error] object with its
    message, or any other value. *)
Inductive Thrown : Type :=
  | JsError (message : string)
  | NonError.

(** [error instanceof Error ? error.message : 'Unknown error'] *)
Definition errorMessageOf (e : Thrown) : string :=
  match e with
  | JsError m => m
  | NonError => "Unknown error"
  end.

Inductive Outcome (A : Type) : Type :=
  | Return (a : A)
  | Throw (e : Thrown).
Arguments Return {A} a.
Arguments Throw {A} e.

#[global] Instance Thrown_eq_dec : EqDecision Thrown.
Proof. solve_decision. Defined.

(** ** Data model (Prisma schema, shared types) *)

Inductive MessageStatus : Type :=
  | MS_QUEUED | MS_PROCESSING | MS_SENT | MS_DELIVERED
  | MS_BOUNCED | MS_COMPLAINED | MS_FAILED | MS_RETRYING.

Inductive EventType : Type :=
  | ET_QUEUED | ET_SENT | ET_DELIVERED | ET_BOUNCED | ET_COMPLAINED
  | ET_OPENED | ET_CLICKED | ET_FAILED | ET_RETRY_SCHEDULED.

Inductive SuppressionReason : Type :=
  | SR_BOUNCE | SR_COMPLAINT | SR_UNSUBSCRIBE | SR_MANUAL.

Inductive ProjectStatus : Type := PS_ACTIVE | PS_SUSPENDED | PS_DELETED.

Inductive WebhookEventType : Type :=
  | message_queued | message_sent | message_delivered | message_bounced
  | message_complained | message_failed | recipient_unsubscribed.

#[global] Instance MessageStatus_eq_dec : EqDecision MessageStatus.
Proof. solve_decision. Defined.
#[global] Instance EventType_eq_dec : EqDecision EventType.
Proof. solve_decision. Defined.
#[global] Instance SuppressionReason_eq_dec : EqDecision SuppressionReason.
Proof. solve_decision. Defined.
#[global] Instance ProjectStatus_eq_dec : EqDecision ProjectStatus.
Proof. solve_decision. Defined.
#[global] Instance WebhookEventType_eq_dec : EqDecision WebhookEventType.
Proof. solve_decision. Defined.

Definition SuppressionReason_toString (r : SuppressionReason) : string :=
  match r with
  | SR_BOUNCE => "BOUNCE" | SR_COMPLAINT => "COMPLAINT"
  | SR_UNSUBSCRIBE => "UNSUBSCRIBE" | SR_MANUAL => "MANUAL"
  end.

(** A JSON value, for the free-form [data] of a webhook payload. *)
#[local] Unset Elimination Schemes.
Inductive Json : Type :=
  | JNull
  | JBool (b : bool)
  | JNum (n : Z)
  | JStr (s : string)
  | JArr (items : list Json)
  | JObj (fields : list (string * Json)).
#[local] Set Elimination Schemes.

Record Recipient := { email : string; name : option string }.

Record Attachment := {
  filename : string;
  content : string;            (* base64 text *)
  contentType : option string }.

(** [{ messageId, status }], the body of a successful send. *)
Record SendResponse := { resp_messageId : string; resp_status : MessageStatus }.

Record Message := {
  msg_projectId : string;
  msg_externalId : option string;
  msg_toEmail : string;
  msg_toName : option string;
  msg_fromEmail : string;
  msg_fromName : option string;
  msg_replyTo : option string;
  msg_subject : string;
  msg_htmlBody : option string;
  msg_textBody : option string;
  msg_templateId : option string;
  msg_templateData : option (gmap string string);
  msg_status : MessageStatus;
  msg_error : option string;
  msg_tags : list string;
  msg_idempotencyKey : option string;
  msg_sentAt : option Z;
  msg_deliveredAt : option Z }.

(** The payloads the code attaches to events, one constructor per shape. *)
Inductive EventPayload : Type :=
  | EP_QueuedApi (apiKeyId : string) (timestamp : Z)
  | EP_QueuedSmtp                                  (* { source: 'smtp-relay' } *)
  | EP_Sent (providerMessageId : string) (response : string)
  | EP_Delivered (simulated : bool)
  | EP_RetryScheduled (attempt : Z) (error : string) (nextRetryAt : Z)
  | EP_Failed (error : string) (attempts : Z).

Record Event := {
  ev_messageId : string;
  ev_type : EventType;
  ev_payload : EventPayload }.

Record Suppression := {
  sup_reason : SuppressionReason;
  sup_source : string;
  sup_metadata : option string }.       (* { error: <text> } *)

Record Template := {
  tpl_projectId : string;
  tpl_subject : string;
  tpl_html : option string;
  tpl_text : option string }.

Record IdempotencyKey := {
  idem_scope : string;
  idem_response : SendResponse;
  idem_expiresAt : Z }.

Record ApiKey := {
  key_id : string;
  key_keyHash : string;
  key_scopes : list string;
  key_revokedAt : option Z;
  key_lastUsedAt : option Z }.

Record Project := {
  prj_status : ProjectStatus;
  prj_apiKeys : list ApiKey }.

Record Webhook := {
  wh_projectId : string;
  wh_url : string;
  wh_secret : string;
  wh_eventTypes : list WebhookEventType;
  wh_active : bool;
  wh_successCount : Z;
  wh_failCount : Z;
  wh_lastTriggeredAt : option Z }.

Record WebhookPayload := {
  wp_event : WebhookEventType;
  wp_timestamp : Z;
  wp_data : list (string * Json) }.

Record WebhookDelivery := {
  wd_webhookId : string;
  wd_eventType : WebhookEventType;
  wd_payload : WebhookPayload;
  wd_responseStatus : option Z;
  wd_responseBody : option string;
  wd_error : option string }.

(** *** Queue jobs *)

Record SendEmailJob := {
  job_messageId : string;
  job_projectId : string;
  job_to : list Recipient;
  job_from : Recipient;
  job_replyTo : option string;
  job_subject : string;
  job_htmlBody : option string;
  job_textBody : option string;
  job_attachments : option (list Attachment);
  job_headers : option (list (string * string)) }.

Record WebhookJob := {
  wj_webhookId : string;
  wj_eventType : WebhookEventType;
  wj_payload : WebhookPayload }.

Inductive BackoffType : Type := BT_fixed | BT_exponential.

#[global] Instance BackoffType_eq_dec : EqDecision BackoffType.
Proof. solve_decision. Defined.

Record BackoffOptions := { bo_type : BackoffType; bo_delay : Z }.

(** The job options the code sets; an absent property is [None]. *)
Record JobsOptions := {
  jo_attempts : option Z;
  jo_backoff : option BackoffOptions;
  jo_priority : option Z;
  jo_removeOnComplete : option Z;
  jo_removeOnFail : option Z }.

Definition noJobsOptions : JobsOptions :=
  {| jo_attempts := None; jo_backoff := None; jo_priority := None;
     jo_removeOnComplete := None; jo_removeOnFail := None |}.

(** [{ ...defaults, ...opts }]: a property of [opts] wins when present. *)
Definition mergeJobsOptions (defaults opts : JobsOptions) : JobsOptions :=
  let pick {A} (o d : option A) := match o with Some _ => o | None => d end in
  {| jo_attempts := pick (jo_attempts opts) (jo_attempts defaults);
     jo_backoff := pick (jo_backoff opts) (jo_backoff defaults);
     jo_priority := pick (jo_priority opts) (jo_priority defaults);
     jo_removeOnComplete := pick (jo_removeOnComplete opts) (jo_removeOnComplete defaults);
     jo_removeOnFail := pick (jo_removeOnFail opts) (jo_removeOnFail defaults) |}.

(** A job as it sits in a queue. *)
Record QueuedJob (D : Type) := {
  qj_name : string;
  qj_data : D;
  qj_opts : JobsOptions }.
Arguments qj_name {D} _.
Arguments qj_data {D} _.
Arguments qj_opts {D} _.

#[global] Instance Recipient_eq_dec : EqDecision Recipient.
Proof. solve_decision. Defined.
#[global] Instance BackoffOptions_eq_dec : EqDecision BackoffOptions.
Proof. solve_decision. Defined.
#[global] Instance JobsOptions_eq_dec : EqDecision JobsOptions.
Proof. solve_decision. Defined.
#[global] Instance SendResponse_eq_dec : EqDecision SendResponse.
Proof. solve_decision. Defined.

(** ** The world: tables, rate-limiter sets and queues *)

Record World := {
  messages : gmap string Message;                       (* by id *)
  events : list Event;                                  (* append-only *)
  suppressions : gmap (string * string) Suppression;    (* by (projectId, email) *)
  templates : gmap string Template;                     (* by id *)
  idempotencyKeys : gmap string IdempotencyKey;         (* by key: unique index on "key" *)
  projects : gmap string Project;                       (* by id, with its api keys *)
  webhooks : gmap string Webhook;                       (* by id *)
  webhookDeliveries : list WebhookDelivery;             (* append-only *)
  rateLimits : gmap string (list Z);                    (* sorted-set scores by key *)
  sendEmailQueue : list (QueuedJob SendEmailJob);       (* queue 'send-email' *)
  webhookQueue : list (QueuedJob WebhookJob) }.         (* queue 'webhook' *)

Definition emptyWorld : World :=
  {| messages := ∅; events := []; suppressions := ∅; templates := ∅;
     idempotencyKeys := ∅; projects := ∅; webhooks := ∅;
     webhookDeliveries := []; rateLimits := ∅;
     sendEmailQueue := []; webhookQueue := [] |}.

Definition set_messages (f : gmap string Message -> gmap string Message) (w : World) : World :=
  {| messages := f (messages w); events := events w; suppressions := suppressions w;
     templates := templates w; idempotencyKeys := idempotencyKeys w;
     projects := projects w; webhooks := webhooks w;
     webhookDeliveries := webhookDeliveries w; rateLimits := rateLimits w;
     sendEmailQueue := sendEmailQueue w; webhookQueue := webhookQueue w |}.

Definition set_events (f : list Event -> list Event) (w : World) : World :=
  {| messages := messages w; events := f (events w); suppressions := suppressions w;
     templates := templates w; idempotencyKeys := idempotencyKeys w;
     projects := projects w; webhooks := webhooks w;
     webhookDeliveries := webhookDeliveries w; rateLimits := rateLimits w;
     sendEmailQueue := sendEmailQueue w; webhookQueue := webhookQueue w |}.

Definition set_suppressions
    (f : gmap (string * string) Suppression -> gmap (string * string) Suppression)
    (w : World) : World :=
  {| messages := messages w; events := events w; suppressions := f (suppressions w);
     templates := templates w; idempotencyKeys := idempotencyKeys w;
     projects := projects w; webhooks := webhooks w;
     webhookDeliveries := webhookDeliveries w; rateLimits := rateLimits w;
     sendEmailQueue := sendEmailQueue w; webhookQueue := webhookQueue w |}.

Definition set_idempotencyKeys
    (f : gmap string IdempotencyKey -> gmap string IdempotencyKey) (w : World) : World :=
  {| messages := messages w; events := events w; suppressions := suppressions w;
     templates := templates w; idempotencyKeys := f (idempotencyKeys w);
     projects := projects w; webhooks := webhooks w;
     webhookDeliveries := webhookDeliveries w; rateLimits := rateLimits w;
     sendEmailQueue := sendEmailQueue w; webhookQueue := webhookQueue w |}.

Definition set_projects (f : gmap string Project -> gmap string Project) (w : World) : World :=
  {| messages := messages w; events := events w; suppressions := suppressions w;
     templates := templates w; idempotencyKeys := idempotencyKeys w;
     projects := f (projects w); webhooks := webhooks w;
     webhookDeliveries := webhookDeliveries w; rateLimits := rateLimits w;
     sendEmailQueue := sendEmailQueue w; webhookQueue := webhookQueue w |}.

Definition set_webhooks (f : gmap string Webhook -> gmap string Webhook) (w : World) : World :=
  {| messages := messages w; events := events w; suppressions := suppressions w;
     templates := templates w; idempotencyKeys := idempotencyKeys w;
     projects := projects w; webhooks := f (webhooks w);
     webhookDeliveries := webhookDeliveries w; rateLimits := rateLimits w;
     sendEmailQueue := sendEmailQueue w; webhookQueue := webhookQueue w |}.

Definition set_webhookDeliveries
    (f : list WebhookDelivery -> list WebhookDelivery) (w : World) : World :=
  {| messages := messages w; events := events w; suppressions := suppressions w;
     templates := templates w; idempotencyKeys := idempotencyKeys w;
     projects := projects w; webhooks := webhooks w;
     webhookDeliveries := f (webhookDeliveries w); rateLimits := rateLimits w;
     sendEmailQueue := sendEmailQueue w; webhookQueue := webhookQueue w |}.

Definition set_rateLimits
    (f : gmap string (list Z) -> gmap string (list Z)) (w : World) : World :=
  {| messages := messages w; events := events w; suppressions := suppressions w;
     templates := templates w; idempotencyKeys := idempotencyKeys w;
     projects := projects w; webhooks := webhooks w;
     webhookDeliveries := webhookDeliveries w; rateLimits := f (rateLimits w);
     sendEmailQueue := sendEmailQueue w; webhookQueue := webhookQueue w |}.

Definition set_sendEmailQueue
    (f : list (QueuedJob SendEmailJob) -> list (QueuedJob SendEmailJob)) (w : World) : World :=
  {| messages := messages w; events := events w; suppressions := suppressions w;
     templates := templates w; idempotencyKeys := idempotencyKeys w;
     projects := projects w; webhooks := webhooks w;
     webhookDeliveries := webhookDeliveries w; rateLimits := rateLimits w;
     sendEmailQueue := f (sendEmailQueue w); webhookQueue := webhookQueue w |}.

Definition set_webhookQueue
    (f : list (QueuedJob WebhookJob) -> list (QueuedJob WebhookJob)) (w : World) : World :=
  {| messages := messages w; events := events w; suppressions := suppressions w;
     templates := templates w; idempotencyKeys := idempotencyKeys w;
     projects := projects w; webhooks := webhooks w;
     webhookDeliveries := webhookDeliveries w; rateLimits := rateLimits w;
     sendEmailQueue := sendEmailQueue w; webhookQueue := f (webhookQueue w) |}.

(** ** The handler monad: a world transformer that returns or throws *)

Definition IO (A : Type) : Type := World -> World * Outcome A.

#[global] Instance IO_ret : MRet IO := fun A x w => (w, Return x).

#[global] Instance IO_bind : MBind IO := fun A B k m w =>
  match m w with
  | (w', Return x) => k x w'
  | (w', Throw e) => (w', Throw e)
  end.

Definition throw {A} (e : Thrown) : IO A := fun w => (w, Throw e).

(** [try { body } catch (error) { handler(error) }] *)
Definition tryCatch {A} (body : IO A) (handler : Thrown -> IO A) : IO A :=
  fun w =>
    match body w with
    | (w', Return x) => (w', Return x)
    | (w', Throw e) => handler e w'
    end.

Definition gets {A} (f : World -> A) : IO A := fun w => (w, Return (f w)).
Definition modify (f : World -> World) : IO unit := fun w => (f w, Return tt).

(** The Prisma errors the code can meet. *)
Definition P2025_notFound : Thrown := JsError "Record to update not found.".
Definition P2002_unique (target : string) : Thrown :=
  JsError ("Unique constraint failed on the fields: (`" +:+ target +:+ "`)").

(** ** Shared utilities (packages/shared: utils) *)

Module Utils.

(** [calculateBackoff(attempt, baseDelay = 1000, maxDelay = 60000)]; the
    value of [Math.random()] is the argument [rnd]. *)
Definition calculateBackoff (attempt : nat) (baseDelay maxDelay rnd : Q) : Q :=
  let exponentialDelay := (baseDelay * inject_Z (2 ^ Z.of_nat attempt))%Q in
  let jitter := (rnd * 1000)%Q in
  Qmin (exponentialDelay + jitter) maxDelay.

Definition defaultBaseDelay : Q := 1000%Q.
Definition defaultMaxDelay : Q := 60000%Q.

(** The call with both defaults, as the worker makes it. *)
Definition calculateBackoff_default (attempt : nat) (rnd : Q) : Q :=
  calculateBackoff attempt defaultBaseDelay defaultMaxDelay rnd.

(** The same computation with the sum rounded by [fl], for a reading in
    which the addition is a floating-point one; [jitter] is the value of
    [Math.random() * 1000]. *)
Definition calculateBackoff_rounded (fl : Q -> Q) (attempt : nat)
    (baseDelay maxDelay jitter : Q) : Q :=
  Qmin (fl (baseDelay * inject_Z (2 ^ Z.of_nat attempt) + jitter)%Q) maxDelay.

(** The double-quote character (code 34). *)
Definition dquote : ascii := ascii_of_nat 34.

(** [formatEmailAddress(email, name?)]; an empty name is falsy. *)
Definition formatEmailAddress (email : string) (name : option string) : string :=
  match name with
  | Some n => if decide (n = "") then email
              else String dquote (n +:+ String dquote (" <" +:+ email +:+ ">"))
  | None => email
  end.

(** *** Character classes and string helpers *)

Definition inRange (lo hi : nat) (c : ascii) : bool :=
  let n := nat_of_ascii c in ((lo <=? n) && (n <=? hi))%nat.

(** [\w]: letters, digits and the underscore. *)
Definition isWordChar (c : ascii) : bool :=
  inRange 48 57 c || inRange 65 90 c || inRange 97 122 c || inRange 95 95 c.

(** [[a-f0-9]] *)
Definition isLowerHex (c : ascii) : bool :=
  inRange 48 57 c || inRange 97 102 c.

Definition lowerChar (c : ascii) : ascii :=
  if inRange 65 90 c then ascii_of_nat (nat_of_ascii c + 32) else c.

Fixpoint toLowerCase (s : string) : string :=
  match s with
  | EmptyString => EmptyString
  | String c r => String (lowerChar c) (toLowerCase r)
  end.

(** [s.includes(sub)] *)
Fixpoint includes (s sub : string) : bool :=
  String.prefix sub s ||
  match s with
  | EmptyString => false
  | String _ r => includes r sub
  end.

Fixpoint dropChars (n : nat) (s : string) : string :=
  match n, s with
  | O, _ => s
  | S n', String _ r => dropChars n' r
  | S _, EmptyString => EmptyString
  end.

(** *** Template rendering *)

(** Progress of the scanner through one candidate [{{key}}]. *)
Inductive Scan : Type :=
  | Outside
  | Open1                      (* read "{" *)
  | Open2                      (* read "{{" *)
  | InKey (key : string)       (* read "{{" and a non-empty key *)
  | Close1 (key : string).     (* read "{{", the key and "}" *)

Definition lbrace : ascii := "{"%char.
Definition rbrace : ascii := "}"%char.

Definition pendingText (st : Scan) : string :=
  match st with
  | Outside => ""
  | Open1 => "{"
  | Open2 => "{{"
  | InKey k => "{{" +:+ k
  | Close1 k => "{{" +:+ k +:+ "}"
  end.

(** [String(f)] for a built-in function [f] on Node.js. *)
Definition nativeFunctionText (name : string) : string :=
  "function " +:+ name +:+ "() { [native code] }".

(** The properties an object inherits from [Object.prototype], each with
    the text [String] gives its value: the methods, the constructor
    [Object], and the accessor [__proto__], which returns the prototype
    itself. *)
Definition objectPrototype (key : string) : option string :=
  if decide (key = "constructor") then Some (nativeFunctionText "Object")
  else if decide (key = "__proto__") then Some "[object Object]"
  else if bool_decide (key ∈ [ "__defineGetter__"; "__defineSetter__"; "__lookupGetter__";
                               "__lookupSetter__"; "hasOwnProperty"; "isPrototypeOf";
                               "propertyIsEnumerable"; "toLocaleString"; "toString";
                               "valueOf" ])
  then Some (nativeFunctionText key)
  else None.

(** [variables[key]] as [String] shows it, [None] for [undefined].
    [variables] holds the own properties of the object; a key it does not
    hold is looked up in [Object.prototype]. *)
Definition getProperty (variables : gmap string string) (key : string) : option string :=
  match variables !! key with
  | Some v => Some v
  | None => objectPrototype key
  end.

(** The callback of [replace]: the value when [variables[key]] is defined,
    the match itself otherwise. *)
Definition substitute (variables : gmap string string) (key : string) : string :=
  match getProperty variables key with
  | Some v => v
  | None => "{{" +:+ key +:+ "}}"
  end.

(** [template.replace(/\{\{(\w+)\}\}/g, ...)] as a single left-to-right
    pass; a candidate that fails can only restart at the failing
    character, since braces are not word characters. *)
Fixpoint renderFrom (variables : gmap string string) (st : Scan) (s : string) : string :=
  match s with
  | EmptyString => pendingText st
  | String c r =>
      let one := String c EmptyString in
      match st with
      | Outside =>
          if decide (c = lbrace) then renderFrom variables Open1 r
          else one +:+ renderFrom variables Outside r
      | Open1 =>
          if decide (c = lbrace) then renderFrom variables Open2 r
          else "{" +:+ one +:+ renderFrom variables Outside r
      | Open2 =>
          if isWordChar c then renderFrom variables (InKey one) r
          else if decide (c = lbrace) then "{" +:+ renderFrom variables Open2 r
          else "{{" +:+ one +:+ renderFrom variables Outside r
      | InKey k =>
          if isWordChar c then renderFrom variables (InKey (k +:+ one)) r
          else if decide (c = rbrace) then renderFrom variables (Close1 k) r
          else if decide (c = lbrace) then pendingText st +:+ renderFrom variables Open1 r
          else pendingText st +:+ one +:+ renderFrom variables Outside r
      | Close1 k =>
          if decide (c = rbrace) then substitute variables k +:+ renderFrom variables Outside r
          else if decide (c = lbrace) then pendingText st +:+ renderFrom variables Open1 r
          else pendingText st +:+ one +:+ renderFrom variables Outside r
      end
  end.

Definition renderTemplate (template : string) (variables : gmap string string) : string :=
  renderFrom variables Outside template.

(** *** Webhook signatures *)

Section Signatures.
(** [crypto.createHmac('sha256', key).update(data).digest('hex')] *)
Variable hmacSha256Hex : string -> string -> string.

(** [signWebhookPayload(payload, secret)] at clock reading [now]. *)
Definition signWebhookPayload (payload secret : string) (now : Z) : string :=
  let signature := hmacSha256Hex secret payload in
  "t=" +:+ pretty now +:+ ",v1=" +:+ signature.

Fixpoint takeLowerHex (s : string) : string :=
  match s with
  | EmptyString => EmptyString
  | String c r => if isLowerHex c then String c (takeLowerHex r) else EmptyString
  end.

(** [signature.match(/v1=([a-f0-9]+)/)]: the capture group of the
    leftmost match. *)
Fixpoint matchV1 (s : string) : option string :=
  let here := if String.prefix "v1=" s then takeLowerHex (dropChars 3 s) else "" in
  match here with
  | String _ _ => Some here
  | EmptyString =>
      match s with
      | EmptyString => None
      | String _ r => matchV1 r
      end
  end.

(** [crypto.timingSafeEqual(Buffer.from(a), Buffer.from(b))] inside the
    [try]: buffers of different lengths throw, which yields [false]. *)
Definition timingSafeEqual_orFalse (a b : string) : bool :=
  if (String.length a =? String.length b)%nat then String.eqb a b else false.

Definition verifyWebhookPayload (payload signature secret : string) : bool :=
  let expectedSignature := hmacSha256Hex secret payload in
  match matchV1 signature with
  | None => false
  | Some providedSignature =>
      timingSafeEqual_orFalse expectedSignature providedSignature
  end.
End Signatures.

(** *** Template variables *)

(** The keys of the matches of [/\{\{(\w+)\}\}/g], left to right: the same
    pass as [renderFrom], recording each key where [renderFrom]
    substitutes it ([match.slice(2, -2)]). *)
Fixpoint matchedKeys (st : Scan) (s : string) : list string :=
  match s with
  | EmptyString => []
  | String c r =>
      let one := String c EmptyString in
      match st with
      | Outside =>
          if decide (c = lbrace) then matchedKeys Open1 r
          else matchedKeys Outside r
      | Open1 =>
          if decide (c = lbrace) then matchedKeys Open2 r
          else matchedKeys Outside r
      | Open2 =>
          if isWordChar c then matchedKeys (InKey one) r
          else if decide (c = lbrace) then matchedKeys Open2 r
          else matchedKeys Outside r
      | InKey k =>
          if isWordChar c then matchedKeys (InKey (k +:+ one)) r
          else if decide (c = rbrace) then matchedKeys (Close1 k) r
          else if decide (c = lbrace) then matchedKeys Open1 r
          else matchedKeys Outside r
      | Close1 k =>
          if decide (c = rbrace) then k :: matchedKeys Outside r
          else if decide (c = lbrace) then matchedKeys Open1 r
          else matchedKeys Outside r
      end
  end.

(** [[...new Set(l)]]: each element once, in the order of first
    occurrence. *)
Definition dedupe (l : list string) : list string :=
  fold_left (fun seen x => if bool_decide (x ∈ seen) then seen else seen ++ [x]) l [].

(** [extractTemplateVariables(template)] *)
Definition extractTemplateVariables (template : string) : list string :=
  match matchedKeys Outside template with
  | [] => []
  | variables => dedupe variables
  end.

(** *** Truncation *)

Fixpoint takeChars (n : nat) (s : string) : string :=
  match n, s with
  | S n', String c r => String c (takeChars n' r)
  | _, _ => EmptyString
  end.

(** [str.slice(0, stop)] for an integer [stop]: a negative [stop] counts
    from the end of the string. *)
Definition sliceTo (str : string) (stop : Z) : string :=
  let len := Z.of_nat (String.length str) in
  let upto := if stop <? 0 then Z.max (len + stop) 0 else Z.min stop len in
  takeChars (Z.to_nat upto) str.

(** [truncate(str, maxLength)] for an integer [maxLength]. *)
Definition truncate (str : string) (maxLength : Z) : string :=
  if Z.of_nat (String.length str) <=? maxLength then str
  else sliceTo str (maxLength - 3) +:+ "...".

(** *** HTML escaping *)

(** [s.replace(/c/g, by)] for a single character [c]. *)
Fixpoint replaceChar (c : ascii) (by_ : string) (s : string) : string :=
  match s with
  | EmptyString => EmptyString
  | String x r =>
      if decide (x = c) then by_ +:+ replaceChar c by_ r
      else String x (replaceChar c by_ r)
  end.

Definition squote : ascii := ascii_of_nat 39.

(** [sanitizeHtml(html)]: the five replacements in the order of the
    source. *)
Definition sanitizeHtml (html : string) : string :=
  replaceChar squote "&#x27;"
    (replaceChar dquote "&quot;"
       (replaceChar ">" "&gt;"
          (replaceChar "<" "&lt;"
             (replaceChar "&" "&amp;" html)))).

(** *** Regular expressions, as far as [isValidEmail] uses them *)

Inductive Regex : Type :=
  | ReNone                                (* matches nothing *)
  | ReEps                                 (* the empty pattern *)
  | ReClass (p : ascii -> bool)           (* one character of a class *)
  | ReSeq (r1 r2 : Regex)
  | ReAlt (r1 r2 : Regex)
  | ReStar (r : Regex).

(** [r+] *)
Definition rePlus (r : Regex) : Regex := ReSeq r (ReStar r).

Fixpoint nullable (r : Regex) : bool :=
  match r with
  | ReNone => false
  | ReEps => true
  | ReClass _ => false
  | ReSeq r1 r2 => nullable r1 && nullable r2
  | ReAlt r1 r2 => nullable r1 || nullable r2
  | ReStar _ => true
  end.

(** What is left of [r] to match once [c] has been read. *)
Fixpoint deriv (r : Regex) (c : ascii) : Regex :=
  match r with
  | ReNone => ReNone
  | ReEps => ReNone
  | ReClass p => if p c then ReEps else ReNone
  | ReSeq r1 r2 =>
      if nullable r1 then ReAlt (ReSeq (deriv r1 c) r2) (deriv r2 c)
      else ReSeq (deriv r1 c) r2
  | ReAlt r1 r2 => ReAlt (deriv r1 c) (deriv r2 c)
  | ReStar r1 => ReSeq (deriv r1 c) (ReStar r1)
  end.

(** [/^r$/.test(s)] *)
Fixpoint reTest (r : Regex) (s : string) : bool :=
  match s with
  | EmptyString => nullable r
  | String c rest => reTest (deriv r c) rest
  end.

(** [\s] on characters with a code below 256: tab, line feed, vertical tab,
    form feed, carriage return, space and the no-break space. *)
Definition isSpace (c : ascii) : bool :=
  inRange 9 13 c || inRange 32 32 c || inRange 160 160 c.

(** [[^\s@]] *)
Definition notSpaceOrAt (c : ascii) : bool :=
  negb (isSpace c) && negb (Ascii.eqb c "@").

(** [/^[^\s@]+@[^\s@]+\.[^\s@]+$/] *)
Definition emailRegex : Regex :=
  ReSeq (rePlus (ReClass notSpaceOrAt))
    (ReSeq (ReClass (Ascii.eqb "@"))
       (ReSeq (rePlus (ReClass notSpaceOrAt))
          (ReSeq (ReClass (Ascii.eqb "."))
             (rePlus (ReClass notSpaceOrAt))))).

Definition isValidEmail (email : string) : bool := reTest emailRegex email.

End Utils.

(** ** Configuration (apps/api config, apps/worker config) *)

(** [config.queue.defaultJobOptions] of the API: a literal of the source. *)
Definition api_defaultJobOptions : JobsOptions :=
  {| jo_attempts := Some 3;
     jo_backoff := Some {| bo_type := BT_exponential; bo_delay := 5000 |};
     jo_priority := None;
     jo_removeOnComplete := Some 100;
     jo_removeOnFail := Some 50 |}.

(** The settings of the API that come from the environment. *)
Record ApiConfig := {
  rateLimit_windowMs : Z;        (* default 60000 *)
  rateLimit_maxRequests : Z }.   (* default 100 *)

Definition defaultApiConfig : ApiConfig :=
  {| rateLimit_windowMs := 60000; rateLimit_maxRequests := 100 |}.

(** The settings of the worker that come from the environment. *)
Record WorkerConfig := {
  retry_maxAttempts : Z }.       (* default 3 *)

Definition defaultWorkerConfig : WorkerConfig := {| retry_maxAttempts := 3 |}.

(** [x || y] on a possibly absent string: the empty string is falsy. *)
Definition truthy (o : option string) : option string :=
  match o with
  | Some s => if decide (s = "") then None else Some s
  | None => None
  end.

(** ** Queue handles (bullmq [Queue]) *)

(** [queue.add(name, data, opts)] on a handle built with
    [defaultJobOptions]: the job is stored with the merged options. *)
Definition queueAdd {D} (defaultJobOptions : JobsOptions)
    (name : string) (data : D) (opts : JobsOptions) : QueuedJob D :=
  {| qj_name := name; qj_data := data;
     qj_opts := mergeJobsOptions defaultJobOptions opts |}.

(** The two handles of the API's queue plugin. *)
Module QueuePlugin.
Definition sendEmail_defaultJobOptions : JobsOptions := api_defaultJobOptions.

(** [{ ...config.queue.defaultJobOptions, attempts: 5 }] *)
Definition webhook_defaultJobOptions : JobsOptions :=
  mergeJobsOptions api_defaultJobOptions
    {| jo_attempts := Some 5; jo_backoff := None; jo_priority := None;
       jo_removeOnComplete := None; jo_removeOnFail := None |}.

Definition sendEmail_add (name : string) (data : SendEmailJob) (opts : JobsOptions) : IO unit :=
  modify (set_sendEmailQueue (fun q => q ++ [queueAdd sendEmail_defaultJobOptions name data opts])).

Definition webhook_add (name : string) (data : WebhookJob) (opts : JobsOptions) : IO unit :=
  modify (set_webhookQueue (fun q => q ++ [queueAdd webhook_defaultJobOptions name data opts])).
End QueuePlugin.

(** ** Rate limiter (apps/api services) *)

Module RateLimiter.

Record RateLimitInfo := {
  allowed : bool;
  remaining : Z;
  resetAt : Z;
  limit : Z }.

Definition RATE_LIMIT_PREFIX : string := "rate_limit:".

(** [checkLimit(key)]: drop the scores in [0, now - windowMs], count what
    is left, add the current request, report. *)
Definition checkLimit (cfg : ApiConfig) (key : string) (now : Z) : IO RateLimitInfo :=
  fun w =>
    let maxRequests := rateLimit_maxRequests cfg in
    let windowMs := rateLimit_windowMs cfg in
    let redisKey := RATE_LIMIT_PREFIX +:+ key in
    let windowStart := now - windowMs in
    let stored : list Z := default [] (rateLimits w !! redisKey) in
    let kept := filter (fun score : Z => ~ (0 <= score <= windowStart)) stored in
    let currentCount := Z.of_nat (length kept) in
    let oldest := foldr Z.min now kept in
    (set_rateLimits (insert redisKey (kept ++ [now])) w,
     Return {| allowed := currentCount <? maxRequests;
               remaining := Z.max 0 (maxRequests - currentCount - 1);
               resetAt := oldest + windowMs;
               limit := maxRequests |}).

Definition getProjectKey (projectId : string) : string := "project:" +:+ projectId.

End RateLimiter.

(** ** Idempotency store (apps/api services) *)

Module IdempotencyService.

Definition IDEMPOTENCY_TTL_MS : Z := 24 * 60 * 60 * 1000.

(** [check(key, scope)]: the row is looked up by key alone; an expired row
    is deleted; a row of another scope is reported as absent. *)
Definition check (key scope : string) (now : Z) : IO (option IdempotencyKey) :=
  fun w =>
    match idempotencyKeys w !! key with
    | None => (w, Return None)
    | Some record =>
        if idem_expiresAt record <? now then
          (set_idempotencyKeys (delete key) w, Return None)
        else if decide (idem_scope record = scope) then (w, Return (Some record))
        else (w, Return None)
    end.

(** [store(key, scope, response)]: a plain insert; the unique index on
    the key column rejects a second row with the same key. *)
Definition store (key scope : string) (response : SendResponse) (now : Z) : IO unit :=
  fun w =>
    let expiresAt := now + IDEMPOTENCY_TTL_MS in
    match idempotencyKeys w !! key with
    | Some _ => (w, Throw (P2002_unique "key"))
    | None =>
        (set_idempotencyKeys
           (insert key {| idem_scope := scope; idem_response := response;
                          idem_expiresAt := expiresAt |}) w,
         Return tt)
    end.

(** The [where] clause of [cleanup]: [expiresAt < now]. *)
Definition expired (now : Z) (row : string * IdempotencyKey) : Prop :=
  idem_expiresAt row.2 < now.

#[global] Instance expired_dec now row : Decision (expired now row).
Proof. unfold expired. apply _. Defined.

(** [cleanup()]: delete the expired rows; the number of rows deleted. *)
Definition cleanup (now : Z) : IO Z :=
  fun w =>
    let gone := filter (expired now) (idempotencyKeys w) in
    (set_idempotencyKeys (filter (fun row => ~ expired now row)) w,
     Return (Z.of_nat (size gone))).

End IdempotencyService.

(** ** Send service of the REST API (apps/api services: email) *)

Module EmailService.

(** An address as the request schema admits it: a bare string or an
    object. *)
Inductive AddressInput : Type :=
  | AddrString (s : string)
  | AddrObject (r : Recipient).

Inductive ToInput : Type :=
  | ToOne (a : AddressInput)
  | ToMany (l : list AddressInput).

Inductive Priority : Type := high | normal | low.

Record SendEmailRequest := {
  req_to : ToInput;
  req_from : AddressInput;
  req_replyTo : option string;
  req_subject : string;
  req_text : option string;
  req_html : option string;
  req_templateId : option string;
  req_variables : option (gmap string string);
  req_attachments : option (list Attachment);
  req_headers : option (list (string * string)) }.

Record SendEmailOptions := {
  idempotencyKey : option string;
  tags : option (list string);
  priority : option Priority }.

(** [ApiResponse<{ messageId, status }>] *)
Inductive ApiResponse : Type :=
  | ApiSuccess (data : SendResponse)
  | ApiError (code message : string).

Definition normalizeAddress (a : AddressInput) : Recipient :=
  match a with
  | AddrString s => {| email := s; name := None |}
  | AddrObject r => r
  end.

Definition normalizeRecipients (to : ToInput) : list Recipient :=
  match to with
  | ToOne a => [normalizeAddress a]
  | ToMany l => map normalizeAddress l
  end.

Definition normalizeFrom (from : AddressInput) : Recipient := normalizeAddress from.

Definition scopeOf (projectId : string) : string := "send:" +:+ projectId.

(** [toEmails.map((r) => r.email).join(', ')] *)
Fixpoint joinComma (l : list string) : string :=
  match l with
  | [] => ""
  | [x] => x
  | x :: r => x +:+ ", " +:+ joinComma r
  end.

(** [toEmails.find((r) => r.name)?.name] *)
Fixpoint firstName (l : list Recipient) : option string :=
  match l with
  | [] => None
  | r :: rest => match truthy (name r) with
                 | Some n => Some n
                 | None => firstName rest
                 end
  end.

(** The suppression loop: the first suppressed recipient, with its row. *)
Fixpoint findSuppressed (sup : gmap (string * string) Suppression)
    (projectId : string) (toEmails : list Recipient) : option (Recipient * Suppression) :=
  match toEmails with
  | [] => None
  | r :: rest =>
      match sup !! (projectId, email r) with
      | Some row => Some (r, row)
      | None => findSuppressed sup projectId rest
      end
  end.

(** What the template step leaves in [subject], [htmlBody], [textBody],
    [templateId] and [templateData]. *)
Record Content := {
  c_subject : string;
  c_htmlBody : option string;
  c_textBody : option string;
  c_templateId : option string;
  c_templateData : option (gmap string string) }.

(** The first part of [sendEmail]: rate limit, then idempotency check.
    [inl r] is an early return with [r]; [inr tt] falls through. *)
Definition sendEmail_precheck (cfg : ApiConfig) (now : Z)
    (projectId : string) (options : SendEmailOptions) : IO (ApiResponse + unit) :=
  let rateLimitKey := RateLimiter.getProjectKey projectId in
  rateLimit ← RateLimiter.checkLimit cfg rateLimitKey now;
  if negb (RateLimiter.allowed rateLimit) then
    mret (inl (ApiError "RATE_LIMIT_EXCEEDED" "Rate limit exceeded. Please try again later."))
  else
    match truthy (idempotencyKey options) with
    | Some key =>
        existing ← IdempotencyService.check key (scopeOf projectId) now;
        match existing with
        | Some record => mret (inl (ApiSuccess (idem_response record)))
        | None => mret (inr tt)
        end
    | None => mret (inr tt)
    end.

(** The template step. *)
Definition resolveContent (projectId : string) (data : SendEmailRequest)
    : IO (ApiResponse + Content) :=
  match truthy (req_templateId data) with
  | Some tid =>
      found ← gets (fun w => templates w !! tid);
      match found with
      | Some template =>
          if decide (tpl_projectId template = projectId) then
            let templateData := default ∅ (req_variables data) in
            let render (body : option string) :=
              match truthy body with
              | Some b => Some (Utils.renderTemplate b templateData)
              | None => None
              end in
            mret (inr {| c_subject := Utils.renderTemplate (tpl_subject template) templateData;
                         c_htmlBody := render (tpl_html template);
                         c_textBody := render (tpl_text template);
                         c_templateId := Some tid;
                         c_templateData := Some templateData |})
          else
            mret (inl (ApiError "TEMPLATE_NOT_FOUND"
                         ("Template with ID " +:+ tid +:+ " not found")))
      | None =>
          mret (inl (ApiError "TEMPLATE_NOT_FOUND"
                       ("Template with ID " +:+ tid +:+ " not found")))
      end
  | None =>
      mret (inr {| c_subject := req_subject data;
                   c_htmlBody := req_html data;
                   c_textBody := req_text data;
                   c_templateId := None;
                   c_templateData := None |})
  end.

(** [prisma.message.create] with an explicit id. *)
Definition createMessage (id : string) (m : Message) : IO unit :=
  fun w =>
    match messages w !! id with
    | Some _ => (w, Throw (P2002_unique "id"))
    | None => (set_messages (insert id m) w, Return tt)
    end.

Definition createEvent (e : Event) : IO unit :=
  modify (set_events (fun l => l ++ [e])).

Definition jobOptionsOf (options : SendEmailOptions) : JobsOptions :=
  match priority options with
  | Some high =>
      {| jo_attempts := None; jo_backoff := None; jo_priority := Some 1;
         jo_removeOnComplete := None; jo_removeOnFail := None |}
  | Some low =>
      {| jo_attempts := None; jo_backoff := None; jo_priority := Some 10;
         jo_removeOnComplete := None; jo_removeOnFail := None |}
  | _ => noJobsOptions
  end.

(** The rest of [sendEmail], from the suppression check to the end.
    [newId] is the value of [generateRequestId()]. *)
Definition sendEmail_body (now : Z) (newId : string)
    (projectId apiKeyId : string) (data : SendEmailRequest)
    (options : SendEmailOptions) : IO ApiResponse :=
  let toEmails := normalizeRecipients (req_to data) in
  sup ← gets suppressions;
  match findSuppressed sup projectId toEmails with
  | Some (recipient, suppressed) =>
      mret (ApiError "RECIPIENT_SUPPRESSED"
              ("Recipient " +:+ email recipient +:+ " is suppressed: "
               +:+ SuppressionReason_toString (sup_reason suppressed)))
  | None =>
      let from := normalizeFrom (req_from data) in
      resolved ← resolveContent projectId data;
      match resolved with
      | inl err => mret err
      | inr c =>
          match truthy (c_htmlBody c), truthy (c_textBody c) with
          | None, None =>
              mret (ApiError "MISSING_CONTENT"
                      "Email must have either html, text, or a template with content")
          | _, _ =>
              let messageId := newId in
              createMessage messageId
                {| msg_projectId := projectId;
                   msg_externalId := None;
                   msg_toEmail := joinComma (map email toEmails);
                   msg_toName := firstName toEmails;
                   msg_fromEmail := email from;
                   msg_fromName := name from;
                   msg_replyTo := req_replyTo data;
                   msg_subject := c_subject c;
                   msg_htmlBody := c_htmlBody c;
                   msg_textBody := c_textBody c;
                   msg_templateId := c_templateId c;
                   msg_templateData := c_templateData c;
                   msg_status := MS_QUEUED;
                   msg_error := None;
                   msg_tags := default [] (tags options);
                   msg_idempotencyKey := idempotencyKey options;
                   msg_sentAt := None;
                   msg_deliveredAt := None |};;
              createEvent {| ev_messageId := messageId; ev_type := ET_QUEUED;
                             ev_payload := EP_QueuedApi apiKeyId now |};;
              let jobData :=
                {| job_messageId := messageId;
                   job_projectId := projectId;
                   job_to := toEmails;
                   job_from := from;
                   job_replyTo := req_replyTo data;
                   job_subject := c_subject c;
                   job_htmlBody := c_htmlBody c;
                   job_textBody := c_textBody c;
                   job_attachments := req_attachments data;
                   job_headers := req_headers data |} in
              QueuePlugin.sendEmail_add ("send:" +:+ messageId) jobData (jobOptionsOf options);;
              let response := {| resp_messageId := messageId; resp_status := MS_QUEUED |} in
              match truthy (idempotencyKey options) with
              | Some key =>
                  IdempotencyService.store key (scopeOf projectId) response now;;
                  mret (ApiSuccess response)
              | None => mret (ApiSuccess response)
              end
          end
      end
  end.

(** [sendEmail(projectId, apiKeyId, data, options)] run without
    interruption. *)
Definition sendEmail (cfg : ApiConfig) (now : Z) (newId : string)
    (projectId apiKeyId : string) (data : SendEmailRequest)
    (options : SendEmailOptions) : IO ApiResponse :=
  early ← sendEmail_precheck cfg now projectId options;
  match early with
  | inl response => mret response
  | inr _ => sendEmail_body now newId projectId apiKeyId data options
  end.

End EmailService.

(** ** HTTP client and JSON serialiser, as the webhook code sees them *)

(** The POST request the webhook code builds. *)
Record HttpRequest := {
  rq_url : string;
  rq_signature : string;        (* X-Webhook-Signature *)
  rq_webhookId : string;        (* X-Webhook-Id *)
  rq_eventType : WebhookEventType;   (* X-Event-Type *)
  rq_userAgent : string;
  rq_body : string;
  rq_timeoutMs : Z }.

(** What [await fetch(...)] yields: a response with its status and its text
    ([None] when reading the text fails), or a rejection. *)
Inductive FetchResult : Type :=
  | Responded (status : Z) (body : option string)
  | Rejected (e : Thrown).

(** [response.ok] *)
Definition responseOk (status : Z) : bool := (200 <=? status) && (status <=? 299).

(** The library functions the webhook code calls. *)
Record WebhookEnv := {
  JSON_stringify : WebhookPayload -> string;
  hmacSha256Hex : string -> string -> string;
  fetch : HttpRequest -> FetchResult }.

(** [for (const x of l) { await f(x) }] *)
Fixpoint forEach {A} (l : list A) (f : A -> IO unit) : IO unit :=
  match l with
  | [] => mret tt
  | x :: rest => f x;; forEach rest f
  end.

Definition createWebhookDelivery (d : WebhookDelivery) : IO unit :=
  modify (set_webhookDeliveries (fun l => l ++ [d])).

(** [prisma.webhook.update({ where: { id }, data })] *)
Definition updateWebhook (id : string) (f : Webhook -> Webhook) : IO unit :=
  fun w =>
    match webhooks w !! id with
    | Some wh => (set_webhooks (insert id (f wh)) w, Return tt)
    | None => (w, Throw P2025_notFound)
    end.

(** [{ successCount: { increment: 1 }, lastTriggeredAt: new Date() }] *)
Definition countSuccess (now : Z) (wh : Webhook) : Webhook :=
  {| wh_projectId := wh_projectId wh; wh_url := wh_url wh; wh_secret := wh_secret wh;
     wh_eventTypes := wh_eventTypes wh; wh_active := wh_active wh;
     wh_successCount := wh_successCount wh + 1;
     wh_failCount := wh_failCount wh;
     wh_lastTriggeredAt := Some now |}.

(** [{ failCount: { increment: 1 }, lastTriggeredAt: new Date() }] *)
Definition countFail (now : Z) (wh : Webhook) : Webhook :=
  {| wh_projectId := wh_projectId wh; wh_url := wh_url wh; wh_secret := wh_secret wh;
     wh_eventTypes := wh_eventTypes wh; wh_active := wh_active wh;
     wh_successCount := wh_successCount wh;
     wh_failCount := wh_failCount wh + 1;
     wh_lastTriggeredAt := Some now |}.

Definition webhookRequest (env : WebhookEnv) (now : Z) (id : string) (wh : Webhook)
    (eventType : WebhookEventType) (payload : WebhookPayload) : HttpRequest :=
  let payloadString := JSON_stringify env payload in
  let signature := Utils.signWebhookPayload (hmacSha256Hex env) payloadString (wh_secret wh) now in
  {| rq_url := wh_url wh;
     rq_signature := signature;
     rq_webhookId := id;
     rq_eventType := eventType;
     rq_userAgent := "TransactionMail-Webhook/1.0";
     rq_body := payloadString;
     rq_timeoutMs := 30000 |}.

(** ** Webhook fan-out service (apps/api services: webhook) *)

Module WebhookService.

(** The [where] clause of [trigger]'s query. *)
Definition subscribed (projectId : string) (eventType : WebhookEventType)
    (row : string * Webhook) : Prop :=
  wh_projectId row.2 = projectId /\ wh_active row.2 = true /\ eventType ∈ wh_eventTypes row.2.

#[global] Instance subscribed_dec projectId eventType row :
  Decision (subscribed projectId eventType row).
Proof. unfold subscribed. apply _. Defined.

Definition findSubscribed (projectId : string) (eventType : WebhookEventType)
    (table : gmap string Webhook) : list (string * Webhook) :=
  filter (subscribed projectId eventType) (map_to_list table).

(** The options [trigger] passes with every job. *)
Definition triggerJobOptions : JobsOptions :=
  {| jo_attempts := Some 5;
     jo_backoff := Some {| bo_type := BT_exponential; bo_delay := 5000 |};
     jo_priority := None; jo_removeOnComplete := None; jo_removeOnFail := None |}.

Definition jobFor (eventType : WebhookEventType) (payload : WebhookPayload)
    (row : string * Webhook) : WebhookJob :=
  {| wj_webhookId := row.1; wj_eventType := eventType; wj_payload := payload |}.

(** [trigger(projectId, eventType, data)] *)
Definition trigger (now : Z) (projectId : string) (eventType : WebhookEventType)
    (data : list (string * Json)) : IO unit :=
  found ← gets (fun w => findSubscribed projectId eventType (webhooks w));
  match found with
  | [] => mret tt
  | _ =>
      let payload := {| wp_event := eventType; wp_timestamp := now; wp_data := data |} in
      forEach found (fun row =>
        QueuePlugin.webhook_add
          ("webhook:" +:+ row.1 +:+ ":" +:+ pretty now)
          (jobFor eventType payload row)
          triggerJobOptions)
  end.

Record DeliverResult := {
  dr_success : bool;
  dr_statusCode : option Z;
  dr_error : option string }.

(** [deliver(webhook, payload)] *)
Definition deliver (env : WebhookEnv) (now : Z) (id : string) (wh : Webhook)
    (payload : WebhookPayload) : IO DeliverResult :=
  let request := webhookRequest env now id wh (wp_event payload) payload in
  tryCatch
    (match fetch env request with
     | Rejected e => throw e
     | Responded status body =>
         createWebhookDelivery
           {| wd_webhookId := id; wd_eventType := wp_event payload; wd_payload := payload;
              wd_responseStatus := Some status; wd_responseBody := body;
              wd_error := None |};;
         (if responseOk status then updateWebhook id (countSuccess now)
          else updateWebhook id (countFail now));;
         mret {| dr_success := responseOk status; dr_statusCode := Some status;
                 dr_error := None |}
     end)
    (fun error =>
       let errorMessage := errorMessageOf error in
       createWebhookDelivery
         {| wd_webhookId := id; wd_eventType := wp_event payload; wd_payload := payload;
            wd_responseStatus := None; wd_responseBody := None;
            wd_error := Some errorMessage |};;
       updateWebhook id (countFail now);;
       mret {| dr_success := false; dr_statusCode := None; dr_error := Some errorMessage |}).

End WebhookService.

(** ** Queue jobs as a processor receives them (bullmq [Job]) *)

Record Job (D : Type) := {
  data : D;
  opts : JobsOptions;
  attemptsMade : Z }.
Arguments data {D} _.
Arguments opts {D} _.
Arguments attemptsMade {D} _.

(** ** Webhook delivery worker (apps/worker processors: webhook) *)

Module WebhookProcessor.

(** [process(job)] *)
Definition process (env : WebhookEnv) (now : Z) (job : Job WebhookJob) : IO unit :=
  let webhookId := wj_webhookId (data job) in
  let eventType := wj_eventType (data job) in
  let payload := wj_payload (data job) in
  found ← gets (fun w => webhooks w !! webhookId);
  match found with
  | None => mret tt
  | Some webhook =>
      if negb (wh_active webhook) then mret tt
      else
        let request := webhookRequest env now webhookId webhook eventType payload in
        tryCatch
          (match fetch env request with
           | Rejected e => throw e
           | Responded status body =>
               createWebhookDelivery
                 {| wd_webhookId := webhookId; wd_eventType := eventType;
                    wd_payload := payload;
                    wd_responseStatus := Some status; wd_responseBody := body;
                    wd_error := None |};;
               if responseOk status then
                 updateWebhook webhookId (countSuccess now)
               else
                 updateWebhook webhookId (countFail now);;
                 throw (JsError ("HTTP " +:+ pretty status))
           end)
          (fun error =>
             let errorMessage := errorMessageOf error in
             createWebhookDelivery
               {| wd_webhookId := webhookId; wd_eventType := eventType;
                  wd_payload := payload;
                  wd_responseStatus := None; wd_responseBody := None;
                  wd_error := Some errorMessage |};;
             updateWebhook webhookId (countFail now);;
             throw error)
  end.

End WebhookProcessor.

(** ** Email delivery worker (apps/worker processors: email) *)

Module EmailProcessor.

(** The [SendMailOptions] handed to the transport. *)
Record MailAttachment := {
  ma_filename : string;
  ma_content : string;          (* the bytes of [Buffer.from(content, 'base64')], kept as the base64 text *)
  ma_contentType : option string }.

Record MailOptions := {
  mo_from : string;
  mo_to : string;
  mo_replyTo : option string;
  mo_subject : string;
  mo_text : option string;
  mo_html : option string;
  mo_headers : option (list (string * string));
  mo_attachments : option (list MailAttachment) }.

(** What [transporter.sendMail] resolves to. *)
Record SentInfo := { info_messageId : string; info_response : string }.

(** The outbound transport: [sendMail] resolves or rejects. *)
Definition Transport : Type := MailOptions -> Outcome SentInfo.

(** The optional fields a status update carries ([extraData]). *)
Record ExtraData := {
  x_externalId : option string;
  x_sentAt : option Z;
  x_deliveredAt : option Z;
  x_error : option string }.

Definition noExtraData : ExtraData :=
  {| x_externalId := None; x_sentAt := None; x_deliveredAt := None; x_error := None |}.

(** [{ externalId, sentAt }], [{ deliveredAt }] and [{ error }]. *)
Definition sentData (externalId : string) (sentAt : Z) : ExtraData :=
  {| x_externalId := Some externalId; x_sentAt := Some sentAt;
     x_deliveredAt := None; x_error := None |}.

Definition deliveredData (deliveredAt : Z) : ExtraData :=
  {| x_externalId := None; x_sentAt := None;
     x_deliveredAt := Some deliveredAt; x_error := None |}.

Definition errorData (error : string) : ExtraData :=
  {| x_externalId := None; x_sentAt := None; x_deliveredAt := None;
     x_error := Some error |}.

(** [{ status, ...extraData }] applied to a row. *)
Definition applyUpdate (status : MessageStatus) (extra : ExtraData) (m : Message) : Message :=
  let keep {A} (new old : option A) := match new with Some _ => new | None => old end in
  {| msg_projectId := msg_projectId m;
     msg_externalId := keep (x_externalId extra) (msg_externalId m);
     msg_toEmail := msg_toEmail m; msg_toName := msg_toName m;
     msg_fromEmail := msg_fromEmail m; msg_fromName := msg_fromName m;
     msg_replyTo := msg_replyTo m; msg_subject := msg_subject m;
     msg_htmlBody := msg_htmlBody m; msg_textBody := msg_textBody m;
     msg_templateId := msg_templateId m; msg_templateData := msg_templateData m;
     msg_status := status;
     msg_error := keep (x_error extra) (msg_error m);
     msg_tags := msg_tags m;
     msg_idempotencyKey := msg_idempotencyKey m;
     msg_sentAt := keep (x_sentAt extra) (msg_sentAt m);
     msg_deliveredAt := keep (x_deliveredAt extra) (msg_deliveredAt m) |}.

(** The unique index on the external id: whether another row holds it. *)
Definition externalIdTaken (messageId : string) (extra : ExtraData)
    (table : gmap string Message) : bool :=
  match x_externalId extra with
  | Some externalId =>
      existsb (fun row : string * Message =>
                 bool_decide (row.1 <> messageId /\ msg_externalId row.2 = Some externalId))
              (map_to_list table)
  | None => false
  end.

(** [updateMessageStatus(messageId, status, extraData)]: the row must
    exist, and an external id must not belong to another row. *)
Definition updateMessageStatus (messageId : string) (status : MessageStatus)
    (extraData : ExtraData) : IO unit :=
  fun w =>
    match messages w !! messageId with
    | Some m =>
        if externalIdTaken messageId extraData (messages w) then
          (w, Throw (P2002_unique "external_id"))
        else
          (set_messages (insert messageId (applyUpdate status extraData m)) w, Return tt)
    | None => (w, Throw P2025_notFound)
    end.

Definition recordEvent (messageId : string) (type : EventType)
    (payload : EventPayload) : IO unit :=
  modify (set_events (fun l =>
    l ++ [{| ev_messageId := messageId; ev_type := type; ev_payload := payload |}])).

Definition hardBounceIndicators : list string :=
  [ "recipient rejected"; "user unknown"; "mailbox unavailable";
    "invalid address"; "no such user"; "does not exist" ].

Definition isHardBounceError (errorMessage : string) : bool :=
  let lowerError := Utils.toLowerCase errorMessage in
  existsb (fun indicator => Utils.includes lowerError indicator) hardBounceIndicators.

(** The [upsert] on the unique pair (projectId, email). *)
Definition upsertBounce (projectId email reason : string)
    (table : gmap (string * string) Suppression) : gmap (string * string) Suppression :=
  match table !! (projectId, email) with
  | Some row =>
      <[ (projectId, email) :=
           {| sup_reason := SR_BOUNCE; sup_source := sup_source row;
              sup_metadata := Some reason |} ]> table
  | None =>
      <[ (projectId, email) :=
           {| sup_reason := SR_BOUNCE; sup_source := "bounce";
              sup_metadata := Some reason |} ]> table
  end.

Definition addToSuppressionList (messageId email reason : string) : IO unit :=
  message ← gets (fun w => messages w !! messageId);
  match message with
  | None => mret tt
  | Some m => modify (set_suppressions (upsertBounce (msg_projectId m) email reason))
  end.

Definition buildMailOptions (d : SendEmailJob) : MailOptions :=
  {| mo_from := Utils.formatEmailAddress (email (job_from d)) (name (job_from d));
     mo_to := EmailService.joinComma
                (map (fun r => Utils.formatEmailAddress (email r) (name r)) (job_to d));
     mo_replyTo := job_replyTo d;
     mo_subject := job_subject d;
     mo_text := job_textBody d;
     mo_html := job_htmlBody d;
     mo_headers := job_headers d;
     mo_attachments :=
       fmap (M := option)
         (map (fun att => {| ma_filename := filename att; ma_content := content att;
                             ma_contentType := contentType att |}))
         (job_attachments d) |}.

(** [job.opts.attempts || config.retry.maxAttempts] *)
Definition maxAttemptsFor (cfg : WorkerConfig) (o : JobsOptions) : Z :=
  match jo_attempts o with
  | Some n => if n =? 0 then retry_maxAttempts cfg else n
  | None => retry_maxAttempts cfg
  end.

(** [new Date(Date.now() + calculateBackoff(attempts))] as an instant,
    computed over the rationals and cut to whole milliseconds.  The code
    adds in binary floating point, so its instant can lie one millisecond
    from this one. *)
Definition nextRetryAt (now attempts : Z) (rnd : Q) : Z :=
  Qfloor (inject_Z now + Utils.calculateBackoff_default (Z.to_nat attempts) rnd)%Q.

Definition TypeError_undefined_email : Thrown :=
  JsError "Cannot read properties of undefined (reading 'email')".

(** [process(job)]; [sendMail] is the transport, [rnd] the value of
    [Math.random()] inside [calculateBackoff]. *)
Definition process (cfg : WorkerConfig) (sendMail : Transport) (now : Z) (rnd : Q)
    (job : Job SendEmailJob) : IO unit :=
  let d := data job in
  let messageId := job_messageId d in
  tryCatch
    (updateMessageStatus messageId MS_PROCESSING noExtraData;;
     let mailOptions := buildMailOptions d in
     info ← (fun w => (w, sendMail mailOptions));
     updateMessageStatus messageId MS_SENT (sentData (info_messageId info) now);;
     updateMessageStatus messageId MS_DELIVERED (deliveredData now);;
     recordEvent messageId ET_SENT (EP_Sent (info_messageId info) (info_response info));;
     recordEvent messageId ET_DELIVERED (EP_Delivered true))
    (fun error =>
       let errorMessage := errorMessageOf error in
       let attempts := attemptsMade job + 1 in
       let shouldRetry := attempts <? maxAttemptsFor cfg (opts job) in
       if shouldRetry then
         updateMessageStatus messageId MS_RETRYING (errorData errorMessage);;
         recordEvent messageId ET_RETRY_SCHEDULED
           (EP_RetryScheduled attempts errorMessage (nextRetryAt now attempts rnd));;
         throw error
       else
         updateMessageStatus messageId MS_FAILED (errorData errorMessage);;
         recordEvent messageId ET_FAILED (EP_Failed errorMessage attempts);;
         if isHardBounceError errorMessage then
           match job_to d with
           | first :: _ => addToSuppressionList messageId (email first) errorMessage
           | [] => throw TypeError_undefined_email
           end
         else mret tt).

End EmailProcessor.

(** ** Inbound SMTP relay (apps/api: smtpRelay) *)

Module SmtpRelayServer.

(** The properties the handlers keep on the SMTP session. *)
Record Session := {
  ses_projectId : option string;
  ses_envelopeFrom : option string;
  ses_envelopeTo : option (list string) }.

Definition newSession : Session :=
  {| ses_projectId := None; ses_envelopeFrom := None; ses_envelopeTo := None |}.

Record AuthInput := { username : option string; password : option string }.

(** The arguments of the [onAuth] callback. *)
Inductive AuthResult : Type :=
  | AuthError (message : string)
  | AuthOk (user : string).

#[global] Instance AuthResult_eq_dec : EqDecision AuthResult.
Proof. solve_decision. Defined.

(** How the loop over the project's keys ends. *)
Inductive KeyScan : Type :=
  | NoValidKey                   (* the loop ran to its end *)
  | LacksScope                   (* early return inside the loop *)
  | ValidKey (key : ApiKey).     (* [validKey = true; break] *)

(** The loop of [handleAuth]; [compare] is [bcrypt.compare]. *)
Fixpoint scanKeys (compare : string -> string -> bool) (apiKeyValue : string)
    (keys : list ApiKey) : KeyScan :=
  match keys with
  | [] => NoValidKey
  | key :: rest =>
      match key_revokedAt key with
      | Some _ => scanKeys compare apiKeyValue rest
      | None =>
          if compare apiKeyValue (key_keyHash key) then
            if bool_decide ("send:email" ∈ key_scopes key) then ValidKey key
            else LacksScope
          else scanKeys compare apiKeyValue rest
      end
  end.

(** [prisma.apiKey.update({ where: { id }, data: { lastUsedAt } })] *)
Definition touchKey (id : string) (now : Z) (k : ApiKey) : ApiKey :=
  if decide (key_id k = id) then
    {| key_id := key_id k; key_keyHash := key_keyHash k; key_scopes := key_scopes k;
       key_revokedAt := key_revokedAt k; key_lastUsedAt := Some now |}
  else k.

Definition touchProjectKey (id : string) (now : Z) (p : Project) : Project :=
  {| prj_status := prj_status p; prj_apiKeys := map (touchKey id now) (prj_apiKeys p) |}.

Definition withProjectId (projectId : string) (s : Session) : Session :=
  {| ses_projectId := Some projectId; ses_envelopeFrom := ses_envelopeFrom s;
     ses_envelopeTo := ses_envelopeTo s |}.

(** [handleAuth(auth, session, callback)]: the new session and the
    arguments the callback receives. *)
Definition handleAuth (compare : string -> string -> bool) (now : Z)
    (auth : AuthInput) (session : Session) : IO (Session * AuthResult) :=
  tryCatch
    (match truthy (username auth), truthy (password auth) with
     | Some projectId, Some apiKeyValue =>
         project ← gets (fun w => projects w !! projectId);
         match project with
         | None => mret (session, AuthError "Invalid credentials")
         | Some prj =>
             if decide (prj_status prj = PS_ACTIVE) then
               match scanKeys compare apiKeyValue (prj_apiKeys prj) with
               | LacksScope =>
                   mret (session,
                         AuthError "API key does not have email sending permission")
               | NoValidKey => mret (session, AuthError "Invalid credentials")
               | ValidKey key =>
                   modify (set_projects (fun t =>
                     <[ projectId := touchProjectKey (key_id key) now prj ]> t));;
                   mret (withProjectId projectId session, AuthOk projectId)
               end
             else mret (session, AuthError "Invalid credentials")
         end
     | _, _ => mret (session, AuthError "Authentication required")
     end)
    (fun err => mret (session, AuthError "Authentication failed")).

(** [handleMailFrom]: the new session and the callback's error. *)
Definition handleMailFrom (address : string) (session : Session) : Session * option string :=
  match truthy (ses_projectId session) with
  | None => (session, Some "Not authenticated")
  | Some _ =>
      ({| ses_projectId := ses_projectId session; ses_envelopeFrom := Some address;
          ses_envelopeTo := ses_envelopeTo session |}, None)
  end.

(** [handleRcptTo] *)
Definition handleRcptTo (address : string) (session : Session) : Session * option string :=
  match truthy (ses_projectId session) with
  | None => (session, Some "Not authenticated")
  | Some _ =>
      ({| ses_projectId := ses_projectId session;
          ses_envelopeFrom := ses_envelopeFrom session;
          ses_envelopeTo := Some (default [] (ses_envelopeTo session) ++ [address]) |}, None)
  end.

(** The fields of the parsed mail that [handleData] reads. *)
Record ParsedAttachment := {
  pa_filename : option string;
  pa_content : string;          (* [att.content.toString('base64')] *)
  pa_contentType : string }.

Record ParsedMail := {
  pm_fromAddress : option string;     (* parsed.from?.value[0]?.address *)
  pm_fromName : option string;        (* parsed.from?.value[0]?.name *)
  pm_replyTo : option string;         (* parsed.replyTo?.value[0]?.address *)
  pm_subject : option string;
  pm_html : option string;            (* [None] for [false] *)
  pm_text : option string;
  pm_attachments : option (list ParsedAttachment) }.

(** The suppression loop over the envelope recipients. *)
Fixpoint findSuppressed (sup : gmap (string * string) Suppression)
    (projectId : string) (envelopeTo : list string) : option string :=
  match envelopeTo with
  | [] => None
  | recipient :: rest =>
      match sup !! (projectId, recipient) with
      | Some _ => Some recipient
      | None => findSuppressed sup projectId rest
      end
  end.

(** The relay's own queue handle is built without [defaultJobOptions]. *)
Definition queue_defaultJobOptions : JobsOptions := noJobsOptions.

Definition queue_add (name : string) (d : SendEmailJob) : IO unit :=
  modify (set_sendEmailQueue (fun q =>
    q ++ [queueAdd queue_defaultJobOptions name d noJobsOptions])).

Definition missingFromEmail : Thrown := JsError "Argument `fromEmail` is missing.".

(** [handleData(stream, session, callback)]: the callback's error.
    [parsed] is what [simpleParser(stream)] settles to, [newId] the id the
    database gives the new row. *)
Definition handleData (parsed : Outcome ParsedMail) (newId : string)
    (session : Session) : IO (option string) :=
  tryCatch
    (let envelopeFrom := ses_envelopeFrom session in
     let envelopeTo := default [] (ses_envelopeTo session) in
     match truthy (ses_projectId session) with
     | None => mret (Some "Not authenticated")
     | Some projectId =>
         mail ← (fun w => (w, parsed));
         sup ← gets suppressions;
         match findSuppressed sup projectId envelopeTo with
         | Some recipient =>
             mret (Some ("Recipient " +:+ recipient +:+ " is suppressed"))
         | None =>
             let attachments :=
               fmap (M := option)
                 (map (fun att =>
                         {| filename := default "attachment" (truthy (pa_filename att));
                            content := pa_content att;
                            contentType := Some (pa_contentType att) |}))
                 (pm_attachments mail) in
             let fromEmail :=
               match truthy (pm_fromAddress mail) with
               | Some a => Some a
               | None => envelopeFrom
               end in
             let subject := default "(no subject)" (truthy (pm_subject mail)) in
             match fromEmail with
             | None => throw missingFromEmail
             | Some fromAddr =>
                 EmailService.createMessage newId
                   {| msg_projectId := projectId;
                      msg_externalId := None;
                      msg_toEmail := EmailService.joinComma envelopeTo;
                      msg_toName := None;
                      msg_fromEmail := fromAddr;
                      msg_fromName := pm_fromName mail;
                      msg_replyTo := pm_replyTo mail;
                      msg_subject := subject;
                      msg_htmlBody := truthy (pm_html mail);
                      msg_textBody := pm_text mail;
                      msg_templateId := None;
                      msg_templateData := None;
                      msg_status := MS_QUEUED;
                      msg_error := None;
                      msg_tags := ["smtp-relay"];
                      msg_idempotencyKey := None;
                      msg_sentAt := None;
                      msg_deliveredAt := None |};;
                 EmailService.createEvent
                   {| ev_messageId := newId; ev_type := ET_QUEUED;
                      ev_payload := EP_QueuedSmtp |};;
                 let jobData :=
                   {| job_messageId := newId;
                      job_projectId := projectId;
                      job_to := map (fun e => {| email := e; name := None |}) envelopeTo;
                      job_from := {| email := fromAddr; name := pm_fromName mail |};
                      job_replyTo := pm_replyTo mail;
                      job_subject := subject;
                      job_htmlBody := truthy (pm_html mail);
                      job_textBody := pm_text mail;
                      job_attachments := attachments;
                      job_headers := None |} in
                 queue_add ("smtp:" +:+ newId) jobData;;
                 mret None
             end
         end
     end)
    (fun err => mret (Some "Failed to process message")).

End SmtpRelayServer.

(** ** The queue's retry rule *)

Module Bull.

Inductive JobState : Type :=
  | Completed
  | Failed (reason : Thrown).

(** The attempt limit of a stored job: the library reads an absent
    [attempts] option as 0. *)
Definition attemptsOf (o : JobsOptions) : Z := default 0 (jo_attempts o).

(** Modelled from the spec: the Durable Job Queue's handling of one job
    (the queue library is not part of the sources).  The processor runs; if
    it throws, the attempt counter is incremented and the job runs again
    while the counter is below the job's attempt limit, otherwise the job
    is failed.  [retries] is the number of further runs the limit allows. *)
Fixpoint runWith {D} (retries : nat) (processor : Job D -> IO unit) (job : Job D)
    : IO JobState :=
  fun w =>
    match processor job w with
    | (w', Return _) => (w', Return Completed)
    | (w', Throw e) =>
        match retries with
        | O => (w', Return (Failed e))
        | S r =>
            runWith r processor
              {| data := data job; opts := opts job;
                 attemptsMade := attemptsMade job + 1 |} w'
        end
    end.

(** A queued job taken by a worker for the first time. *)
Definition runJob {D} (processor : Job D -> IO unit) (q : QueuedJob D) : IO JobState :=
  runWith (Z.to_nat (attemptsOf (qj_opts q)) - 1) processor
    {| data := qj_data q; opts := qj_opts q; attemptsMade := 0 |}.

End Bull.

(** ** Replies of the REST API *)

(** The body of a reply, by shape. *)
Inductive ReplyBody : Type :=
  | ErrorBody (code message : string)                 (* { success: false, error: { code, message } } *)
  | ValidationBody (message : string) (details : list (string * string))
  | SendBody (response : EmailService.ApiResponse)    (* the response of the send service *)
  | MessageBody (message : string).                   (* { success: true, data: { message } } *)

(** [reply.status(status).send(body)] *)
Record Reply := { reply_status : Z; reply_body : ReplyBody }.

(** ** Authentication middleware (apps/api middleware: auth) *)

Module Auth.

(** [s.split(sep)] for a one-character separator. *)
Fixpoint splitFrom (sep : ascii) (piece : string) (s : string) : list string :=
  match s with
  | EmptyString => [piece]
  | String c r =>
      if decide (c = sep) then piece :: splitFrom sep "" r
      else splitFrom sep (piece +:+ String c "") r
  end.

Definition split (sep : ascii) (s : string) : list string := splitFrom sep "" s.

(** A key as [findMany] returns it, with its [projectId] column and the
    project that [include: { project: true }] attaches. *)
Record ApiKeyWithProject := {
  ak_key : ApiKey;
  ak_projectId : string;
  ak_project : Project }.

(** [prisma.apiKey.findMany({ where: { revokedAt: null }, include: { project: true } })] *)
Definition unrevokedKeys (w : World) : list ApiKeyWithProject :=
  concat
    (map (fun row : string * Project =>
            map (fun k => {| ak_key := k; ak_projectId := row.1; ak_project := row.2 |})
                (filter (fun k => key_revokedAt k = None) (prj_apiKeys row.2)))
         (map_to_list (projects w))).

(** The loop over the keys: the first key whose hash matches the token;
    [compare] is [bcrypt.compare]. *)
Fixpoint findMatch (compare : string -> string -> bool) (token : string)
    (apiKeys : list ApiKeyWithProject) : option ApiKeyWithProject :=
  match apiKeys with
  | [] => None
  | key :: rest =>
      if compare token (key_keyHash (ak_key key)) then Some key
      else findMatch compare token rest
  end.

Definition unauthorized (message : string) : Reply :=
  {| reply_status := 401; reply_body := ErrorBody "UNAUTHORIZED" message |}.

Definition forbidden (message : string) : Reply :=
  {| reply_status := 403; reply_body := ErrorBody "FORBIDDEN" message |}.

(** [authenticateApiKey(request, reply)]: the reply it sends, or the key it
    stores in [request.apiKey].  [authorization] is the header of the
    request. *)
Definition authenticateApiKey (compare : string -> string -> bool) (now : Z)
    (authorization : option string) : IO (Reply + ApiKeyWithProject) :=
  match truthy authorization with
  | None => mret (inl (unauthorized "Missing authorization header"))
  | Some authHeader =>
      let pieces := split " " authHeader in
      let scheme := pieces !! 0%nat in
      let token := pieces !! 1%nat in
      match (if decide (scheme = Some "Bearer") then truthy token else None) with
      | None => mret (inl (unauthorized "Invalid authorization format. Use Bearer <token>"))
      | Some token =>
          apiKeys ← gets unrevokedKeys;
          match findMatch compare token apiKeys with
          | None => mret (inl (unauthorized "Invalid API key"))
          | Some matchedKey =>
              if decide (prj_status (ak_project matchedKey) = PS_ACTIVE) then
                modify (set_projects (fun t =>
                  <[ ak_projectId matchedKey :=
                       SmtpRelayServer.touchProjectKey (key_id (ak_key matchedKey)) now
                         (ak_project matchedKey) ]> t));;
                mret (inr matchedKey)
              else mret (inl (forbidden "Project is not active"))
          end
      end
  end.

(** [requireScope(...scopes)] as a hook: the reply it sends, if any. *)
Definition requireScope (scopes : list string) (apiKey : option ApiKeyWithProject)
    : option Reply :=
  match apiKey with
  | None => Some (unauthorized "Authentication required")
  | Some key =>
      let hasScope :=
        existsb (fun scope => bool_decide (scope ∈ key_scopes (ak_key key))) scopes in
      if hasScope then None
      else Some (forbidden ("Missing required scope. Required one of: "
                            +:+ EmailService.joinComma scopes))
  end.

End Auth.

(** ** Email routes (apps/api routes: email) *)

Module EmailRoutes.

(** The body of [POST /v1/send] once [sendEmailWithOptionsSchema] has
    accepted it. *)
Record SendEmailWithOptions := {
  swo_data : EmailService.SendEmailRequest;
  swo_idempotencyKey : option string;
  swo_tags : option (list string);
  swo_priority : option EmailService.Priority }.

(** The handler of [POST /v1/send].  [parsed] is the result of
    [safeParse]: the issues, each with its path and message, or the data. *)
Definition sendHandler (cfg : ApiConfig) (now : Z) (newId : string)
    (apiKey : Auth.ApiKeyWithProject)
    (parsed : list (string * string) + SendEmailWithOptions) : IO Reply :=
  match parsed with
  | inl issues =>
      mret {| reply_status := 400; reply_body := ValidationBody "Invalid email data" issues |}
  | inr body =>
      response ← EmailService.sendEmail cfg now newId
                   (Auth.ak_projectId apiKey) (key_id (Auth.ak_key apiKey))
                   (swo_data body)
                   {| EmailService.idempotencyKey := swo_idempotencyKey body;
                      EmailService.tags := swo_tags body;
                      EmailService.priority := swo_priority body |};
      match response with
      | EmailService.ApiError code _ =>
          let statusCode :=
            if decide (code = "RATE_LIMIT_EXCEEDED") then 429
            else if decide (code = "RECIPIENT_SUPPRESSED") then 400
            else if decide (code = "TEMPLATE_NOT_FOUND") then 404
            else 400 in
          mret {| reply_status := statusCode; reply_body := SendBody response |}
      | EmailService.ApiSuccess _ =>
          mret {| reply_status := 202; reply_body := SendBody response |}
      end
  end.

(** [POST /v1/send] as the server runs it.  What fastify and the plugins
    of the server do before the hooks of the route are not part of the
    repository: the rate-limit plugin, which the server registers in front
    of every route with the [Authorization] header or the address of the
    client as its key, and the parsing of the body.  [early] is the reply
    that ends the request there, if there is one.  Then come the
    [preHandler] hooks in the order of the route, where a hook that replies
    ends the request, and the handler. *)
Definition postSend (early : option Reply) (compare : string -> string -> bool)
    (cfg : ApiConfig) (now : Z) (newId : string) (authorization : option string)
    (parsed : list (string * string) + SendEmailWithOptions) : IO Reply :=
  match early with
  | Some reply => mret reply
  | None =>
      authenticated ← Auth.authenticateApiKey compare now authorization;
      match authenticated with
      | inl reply => mret reply
      | inr apiKey =>
          match Auth.requireScope ["send:email"] (Some apiKey) with
          | Some reply => mret reply
          | None => sendHandler cfg now newId apiKey parsed
          end
      end
  end.

End EmailRoutes.

(** ** Webhook routes (apps/api routes: webhooks) *)

Module WebhookRoutes.

(** The data of the test event; the ISO text of the clock is kept as the
    instant. *)
Definition testData (now : Z) : list (string * Json) :=
  [ ("messageId", JStr "test-message-id");
    ("to", JStr "test@example.com");
    ("from", JStr "test@example.com");
    ("subject", JStr "Test Webhook");
    ("status", JStr "sent");
    ("timestamp", JNum now);
    ("test", JBool true) ].

(** The handler of [POST /v1/webhooks/:id/test]. *)
Definition testHandler (now : Z) (apiKey : Auth.ApiKeyWithProject) (id : string) : IO Reply :=
  webhook ← gets (fun w =>
    match webhooks w !! id with
    | Some wh => if decide (wh_projectId wh = Auth.ak_projectId apiKey) then Some wh else None
    | None => None
    end);
  match webhook with
  | None =>
      mret {| reply_status := 404; reply_body := ErrorBody "NOT_FOUND" "Webhook not found" |}
  | Some _ =>
      WebhookService.trigger now (Auth.ak_projectId apiKey) message_sent (testData now);;
      mret {| reply_status := 200;
              reply_body := MessageBody "Test webhook queued for delivery" |}
  end.

End WebhookRoutes.

(** ** Template routes (apps/api routes: templates) *)

Module TemplateRoutes.

(** The [variables] that [POST /v1/templates] stores: those of the request
    when it names any, an empty array included, and otherwise the variables
    found in the html, the text and the subject. *)
Definition createVariables (html text : option string) (subject : string)
    (variables : option (list string)) : list string :=
  let htmlVars :=
    match truthy html with Some h => Utils.extractTemplateVariables h | None => [] end in
  let textVars :=
    match truthy text with Some t => Utils.extractTemplateVariables t | None => [] end in
  let subjectVars := Utils.extractTemplateVariables subject in
  match variables with
  | Some given => given
  | None => Utils.dedupe (htmlVars ++ textVars ++ subjectVars)
  end.

End TemplateRoutes.

(** ** Fixtures: a small deployment used by the closed examples *)

Module Fixtures.

Definition message1 : Message :=
  {| msg_projectId := "p1"; msg_externalId := None;
     msg_toEmail := "ann@example.com"; msg_toName := None;
     msg_fromEmail := "noreply@example.com"; msg_fromName := None;
     msg_replyTo := None; msg_subject := "S";
     msg_htmlBody := None; msg_textBody := Some "T";
     msg_templateId := None; msg_templateData := None;
     msg_status := MS_QUEUED; msg_error := None; msg_tags := [];
     msg_idempotencyKey := None; msg_sentAt := None; msg_deliveredAt := None |}.

Definition webhook1 : Webhook :=
  {| wh_projectId := "p1"; wh_url := "https://hooks.example.com/in";
     wh_secret := "whsec_0123456789abcdef";
     wh_eventTypes := [message_sent; message_delivered; message_failed];
     wh_active := true; wh_successCount := 0; wh_failCount := 0;
     wh_lastTriggeredAt := None |}.

(** Project p1 with one message, one active subscription and one
    suppressed address. *)
Definition world1 : World :=
  {| messages := {[ "m1" := message1 ]};
     events := [];
     suppressions :=
       {[ ("p1", "blocked@example.com") :=
            {| sup_reason := SR_BOUNCE; sup_source := "bounce"; sup_metadata := None |} ]};
     templates := ∅;
     idempotencyKeys := ∅;
     projects := ∅;
     webhooks := {[ "wh1" := webhook1 ]};
     webhookDeliveries := [];
     rateLimits := ∅;
     sendEmailQueue := [];
     webhookQueue := [] |}.

Definition sendJob1 : SendEmailJob :=
  {| job_messageId := "m1"; job_projectId := "p1";
     job_to := [ {| email := "ann@example.com"; name := None |} ];
     job_from := {| email := "noreply@example.com"; name := None |};
     job_replyTo := None; job_subject := "S";
     job_htmlBody := None; job_textBody := Some "T";
     job_attachments := None; job_headers := None |}.

Definition acceptingTransport : EmailProcessor.Transport :=
  fun _ => Return {| EmailProcessor.info_messageId := "<1@mx>";
                     EmailProcessor.info_response := "250 OK" |}.

Definition failingTransport (text : string) : EmailProcessor.Transport :=
  fun _ => Throw (JsError text).

Definition payload1 : WebhookPayload :=
  {| wp_event := message_delivered; wp_timestamp := 1000;
     wp_data := [("messageId", JStr "m1")] |}.

Definition webhookJob1 : Job WebhookJob :=
  {| data := {| wj_webhookId := "wh1"; wj_eventType := message_delivered;
                wj_payload := payload1 |};
     opts := WebhookService.triggerJobOptions;
     attemptsMade := 0 |}.

(** An endpoint that answers every request with [result]; the serialiser
    and the digest are stand-ins, the examples do not depend on them. *)
Definition endpoint (result : FetchResult) : WebhookEnv :=
  {| JSON_stringify := fun _ => "{}";
     hmacSha256Hex := fun _ _ => "00";
     fetch := fun _ => result |}.

Definition request1 : EmailService.SendEmailRequest :=
  {| EmailService.req_to := EmailService.ToOne (EmailService.AddrString "ann@example.com");
     EmailService.req_from := EmailService.AddrString "noreply@example.com";
     EmailService.req_replyTo := None;
     EmailService.req_subject := "S";
     EmailService.req_text := Some "T";
     EmailService.req_html := None;
     EmailService.req_templateId := None;
     EmailService.req_variables := None;
     EmailService.req_attachments := None;
     EmailService.req_headers := None |}.

Definition plainOptions : EmailService.SendEmailOptions :=
  {| EmailService.idempotencyKey := None; EmailService.tags := None;
     EmailService.priority := None |}.

Definition keyedOptions (key : string) : EmailService.SendEmailOptions :=
  {| EmailService.idempotencyKey := Some key; EmailService.tags := None;
     EmailService.priority := None |}.

(** A limiter that admits one request per minute. *)
Definition strictConfig : ApiConfig :=
  {| rateLimit_windowMs := 60000; rateLimit_maxRequests := 1 |}.

Definition bounceRow : Suppression :=
  {| sup_reason := SR_BOUNCE; sup_source := "bounce"; sup_metadata := None |}.

(** Project p1 suppresses ann@example.com. *)
Definition suppressAnn (w : World) : World :=
  set_suppressions (insert ("p1", "ann@example.com") bounceRow) w.

(** Key k1 is held by project p2. *)
Definition worldKeyOfP2 : World :=
  set_idempotencyKeys
    (insert "k1" {| idem_scope := "send:p2";
                    idem_response := {| resp_messageId := "m-p2"; resp_status := MS_QUEUED |};
                    idem_expiresAt := 90000000 |})
    emptyWorld.


Definition parsedMail1 : SmtpRelayServer.ParsedMail :=
  {| SmtpRelayServer.pm_fromAddress := Some "noreply@example.com";
     SmtpRelayServer.pm_fromName := None;
     SmtpRelayServer.pm_replyTo := None;
     SmtpRelayServer.pm_subject := Some "S";
     SmtpRelayServer.pm_html := None;
     SmtpRelayServer.pm_text := Some "T";
     SmtpRelayServer.pm_attachments := None |}.

(** A stand-in for [bcrypt.compare]: the stored hash of [pw] is the text
    "hash:" followed by [pw]. *)
Definition compareStandIn (pw hash : string) : bool := String.eqb hash ("hash:" +:+ pw).

Definition sendKey : ApiKey :=
  {| key_id := "key-send"; key_keyHash := "hash:tm_live_send";
     key_scopes := ["send:email"; "logs:read"];
     key_revokedAt := None; key_lastUsedAt := None |}.

Definition readOnlyKey : ApiKey :=
  {| key_id := "key-read"; key_keyHash := "hash:tm_live_read";
     key_scopes := ["logs:read"];
     key_revokedAt := None; key_lastUsedAt := None |}.

(** Project p1 is active and owns a sending key and a read-only key. *)
Definition worldWithProject : World :=
  set_projects
    (insert "p1" {| prj_status := PS_ACTIVE; prj_apiKeys := [sendKey; readOnlyKey] |})
    emptyWorld.

Definition credentials (user pass : string) : SmtpRelayServer.AuthInput :=
  {| SmtpRelayServer.username := Some user; SmtpRelayServer.password := Some pass |}.

(** An authenticated SMTP session of p1 addressed to ann@example.com. *)
Definition smtpSessionAnn : SmtpRelayServer.Session :=
  {| SmtpRelayServer.ses_projectId := Some "p1";
     SmtpRelayServer.ses_envelopeFrom := Some "noreply@example.com";
     SmtpRelayServer.ses_envelopeTo := Some ["ann@example.com"] |}.

End Fixtures.

(** ** Vocabulary of the statements *)

(** Readers of the world. *)
Definition statusOf (w : World) (id : string) : option MessageStatus :=
  msg_status <$> messages w !! id.

Definition failCountOf (w : World) (id : string) : option Z :=
  wh_failCount <$> webhooks w !! id.

Definition successCountOf (w : World) (id : string) : option Z :=
  wh_successCount <$> webhooks w !! id.

(** The jobs of a queue that address subscription [id]. *)
Definition jobsOf (id : string) (q : list (QueuedJob WebhookJob)) : list (QueuedJob WebhookJob) :=
  filter (fun j => wj_webhookId (qj_data j) = id) q.

(** The delivery row written after an HTTP response, and the one written
    by the [catch] clause. *)
Definition responseRow (job : Job WebhookJob) (status : Z) (body : option string)
    : WebhookDelivery :=
  {| wd_webhookId := wj_webhookId (data job); wd_eventType := wj_eventType (data job);
     wd_payload := wj_payload (data job);
     wd_responseStatus := Some status; wd_responseBody := body; wd_error := None |}.

Definition errorRow (job : Job WebhookJob) (text : string) : WebhookDelivery :=
  {| wd_webhookId := wj_webhookId (data job); wd_eventType := wj_eventType (data job);
     wd_payload := wj_payload (data job);
     wd_responseStatus := None; wd_responseBody := None; wd_error := Some text |}.

(** The request the worker sends for a job. *)
Definition requestOf (env : WebhookEnv) (now : Z) (job : Job WebhookJob) (wh : Webhook)
    : HttpRequest :=
  webhookRequest env now (wj_webhookId (data job)) wh
    (wj_eventType (data job)) (wj_payload (data job)).

(** The jobs [trigger] adds to the webhook queue. *)
Definition triggeredJobs (now : Z) (projectId : string) (eventType : WebhookEventType)
    (data : list (string * Json)) (w : World) : list (QueuedJob WebhookJob) :=
  map (fun row =>
         queueAdd QueuePlugin.webhook_defaultJobOptions
           ("webhook:" +:+ row.1 +:+ ":" +:+ pretty now)
           (WebhookService.jobFor eventType
              {| wp_event := eventType; wp_timestamp := now; wp_data := data |} row)
           WebhookService.triggerJobOptions)
      (WebhookService.findSubscribed projectId eventType (webhooks w)).

(** The events the worker appends on a transport failure. *)
Definition retryScheduledEvent (job : Job SendEmailJob) (text : string) (next : Z) : Event :=
  {| ev_messageId := job_messageId (data job); ev_type := ET_RETRY_SCHEDULED;
     ev_payload := EP_RetryScheduled (attemptsMade job + 1) text next |}.

Definition failedEvent (job : Job SendEmailJob) (text : string) : Event :=
  {| ev_messageId := job_messageId (data job); ev_type := ET_FAILED;
     ev_payload := EP_Failed text (attemptsMade job + 1) |}.

(** *** Send service *)

Section SendVocabulary.
Import EmailService.

(** Whether the rate limiter admits a request of the project at [now]. *)
Definition rateLimitAllows (cfg : ApiConfig) (projectId : string) (now : Z) (w : World) : bool :=
  match RateLimiter.checkLimit cfg (RateLimiter.getProjectKey projectId) now w with
  | (_, Return info) => RateLimiter.allowed info
  | (_, Throw _) => false
  end.

(** The world the rate limiter leaves behind. *)
Definition afterRateLimit (cfg : ApiConfig) (projectId : string) (now : Z) (w : World) : World :=
  (RateLimiter.checkLimit cfg (RateLimiter.getProjectKey projectId) now w).1.

(** The world after the message row, the QUEUED event and the job are written. *)
Definition acceptedWorld (newId : string) (m : Message) (ev : Event)
    (j : QueuedJob SendEmailJob) (w : World) : World :=
  set_sendEmailQueue (fun q => q ++ [j])
    (set_events (fun l => l ++ [ev]) (set_messages (insert newId m) w)).

Definition queuedEvent (newId apiKeyId : string) (now : Z) : Event :=
  {| ev_messageId := newId; ev_type := ET_QUEUED; ev_payload := EP_QueuedApi apiKeyId now |}.

Definition queuedResponse (newId : string) : SendResponse :=
  {| resp_messageId := newId; resp_status := MS_QUEUED |}.

Definition storedKey (p : string) (newId : string) (now : Z) : IdempotencyKey :=
  {| idem_scope := scopeOf p; idem_response := queuedResponse newId;
     idem_expiresAt := now + IdempotencyService.IDEMPOTENCY_TTL_MS |}.

(** The last step of [sendEmail]: the idempotency store on [wAcc]. *)
Definition storeStep (options : SendEmailOptions) (p newId : string) (now : Z) (wAcc : World)
  : World * Outcome ApiResponse :=
  match truthy (idempotencyKey options) with
  | Some k =>
      match idempotencyKeys wAcc !! k with
      | Some _ => (wAcc, Throw (P2002_unique "key"))
      | None => (set_idempotencyKeys (insert k (storedKey p newId now)) wAcc,
                 Return (ApiSuccess (queuedResponse newId)))
      end
  | None => (wAcc, Return (ApiSuccess (queuedResponse newId)))
  end.


(** One call of [sendEmail], and calls made one after the other. *)
Record SendCall := {
  call_now : Z;
  call_newId : string;
  call_apiKeyId : string;
  call_data : SendEmailRequest;
  call_options : SendEmailOptions }.

Definition runCall (cfg : ApiConfig) (p : string) (c : SendCall) : IO ApiResponse :=
  sendEmail cfg (call_now c) (call_newId c) p (call_apiKeyId c) (call_data c) (call_options c).

Fixpoint runCalls (cfg : ApiConfig) (p : string) (calls : list SendCall) (w : World)
    : World * list (Outcome ApiResponse) :=
  match calls with
  | [] => (w, [])
  | c :: rest =>
      let '(w1, out) := runCall cfg p c w in
      let '(w2, outs) := runCalls cfg p rest w1 in
      (w2, out :: outs)
  end.

(** The rate limiter admits each call when its turn comes. *)
Fixpoint admittedAll (cfg : ApiConfig) (p : string) (calls : list SendCall) (w : World) : bool :=
  match calls with
  | [] => true
  | c :: rest =>
      rateLimitAllows cfg p (call_now c) w && admittedAll cfg p rest (runCall cfg p c w).1
  end.

End SendVocabulary.

(** *** Webhook signatures *)

(** Every character of [s] satisfies [P]. *)
Fixpoint allChars (P : ascii -> bool) (s : string) : bool :=
  match s with
  | EmptyString => true
  | String c r => P c && allChars P r
  end.

(** A decimal digit or the minus sign. *)
Definition isStampChar (c : ascii) : bool := Utils.inRange 48 57 c || Utils.inRange 45 45 c.

(** A non-empty string of lower-case hexadecimal digits, as [digest('hex')]
    returns. *)
Definition isHexDigest (s : string) : Prop := s <> "" /\ allChars Utils.isLowerHex s = true.

(** *** Shared utilities *)

(** The characters [sanitizeHtml] replaces, and those among them that
    delimit markup. *)
Definition isHtmlSpecial (c : ascii) : bool :=
  bool_decide (c ∈ ["&"%char; "<"%char; ">"%char; Utils.dquote; Utils.squote]).

Definition isHtmlDelimiter (c : ascii) : bool :=
  bool_decide (c ∈ ["<"%char; ">"%char; Utils.dquote; Utils.squote]).

(** The entity that stands for a character in the output of
    [sanitizeHtml]. *)
Definition htmlEntity (c : ascii) : string :=
  if decide (c = "&"%char) then "&amp;"
  else if decide (c = "<"%char) then "&lt;"
  else if decide (c = ">"%char) then "&gt;"
  else if decide (c = Utils.dquote) then "&quot;"
  else if decide (c = Utils.squote) then "&#x27;"
  else String c "".

(** A placeholder key: a non-empty string of word characters. *)
Definition isTemplateKey (k : string) : Prop :=
  k <> "" /\ allChars Utils.isWordChar k = true.

(** The placeholder for key [k]. *)
Definition placeholder (k : string) : string := "{{" +:+ k +:+ "}}".

(** *** Regular expressions *)

(** The strings a regular expression matches. *)
Inductive reMatches : Utils.Regex -> string -> Prop :=
  | reMatches_eps : reMatches Utils.ReEps ""
  | reMatches_class p c : p c = true -> reMatches (Utils.ReClass p) (String c "")
  | reMatches_seq r1 r2 s1 s2 :
      reMatches r1 s1 -> reMatches r2 s2 -> reMatches (Utils.ReSeq r1 r2) (s1 +:+ s2)
  | reMatches_alt_l r1 r2 s : reMatches r1 s -> reMatches (Utils.ReAlt r1 r2) s
  | reMatches_alt_r r1 r2 s : reMatches r2 s -> reMatches (Utils.ReAlt r1 r2) s
  | reMatches_star_nil r : reMatches (Utils.ReStar r) ""
  | reMatches_star_cons r s1 s2 :
      reMatches r s1 -> reMatches (Utils.ReStar r) s2 -> reMatches (Utils.ReStar r) (s1 +:+ s2).

(** A part of an address: not empty, without white space and without @. *)
Definition isAddressPart (x : string) : Prop :=
  x <> "" /\ allChars Utils.notSpaceOrAt x = true.

(** *** Rate limiter *)

(** The verdicts of [checkLimit] on one key at the instants [times], one
    call after the other. *)
Fixpoint verdicts (cfg : ApiConfig) (key : string) (times : list Z) (w : World) : list bool :=
  match times with
  | [] => []
  | t :: rest =>
      match RateLimiter.checkLimit cfg key t w with
      | (w', Return info) => RateLimiter.allowed info :: verdicts cfg key rest w'
      | (_, Throw _) => []
      end
  end.

(** A sliding window over all earlier requests: the request at [t] is
    admitted when fewer than [maxRequests] of the requests made before it
    came after [t - windowMs]. *)
Fixpoint slidingWindow (windowMs maxRequests : Z) (earlier times : list Z) : list bool :=
  match times with
  | [] => []
  | t :: rest =>
      (Z.of_nat (length (filter (fun s => t - windowMs < s) earlier)) <? maxRequests)
      :: slidingWindow windowMs maxRequests (earlier ++ [t]) rest
  end.

(** The instants [times] do not go back, and none lies before [lo]. *)
Fixpoint ascendingFrom (lo : Z) (times : list Z) : Prop :=
  match times with
  | [] => True
  | t :: rest => lo <= t /\ ascendingFrom t rest
  end.

(** *** Templates of a project *)

(** The world with the template table replaced. *)
Definition withTemplates (t : gmap string Template) (w : World) : World :=
  {| messages := messages w; events := events w; suppressions := suppressions w;
     templates := t; idempotencyKeys := idempotencyKeys w;
     projects := projects w; webhooks := webhooks w;
     webhookDeliveries := webhookDeliveries w; rateLimits := rateLimits w;
     sendEmailQueue := sendEmailQueue w; webhookQueue := webhookQueue w |}.

(** The templates that belong to project [p]. *)
Definition ownTemplates (p : string) (t : gmap string Template) : gmap string Template :=
  filter (fun row : string * Template => tpl_projectId row.2 = p) t.

(** *** Email delivery worker *)

(** The events the worker appends after a successful dispatch. *)
Definition sentEvent (job : Job SendEmailJob) (info : EmailProcessor.SentInfo) : Event :=
  {| ev_messageId := job_messageId (data job); ev_type := ET_SENT;
     ev_payload := EP_Sent (EmailProcessor.info_messageId info)
                           (EmailProcessor.info_response info) |}.

Definition deliveredEvent (job : Job SendEmailJob) : Event :=
  {| ev_messageId := job_messageId (data job); ev_type := ET_DELIVERED;
     ev_payload := EP_Delivered true |}.

(** No message other than [id] holds the external id [externalId]. *)
Definition externalIdFree (id externalId : string) (w : World) : Prop :=
  forall id' m', messages w !! id' = Some m' -> id' <> id ->
                 msg_externalId m' <> Some externalId.

(** *** Webhook signatures in the closed examples *)

(** A stand-in for the keyed digest: one hex digit for the length of the
    secret and one for the length of the payload. *)
Definition hexDigitOf (n : nat) : ascii :=
  nth (n mod 16) (list_ascii_of_string "0123456789abcdef") "0"%char.

Definition digestStandIn (secret payload : string) : string :=
  String (hexDigitOf (String.length secret))
    (String (hexDigitOf (String.length payload)) "").

(** *** The group a signature header is read from *)

(** A group [v1=] with at least one hex digit starts at the head of [s]. *)
Definition startsV1Group (s : string) : Prop :=
  exists c r, s = "v1=" +:+ String c r /\ Utils.isLowerHex c = true.

(** No group starts inside [before], which [rest] follows. *)
Definition noGroupStartsIn (before rest : string) : Prop :=
  forall p q, before = p +:+ q -> q <> "" -> ~ startsV1Group (q +:+ rest).

(** The hex digits of a group end where [after] begins. *)
Definition endsGroup (after : string) : Prop :=
  after = "" \/ exists c r, after = String c r /\ Utils.isLowerHex c = false.

(** *** Authentication *)

(** Project [pid] is active and holds the unrevoked key [key], whose hash
    matches [token]. *)
Definition holdsActiveKey (compare : string -> string -> bool) (w : World)
    (token pid : string) (key : ApiKey) : Prop :=
  exists prj,
    projects w !! pid = Some prj /\ prj_status prj = PS_ACTIVE /\
    key ∈ prj_apiKeys prj /\ key_revokedAt key = None /\
    compare token (key_keyHash key) = true.

(** *** SMTP sessions *)

(** What a client makes the relay do on one session: the handler the
    server calls, with its argument. *)
Inductive SmtpCommand : Type :=
  | SmtpAuth (now : Z) (auth : SmtpRelayServer.AuthInput)
  | SmtpMailFrom (address : string)
  | SmtpRcptTo (address : string)
  | SmtpData (parsed : Outcome SmtpRelayServer.ParsedMail) (newId : string).

(** One handler call: the session afterwards and the error the callback
    receives, if any. *)
Definition smtpStep (compare : string -> string -> bool) (c : SmtpCommand)
    (session : SmtpRelayServer.Session) : IO (SmtpRelayServer.Session * option string) :=
  match c with
  | SmtpAuth now auth =>
      r ← SmtpRelayServer.handleAuth compare now auth session;
      mret (r.1, match r.2 with
                 | SmtpRelayServer.AuthError message => Some message
                 | SmtpRelayServer.AuthOk _ => None
                 end)
  | SmtpMailFrom address => mret (SmtpRelayServer.handleMailFrom address session)
  | SmtpRcptTo address => mret (SmtpRelayServer.handleRcptTo address session)
  | SmtpData parsed newId =>
      err ← SmtpRelayServer.handleData parsed newId session;
      mret (session, err)
  end.

(** The handler calls of a session, one after the other on the same
    session object: the final session and the errors of the callbacks. *)
Fixpoint runSession (compare : string -> string -> bool) (cmds : list SmtpCommand)
    (session : SmtpRelayServer.Session)
    : IO (SmtpRelayServer.Session * list (option string)) :=
  match cmds with
  | [] => mret (session, [])
  | c :: rest =>
      step ← smtpStep compare c session;
      tail ← runSession compare rest step.1;
      mret (tail.1, step.2 :: tail.2)
  end.

(** The addresses of the RCPT TO commands, in order. *)
Fixpoint rcptsOf (cmds : list SmtpCommand) : list string :=
  match cmds with
  | [] => []
  | SmtpRcptTo address :: rest => address :: rcptsOf rest
  | _ :: rest => rcptsOf rest
  end.

(** * Properties *)

#[local] Arguments EmailProcessor.nextRetryAt : simpl never.
#[local] Arguments EmailProcessor.isHardBounceError : simpl never.
#[local] Arguments EmailProcessor.buildMailOptions : simpl never.
#[local] Arguments EmailProcessor.maxAttemptsFor : simpl never.
#[local] Arguments webhookRequest : simpl never.
#[local] Arguments pretty : simpl never.

Ltac io_unfold :=
  unfold mbind, mret, IO_bind, IO_ret, gets, modify, throw, tryCatch,
         createWebhookDelivery, updateWebhook in *.

(** ** Regression checks against the repository's unit tests of the utilities *)

Example renderTemplate_replaces :
  Utils.renderTemplate "Hello {{name}}!" {[ "name" := "World" ]} = "Hello World!".
Proof. vm_compute. reflexivity. Qed.

Example renderTemplate_keeps_missing :
  Utils.renderTemplate "Hello {{name}}! {{missing}}" {[ "name" := "World" ]}
  = "Hello World! {{missing}}".
Proof. vm_compute. reflexivity. Qed.

Example formatEmailAddress_with_name :
  Utils.formatEmailAddress "test@example.com" (Some "Test User")
  = String Utils.dquote ("Test User" +:+ String Utils.dquote " <test@example.com>").
Proof. reflexivity. Qed.

Example isHardBounceError_case_insensitive :
  EmailProcessor.isHardBounceError "550 5.1.1 User Unknown" = true.
Proof. vm_compute. reflexivity. Qed.

(** ** Back-off *)

Section Backoff.
Import Utils.

(** Powers of two are at least one. *)
Lemma pow2_ge_1 (a : nat) : (1 <= inject_Z (2 ^ Z.of_nat a))%Q.
Proof.
  change 1%Q with (inject_Z 1). rewrite <- Zle_Qle.
  assert (0 < 2 ^ Z.of_nat a)%Z by (apply Z.pow_pos_nonneg; lia). lia.
Qed.

(** The next power of two is the double. *)
Lemma pow2_double (a : nat) :
  (inject_Z (2 ^ Z.of_nat (S a)) == 2 * inject_Z (2 ^ Z.of_nat a))%Q.
Proof.
  rewrite Nat2Z.inj_succ, Z.pow_succ_r by lia.
  rewrite inject_Z_mult. reflexivity.
Qed.

(** No delay exceeds the cap. *)
Lemma calculateBackoff_le_max a b m r : (calculateBackoff a b m r <= m)%Q.
Proof. unfold calculateBackoff. apply Q.le_min_r. Qed.

(** One more attempt never shortens the delay once the base delay is at
    least the width of the jitter. *)
Lemma calculateBackoff_next (a : nat) (b m r1 r2 : Q) :
  (1000 <= b)%Q -> (0 <= r1)%Q -> (r1 < 1)%Q -> (0 <= r2)%Q -> (r2 < 1)%Q ->
  (calculateBackoff a b m r1 <= calculateBackoff (S a) b m r2)%Q.
Proof.
  intros Hb H1 H1' H2 H2'. unfold calculateBackoff.
  apply Q.min_le_compat_r.
  rewrite pow2_double.
  pose proof (pow2_ge_1 a) as Hp.
  set (p := inject_Z (2 ^ Z.of_nat a)) in *.
  assert (1000 <= b * p)%Q by nra.
  nra.
Qed.

(** Rounding the sum does not change the picture, as long as the rounding
    is monotone. *)
Lemma calculateBackoff_rounded_next (fl : Q -> Q) (a : nat) (b m j1 j2 : Q) :
  (forall x y, (x <= y)%Q -> (fl x <= fl y)%Q) ->
  (1000 <= b)%Q -> (0 <= j1)%Q -> (j1 < 1000)%Q -> (0 <= j2)%Q -> (j2 < 1000)%Q ->
  (calculateBackoff_rounded fl a b m j1 <= calculateBackoff_rounded fl (S a) b m j2)%Q /\
  (calculateBackoff_rounded fl (S a) b m j2 <= m)%Q.
Proof.
  intros Hfl Hb H1 H1' H2 H2'. unfold calculateBackoff_rounded. split.
  - apply Q.min_le_compat_r. apply Hfl.
    rewrite pow2_double.
    pose proof (pow2_ge_1 a) as Hp.
    set (p := inject_Z (2 ^ Z.of_nat a)) in *.
    assert (1000 <= b * p)%Q by nra.
    nra.
  - apply Q.le_min_r.
Qed.

(** C8.  With the defaults (base 1000 ms, cap 60000 ms) the delay is
    [min(1000 * 2^attempt + jitter, 60000)] with the jitter in [0, 1000);
    whatever the two jitter values, attempt [a + 1] waits at least as long
    as attempt [a], and no delay exceeds the cap. *)
Theorem backoff_formula_monotone_capped (a : nat) (rnd1 rnd2 : Q) :
  (0 <= rnd1)%Q -> (rnd1 < 1)%Q -> (0 <= rnd2)%Q -> (rnd2 < 1)%Q ->
  let jitter1 := (rnd1 * 1000)%Q in
  (calculateBackoff_default a rnd1
     == Qmin (1000 * inject_Z (2 ^ Z.of_nat a) + jitter1) 60000)%Q /\
  (0 <= jitter1)%Q /\ (jitter1 < 1000)%Q /\
  (calculateBackoff_default a rnd1 <= calculateBackoff_default (S a) rnd2)%Q /\
  (calculateBackoff_default a rnd1 <= 60000)%Q /\
  (calculateBackoff_default (S a) rnd2 <= 60000)%Q.
Proof.
  intros H1 H1' H2 H2' jitter1. unfold calculateBackoff_default.
  split; [reflexivity |].
  split; [unfold jitter1; lra |].
  split; [unfold jitter1; lra |].
  split; [apply calculateBackoff_next; try assumption; unfold defaultBaseDelay; lra |].
  split; apply calculateBackoff_le_max.
Qed.

Lemma backoff_formula_monotone_capped_witness :
  (calculateBackoff_default 3 (1 # 2) <= calculateBackoff_default 4 (1 # 4))%Q /\
  (calculateBackoff_default 4 (1 # 4) <= 60000)%Q.
Proof.
  pose proof (backoff_formula_monotone_capped 3 (1 # 2) (1 # 4)) as H.
  cbv zeta in H.
  destruct H as (_ & _ & _ & Hstep & _ & Hcap); [lra | lra | lra | lra |].
  split; assumption.
Defined.

End Backoff.

(** ** Webhook delivery worker *)

Section WebhookDelivery.
Import WebhookProcessor.

Variables (env : WebhookEnv) (now : Z) (job : Job WebhookJob) (w : World) (wh : Webhook).

Hypothesis Hfound : webhooks w !! wj_webhookId (data job) = Some wh.
Hypothesis Hactive : wh_active wh = true.

(** A 2xx response: one row with the response, success counter + 1. *)
Lemma process_2xx status body :
  fetch env (requestOf env now job wh) = Responded status body ->
  responseOk status = true ->
  exists w',
    process env now job w = (w', Return tt) /\
    webhookDeliveries w' = webhookDeliveries w ++ [responseRow job status body] /\
    webhooks w' !! wj_webhookId (data job) = Some (countSuccess now wh).
Proof.
  unfold requestOf. intros Hf Hok. unfold process. io_unfold.
  rewrite Hfound, Hactive. cbn [negb].
  rewrite Hf, Hok. cbn. rewrite Hfound. cbn.
  eexists. split; [reflexivity |]. cbn. split; [reflexivity |].
  apply lookup_insert_eq.
Qed.

(** A rejected request: one row with the error text, fail counter + 1. *)
Lemma process_rejected e :
  fetch env (requestOf env now job wh) = Rejected e ->
  exists w',
    process env now job w = (w', Throw e) /\
    webhookDeliveries w' = webhookDeliveries w ++ [errorRow job (errorMessageOf e)] /\
    webhooks w' !! wj_webhookId (data job) = Some (countFail now wh).
Proof.
  unfold requestOf. intros Hf. unfold process. io_unfold.
  rewrite Hfound, Hactive. cbn [negb].
  rewrite Hf. cbn. rewrite Hfound. cbn.
  eexists. split; [reflexivity |]. cbn. split; [reflexivity |].
  apply lookup_insert_eq.
Qed.

(** A response outside 2xx: the [throw] that reports it sits inside the
    [try], so the [catch] clause runs too: two rows, fail counter + 2. *)
Lemma process_non2xx status body :
  fetch env (requestOf env now job wh) = Responded status body ->
  responseOk status = false ->
  exists w',
    process env now job w = (w', Throw (JsError ("HTTP " +:+ pretty status))) /\
    webhookDeliveries w' = webhookDeliveries w ++
      [responseRow job status body; errorRow job ("HTTP " +:+ pretty status)] /\
    webhooks w' !! wj_webhookId (data job) = Some (countFail now (countFail now wh)).
Proof.
  unfold requestOf. intros Hf Hok. unfold process. io_unfold.
  rewrite Hfound, Hactive. cbn [negb].
  rewrite Hf, Hok. cbn. rewrite Hfound. cbn. rewrite lookup_insert_eq. cbn.
  eexists. split; [reflexivity |]. cbn. split.
  - rewrite <- app_assoc. reflexivity.
  - apply lookup_insert_eq.
Qed.

End WebhookDelivery.

(** The sibling path [WebhookService.deliver] handles the same response with
    one row and one increment. *)
Lemma deliver_non2xx env now id wh payload w status body :
  webhooks w !! id = Some wh ->
  fetch env (webhookRequest env now id wh (wp_event payload) payload) = Responded status body ->
  responseOk status = false ->
  exists w' r,
    WebhookService.deliver env now id wh payload w = (w', Return r) /\
    length (webhookDeliveries w') = S (length (webhookDeliveries w)) /\
    webhooks w' !! id = Some (countFail now wh).
Proof.
  intros Hw Hf Hok. unfold WebhookService.deliver. io_unfold.
  rewrite Hf, Hok. cbn. rewrite Hw. cbn.
  eexists _, _. split; [reflexivity |]. cbn. split.
  - rewrite length_app. cbn. lia.
  - apply lookup_insert_eq.
Qed.

(** C1.  The worker at an active subscription whose endpoint answers 500:
    the attempt leaves two delivery rows, the first with the response and no
    error, the second with no response and the error text, and the fail
    counter goes from 0 to 2. *)
Theorem webhook_500_recorded_twice :
  let '(w', outcome) :=
    WebhookProcessor.process (Fixtures.endpoint (Responded 500 (Some "down"))) 2000
      Fixtures.webhookJob1 Fixtures.world1 in
  outcome = Throw (JsError "HTTP 500") /\
  map (fun d => (wd_responseStatus d, wd_responseBody d, wd_error d)) (webhookDeliveries w')
    = [ (Some 500, Some "down", None); (None, None, Some "HTTP 500") ] /\
  failCountOf Fixtures.world1 "wh1" = Some 0 /\
  failCountOf w' "wh1" = Some 2.
Proof. vm_compute. repeat split; reflexivity. Qed.

(** ** Webhook fan-out *)

(** Enqueueing row by row appends one job per row, in order. *)
Lemma forEach_webhook_add (rows : list (string * Webhook))
    (nm : string * Webhook -> string) (mk : string * Webhook -> WebhookJob)
    (o : JobsOptions) (w : World) :
  forEach rows (fun row => QueuePlugin.webhook_add (nm row) (mk row) o) w =
  (set_webhookQueue
     (fun q => q ++ map (fun row => queueAdd QueuePlugin.webhook_defaultJobOptions
                                      (nm row) (mk row) o) rows) w,
   Return tt).
Proof.
  revert w. induction rows as [| row rows IH]; intros w.
  - cbn. unfold mret, IO_ret, set_webhookQueue. destruct w; cbn.
    rewrite app_nil_r. reflexivity.
  - cbn [forEach]. unfold mbind, IO_bind.
    unfold QueuePlugin.webhook_add at 1. unfold modify.
    rewrite IH. unfold set_webhookQueue. destruct w; cbn.
    rewrite <- app_assoc. reflexivity.
Qed.

(** [trigger] appends [triggeredJobs] to the webhook queue and returns. *)
Lemma trigger_appends now projectId eventType data w :
  WebhookService.trigger now projectId eventType data w =
  (set_webhookQueue (fun q => q ++ triggeredJobs now projectId eventType data w) w,
   Return tt).
Proof.
  unfold WebhookService.trigger, triggeredJobs. unfold mbind at 1, IO_bind, gets.
  destruct (WebhookService.findSubscribed projectId eventType (webhooks w)) as [| row rows] eqn:E.
  - unfold mret, IO_ret, set_webhookQueue. destruct w; cbn.
    rewrite app_nil_r. reflexivity.
  - rewrite forEach_webhook_add. reflexivity.
Qed.

(** In a list of rows with distinct keys, a key selects one row or none. *)
Lemma length_filter_fst_NoDup {A} (l : list (string * A)) (id : string) :
  NoDup (l.*1) ->
  length (filter (fun row : string * A => row.1 = id) l)
  = if decide (id ∈ l.*1) then 1%nat else 0%nat.
Proof.
  induction l as [| [k v] l IH]; intros Hnd.
  - cbn. rewrite decide_False; [done |]. apply not_elem_of_nil.
  - cbn in Hnd. apply NoDup_cons in Hnd as [Hk Hnd].
    rewrite filter_cons. cbn [fst]. cbn [fmap list_fmap fst].
    destruct (decide (k = id)) as [-> | Hne].
    + cbn [length]. rewrite IH by done. rewrite decide_False by done.
      rewrite decide_True; [done |]. apply elem_of_cons. by left.
    + rewrite IH by done.
      destruct (decide (id ∈ l.*1)) as [Hin | Hnin].
      * rewrite decide_True; [done |]. apply elem_of_cons. by right.
      * rewrite decide_False; [done |]. intros [-> | Hin]%elem_of_cons; done.
Qed.

(** The number of jobs [trigger] adds for subscription [id]. *)
Lemma triggeredJobs_per_subscription now projectId eventType data w id :
  length (jobsOf id (triggeredJobs now projectId eventType data w))
  = match webhooks w !! id with
    | Some wh =>
        if decide (WebhookService.subscribed projectId eventType (id, wh)) then 1%nat else 0%nat
    | None => 0%nat
    end.
Proof.
  unfold jobsOf, triggeredJobs, WebhookService.findSubscribed.
  set (rows := filter _ (map_to_list (webhooks w))).
  assert (Hnd : NoDup (rows.*1)).
  { eapply sublist_NoDup; [apply (NoDup_fst_map_to_list (webhooks w)) |].
    apply fmap_sublist. apply sublist_filter. }
  assert (Hlen : forall l : list (string * Webhook),
    length (filter (fun j : QueuedJob WebhookJob => wj_webhookId (qj_data j) = id)
              (map (fun row => queueAdd QueuePlugin.webhook_defaultJobOptions
                      ("webhook:" +:+ row.1 +:+ ":" +:+ pretty now)
                      (WebhookService.jobFor eventType
                         {| wp_event := eventType; wp_timestamp := now; wp_data := data |} row)
                      WebhookService.triggerJobOptions) l))
    = length (filter (fun row : string * Webhook => row.1 = id) l)).
  { induction l as [| row l IH]; [done |].
    cbn [map]. rewrite !filter_cons. cbn [qj_data queueAdd WebhookService.jobFor wj_webhookId].
    destruct (decide (row.1 = id)); cbn [length]; rewrite IH; done. }
  rewrite Hlen, length_filter_fst_NoDup by done.
  destruct (webhooks w !! id) as [wh |] eqn:Hw.
  - destruct (decide (WebhookService.subscribed projectId eventType (id, wh))) as [Hs | Hs].
    + rewrite decide_True; [done |].
      apply list_elem_of_fmap. exists (id, wh). split; [done |].
      apply list_elem_of_filter. split; [done |]. by apply elem_of_map_to_list.
    + rewrite decide_False; [done |].
      intros ([id' wh'] & Heq & Hin)%list_elem_of_fmap. cbn in Heq. subst id'.
      apply list_elem_of_filter in Hin as [Hsub Hin].
      apply elem_of_map_to_list in Hin. rewrite Hw in Hin. by simplify_eq.
  - rewrite decide_False; [done |].
    intros ([id' wh'] & Heq & Hin)%list_elem_of_fmap. cbn in Heq. subst id'.
    apply list_elem_of_filter in Hin as [_ Hin].
    apply elem_of_map_to_list in Hin. rewrite Hw in Hin. done.
Qed.

(** What every job added by [trigger] carries. *)
Lemma triggeredJobs_content now projectId eventType data w j :
  j ∈ triggeredJobs now projectId eventType data w ->
  wj_eventType (qj_data j) = eventType /\
  wj_payload (qj_data j) = {| wp_event := eventType; wp_timestamp := now; wp_data := data |} /\
  jo_attempts (qj_opts j) = Some 5 /\
  jo_backoff (qj_opts j) = Some {| bo_type := BT_exponential; bo_delay := 5000 |}.
Proof.
  unfold triggeredJobs. intros (row & -> & _)%list_elem_of_fmap. done.
Qed.

(** The email worker never touches the webhook queue. *)
Lemma email_process_keeps_webhookQueue cfg sendMail now rnd job w :
  webhookQueue (EmailProcessor.process cfg sendMail now rnd job w).1 = webhookQueue w.
Proof.
  unfold EmailProcessor.process, EmailProcessor.updateMessageStatus,
    EmailProcessor.recordEvent, EmailProcessor.addToSuppressionList.
  io_unfold.
  repeat (case_match; simplify_eq/=; try done).
Qed.

(** C2, as the code has it.  The email worker enqueues no webhook job,
    whatever state it moves the message to; the jobs come from
    [WebhookService.trigger], which adds exactly one job for each active
    subscription of the project that lists the event type and none for any
    other, each with the event type, the payload [{event, timestamp, data}],
    5 attempts and exponential back-off from 5000 ms. *)
Theorem webhook_jobs_come_from_trigger :
  (forall cfg sendMail now rnd job w,
     webhookQueue (EmailProcessor.process cfg sendMail now rnd job w).1 = webhookQueue w) /\
  (forall now projectId eventType data w,
     let added := triggeredJobs now projectId eventType data w in
     WebhookService.trigger now projectId eventType data w
       = (set_webhookQueue (fun q => q ++ added) w, Return tt) /\
     (forall id,
        length (jobsOf id added)
        = match webhooks w !! id with
          | Some wh =>
              if decide (wh_projectId wh = projectId /\ wh_active wh = true /\
                         eventType ∈ wh_eventTypes wh)
              then 1%nat else 0%nat
          | None => 0%nat
          end) /\
     (forall j, j ∈ added ->
        wj_eventType (qj_data j) = eventType /\
        wj_payload (qj_data j)
          = {| wp_event := eventType; wp_timestamp := now; wp_data := data |} /\
        jo_attempts (qj_opts j) = Some 5 /\
        jo_backoff (qj_opts j) = Some {| bo_type := BT_exponential; bo_delay := 5000 |})).
Proof.
  split.
  - apply email_process_keeps_webhookQueue.
  - intros now projectId eventType data w added. split; [apply trigger_appends |]. split.
    + intros id. unfold added. rewrite triggeredJobs_per_subscription.
      destruct (webhooks w !! id) as [wh |]; [| done].
      repeat case_decide; unfold WebhookService.subscribed in *; cbn [fst snd] in *; done.
    + intros j. apply triggeredJobs_content.
Qed.

Lemma webhook_jobs_come_from_trigger_witness :
  let added := triggeredJobs 3000 "p1" message_delivered [] Fixtures.world1 in
  length (jobsOf "wh1" added) = 1%nat /\
  forall j, j ∈ added ->
    wj_eventType (qj_data j) = message_delivered /\ jo_attempts (qj_opts j) = Some 5.
Proof.
  intros added.
  destruct webhook_jobs_come_from_trigger as [_ Htrigger].
  destruct (Htrigger 3000 "p1" message_delivered [] Fixtures.world1) as (_ & Hcount & Hjobs).
  split.
  - unfold added. rewrite (Hcount "wh1"). vm_compute. reflexivity.
  - intros j Hj. destruct (Hjobs j Hj) as (He & _ & Ha & _). split; assumption.
Defined.

(** C2, as stated, fails: the worker moves a message of project p1 to
    DELIVERED while p1 has an active subscription wh1 that lists
    [message.delivered], and the webhook queue holds no job for wh1. *)
Lemma delivered_without_webhook_job :
  let w' := (EmailProcessor.process defaultWorkerConfig Fixtures.acceptingTransport 2000 0
               {| data := Fixtures.sendJob1; opts := api_defaultJobOptions; attemptsMade := 0 |}
               Fixtures.world1).1 in
  statusOf Fixtures.world1 "m1" = Some MS_QUEUED /\
  statusOf w' "m1" = Some MS_DELIVERED /\
  webhooks w' !! "wh1" = Some Fixtures.webhook1 /\
  WebhookService.subscribed "p1" message_delivered ("wh1", Fixtures.webhook1) /\
  length (jobsOf "wh1" (webhookQueue w')) <> 1%nat.
Proof.
  cbv zeta. split; [vm_compute; reflexivity |]. split; [vm_compute; reflexivity |].
  split; [vm_compute; reflexivity |]. split.
  - apply (bool_decide_unpack _). vm_compute. exact I.
  - vm_compute. discriminate.
Qed.

(** ** Email delivery worker: transport failure *)

Section TransportFailure.
Import EmailProcessor.

Variables (cfg : WorkerConfig) (sendMail : Transport) (now : Z) (rnd : Q).
Variables (job : Job SendEmailJob) (w : World) (m : Message) (e : Thrown).

Hypothesis Hmessage : messages w !! job_messageId (data job) = Some m.
Hypothesis Hfails : sendMail (buildMailOptions (data job)) = Throw e.

(** Attempts remain: RETRYING, one RETRY_SCHEDULED event, failure rethrown. *)
Lemma process_failure_retry :
  attemptsMade job + 1 < maxAttemptsFor cfg (opts job) ->
  exists w',
    process cfg sendMail now rnd job w = (w', Throw e) /\
    statusOf w' (job_messageId (data job)) = Some MS_RETRYING /\
    events w' = events w ++
      [ retryScheduledEvent job (errorMessageOf e) (nextRetryAt now (attemptsMade job + 1) rnd) ].
Proof.
  intros Hlt. apply Z.ltb_lt in Hlt.
  unfold process, updateMessageStatus, recordEvent. io_unfold.
  rewrite Hmessage. cbn. rewrite Hfails. cbn. rewrite Hlt. cbn.
  rewrite lookup_insert_eq. cbn.
  eexists; split; [reflexivity |]. unfold statusOf. cbn.
  rewrite lookup_insert_eq. done.
Qed.

(** No attempt remains: FAILED, one FAILED event, nothing thrown. *)
Lemma process_failure_final :
  job_to (data job) <> [] ->
  maxAttemptsFor cfg (opts job) <= attemptsMade job + 1 ->
  exists w',
    process cfg sendMail now rnd job w = (w', Return tt) /\
    statusOf w' (job_messageId (data job)) = Some MS_FAILED /\
    events w' = events w ++ [ failedEvent job (errorMessageOf e) ].
Proof.
  intros Hto Hge.
  unfold process, updateMessageStatus, recordEvent, addToSuppressionList. io_unfold.
  rewrite Hmessage. cbn. rewrite Hfails. cbn.
  replace (attemptsMade job + 1 <? _) with false by (symmetry; apply Z.ltb_ge; lia).
  cbn. rewrite lookup_insert_eq. cbn.
  destruct (isHardBounceError (errorMessageOf e)).
  - destruct (job_to (data job)) as [| first rest] eqn:E; [done |].
    cbn. rewrite lookup_insert_eq. cbn.
    eexists; split; [reflexivity |]. unfold statusOf. cbn. rewrite lookup_insert_eq. done.
  - eexists; split; [reflexivity |]. unfold statusOf. cbn. rewrite lookup_insert_eq. done.
Qed.



End TransportFailure.


(** ** Send service: idempotency and suppression *)

Section SendService.
Import EmailService.

#[local] Arguments Utils.renderTemplate : simpl never.

#[local] Arguments afterRateLimit : simpl never.

(** The rate limiter writes to its own sets only. *)
Lemma afterRateLimit_frame cfg p now w :
  let w' := afterRateLimit cfg p now w in
  messages w' = messages w /\ events w' = events w /\ suppressions w' = suppressions w /\
  templates w' = templates w /\ idempotencyKeys w' = idempotencyKeys w /\
  sendEmailQueue w' = sendEmailQueue w /\ webhookQueue w' = webhookQueue w.
Proof. cbv zeta. unfold afterRateLimit, RateLimiter.checkLimit. cbn. done. Qed.

(** A refused request returns the rate-limit error at once. *)
Lemma precheck_rate_limited cfg now p options w :
  rateLimitAllows cfg p now w = false ->
  sendEmail_precheck cfg now p options w =
    (afterRateLimit cfg p now w,
     Return (inl (ApiError "RATE_LIMIT_EXCEEDED" "Rate limit exceeded. Please try again later."))).
Proof.
  unfold rateLimitAllows, afterRateLimit, sendEmail_precheck.
  unfold mbind, IO_bind, mret, IO_ret.
  unfold RateLimiter.checkLimit. cbn. intros ->. cbn. reflexivity.
Qed.

(** An admitted request goes on to the idempotency check. *)
Lemma precheck_admitted cfg now p options w :
  rateLimitAllows cfg p now w = true ->
  sendEmail_precheck cfg now p options w =
    match truthy (idempotencyKey options) with
    | Some key =>
        match IdempotencyService.check key (scopeOf p) now (afterRateLimit cfg p now w) with
        | (w', Return (Some record)) => (w', Return (inl (ApiSuccess (idem_response record))))
        | (w', Return None) => (w', Return (inr tt))
        | (w', Throw e) => (w', Throw e)
        end
    | None => (afterRateLimit cfg p now w, Return (inr tt))
    end.
Proof.
  unfold rateLimitAllows, afterRateLimit, sendEmail_precheck.
  unfold mbind, IO_bind, mret, IO_ret.
  unfold RateLimiter.checkLimit. cbn. intros ->. cbn.
  destruct (truthy (idempotencyKey options)); [|reflexivity].
  destruct (IdempotencyService.check _ _ _ _) as [w' [[r|]|e]]; reflexivity.
Qed.


(** A suppressed recipient ends the call with the policy error and no write. *)
Lemma body_suppressed now newId p apiKeyId data options w r0 row :
  findSuppressed (suppressions w) p (normalizeRecipients (req_to data)) = Some (r0, row) ->
  sendEmail_body now newId p apiKeyId data options w =
    (w, Return (ApiError "RECIPIENT_SUPPRESSED"
                  ("Recipient " +:+ email r0 +:+ " is suppressed: "
                   +:+ SuppressionReason_toString (sup_reason row)))).
Proof.
  intros H. unfold sendEmail_body. io_unfold. rewrite H. reflexivity.
Qed.

(** The template step reads and never writes. *)
Lemma resolveContent_world p data w : (resolveContent p data w).1 = w.
Proof.
  unfold resolveContent. io_unfold.
  repeat (case_match; simplify_eq/=; try done).
Qed.

(** The template step can only fail with an error response. *)
Lemma resolveContent_inl p data w r :
  (resolveContent p data w).2 = Return (inl r) -> exists code msg, r = ApiError code msg.
Proof.
  unfold resolveContent. io_unfold.
  repeat (case_match; simplify_eq/=; try done); intros; simplify_eq; eauto.
Qed.

(** The template step never throws. *)
Lemma resolveContent_no_throw p data w e : (resolveContent p data w).2 <> Throw e.
Proof.
  unfold resolveContent. io_unfold.
  repeat (case_match; simplify_eq/=; try done).
Qed.

(** An accepted send writes the row, the event and the job, then stores the key. *)
Lemma body_accepted now newId p apiKeyId data options w c :
  findSuppressed (suppressions w) p (normalizeRecipients (req_to data)) = None ->
  (resolveContent p data w).2 = Return (inr c) ->
  is_Some (truthy (c_htmlBody c)) \/ is_Some (truthy (c_textBody c)) ->
  messages w !! newId = None ->
  exists m j,
    msg_status m = MS_QUEUED /\ msg_projectId m = p /\
    msg_idempotencyKey m = idempotencyKey options /\
    qj_name j = "send:" +:+ newId /\ job_messageId (qj_data j) = newId /\
    qj_opts j = mergeJobsOptions api_defaultJobOptions (jobOptionsOf options) /\
    sendEmail_body now newId p apiKeyId data options w =
      storeStep options p newId now (acceptedWorld newId m (queuedEvent newId apiKeyId now) j w).
Proof.
  intros Hsup Hres Hcontent Hfresh.
  pose proof (resolveContent_world p data w) as Hw.
  destruct (resolveContent p data w) as [w0 out] eqn:Er. cbn in Hw, Hres. subst w0 out.
  unfold sendEmail_body. unfold mbind at 1, IO_bind at 1, gets. rewrite Hsup.
  unfold mbind at 1, IO_bind at 1. rewrite Er.
  eexists _, _. repeat (split; [shelve |]).
  unfold storeStep.
  destruct (truthy (c_htmlBody c)) eqn:Eh, (truthy (c_textBody c)) eqn:Et;
    try (exfalso; destruct Hcontent as [[? ?] | [? ?]]; congruence).
  all: unfold createMessage, createEvent, QueuePlugin.sendEmail_add, IdempotencyService.store; io_unfold;
    rewrite Hfresh; cbn;
    destruct (truthy (idempotencyKey options)) as [k |]; cbn; [destruct (idempotencyKeys w !! k) |]; reflexivity.
  Unshelve. all: reflexivity.
Qed.

(** A send that is not accepted writes nothing. *)
Lemma body_not_accepted now newId p apiKeyId data options w :
  (exists pair, findSuppressed (suppressions w) p (normalizeRecipients (req_to data)) = Some pair) \/
  (exists r, (resolveContent p data w).2 = Return (inl r)) \/
  (exists c, (resolveContent p data w).2 = Return (inr c) /\
             truthy (c_htmlBody c) = None /\ truthy (c_textBody c) = None) \/
  is_Some (messages w !! newId) ->
  (exists code msg, sendEmail_body now newId p apiKeyId data options w = (w, Return (ApiError code msg)))
  \/ sendEmail_body now newId p apiKeyId data options w = (w, Throw (P2002_unique "id")).
Proof.
  destruct (findSuppressed (suppressions w) p (normalizeRecipients (req_to data)))
    as [[r0 row] |] eqn:Hsup.
  { intros _. left. eexists _, _. by apply body_suppressed. }
  pose proof (resolveContent_world p data w) as Hw.
  pose proof (resolveContent_inl p data w) as Hinl.
  pose proof (resolveContent_no_throw p data w) as Hnt.
  unfold sendEmail_body, createMessage. io_unfold. rewrite Hsup.
  destruct (resolveContent p data w) as [w0 out] eqn:Er. cbn in *. subst w0.
  destruct out as [[r | c] | e].
  - intros _. destruct (Hinl r eq_refl) as (code & msg & ->). left. eexists _, _. reflexivity.
  - destruct (truthy (c_htmlBody c)) eqn:Eh, (truthy (c_textBody c)) eqn:Et.
    4: { intros _. left. eexists _, _. reflexivity. }
    all: intros [[? ?] | [[? ?] | [(c' & Hc & H1 & H2) | [m Hm]]]]; simplify_eq;
      right; rewrite Hm; reflexivity.
  - by destruct (Hnt e).
Qed.

(** A send that returns success went through every write. *)
Lemma body_success_inv now newId p apiKeyId data options w w1 resp :
  sendEmail_body now newId p apiKeyId data options w = (w1, Return (ApiSuccess resp)) ->
  messages w !! newId = None /\
  exists m j,
    msg_status m = MS_QUEUED /\ msg_projectId m = p /\
    qj_name j = "send:" +:+ newId /\ job_messageId (qj_data j) = newId /\
    qj_opts j = mergeJobsOptions api_defaultJobOptions (jobOptionsOf options) /\
    storeStep options p newId now (acceptedWorld newId m (queuedEvent newId apiKeyId now) j w)
      = (w1, Return (ApiSuccess resp)).
Proof.
  intros Hrun.
  destruct (findSuppressed (suppressions w) p (normalizeRecipients (req_to data))) as [pair |] eqn:Hsup.
  { destruct (body_not_accepted now newId p apiKeyId data options w) as [(code & msg & H) | H];
      [left; eauto | |]; rewrite H in Hrun; simplify_eq. }
  destruct ((resolveContent p data w).2) as [[r | c] | e] eqn:Hres.
  { destruct (body_not_accepted now newId p apiKeyId data options w) as [(code & msg & H) | H];
      [right; left; eauto | |]; rewrite H in Hrun; simplify_eq. }
  2: { by destruct (resolveContent_no_throw p data w e). }
  destruct (decide (truthy (c_htmlBody c) = None /\ truthy (c_textBody c) = None)) as [[H1 H2] | Hc].
  { destruct (body_not_accepted now newId p apiKeyId data options w) as [(code & msg & H) | H];
      [right; right; left; eauto | |]; rewrite H in Hrun; simplify_eq. }
  destruct (messages w !! newId) as [m0 |] eqn:Hfresh.
  { destruct (body_not_accepted now newId p apiKeyId data options w) as [(code & msg & H) | H];
      [right; right; right; rewrite Hfresh; eauto | |]; rewrite H in Hrun; simplify_eq. }
  split; [done |].
  destruct (body_accepted now newId p apiKeyId data options w c Hsup Hres) as
    (m & j & Hm1 & Hm2 & Hm3 & Hj1 & Hj2 & Hj3 & Hbody); [| done |].
  { destruct (truthy (c_htmlBody c)), (truthy (c_textBody c)); eauto. by destruct Hc. }
  exists m, j. rewrite <- Hbody, Hrun. done.
Qed.





(** The template step depends on the templates table only. *)
Lemma resolveContent_frame p data w w0 :
  templates w0 = templates w -> (resolveContent p data w0).2 = (resolveContent p data w).2.
Proof.
  intros H. unfold resolveContent. io_unfold.
  destruct (truthy (req_templateId data)); [| done].
  cbv beta. rewrite H. repeat case_match; reflexivity.
Qed.

(** [check] on a key that is not stored. *)
Lemma check_absent key scope now w :
  idempotencyKeys w !! key = None ->
  IdempotencyService.check key scope now w = (w, Return None).
Proof. intros H. unfold IdempotencyService.check. by rewrite H. Qed.

(** [check] on a live entry of another scope. *)
Lemma check_other_scope key scope now w record :
  idempotencyKeys w !! key = Some record ->
  now <= idem_expiresAt record ->
  idem_scope record <> scope ->
  IdempotencyService.check key scope now w = (w, Return None).
Proof.
  intros H Hexp Hs. unfold IdempotencyService.check. rewrite H.
  replace (idem_expiresAt record <? now) with false by (symmetry; apply Z.ltb_ge; lia).
  by rewrite decide_False.
Qed.

(** [check] on a live entry of the same scope. *)
Lemma check_live key scope now w record :
  idempotencyKeys w !! key = Some record ->
  now <= idem_expiresAt record ->
  idem_scope record = scope ->
  IdempotencyService.check key scope now w = (w, Return (Some record)).
Proof.
  intros H Hexp Hs. unfold IdempotencyService.check. rewrite H.
  replace (idem_expiresAt record <? now) with false by (symmetry; apply Z.ltb_ge; lia).
  by rewrite decide_True.
Qed.

(** [store] on a key that is already stored, whatever the scope. *)
Lemma store_taken key scope response now w record :
  idempotencyKeys w !! key = Some record ->
  IdempotencyService.store key scope response now w = (w, Throw (P2002_unique "key")).
Proof. intros H. unfold IdempotencyService.store. by rewrite H. Qed.

(** A first send that succeeds with a fresh key: what it leaves behind. *)
Lemma first_send_stores cfg now newId p apiKeyId data options w w1 resp key :
  truthy (idempotencyKey options) = Some key ->
  idempotencyKeys w !! key = None ->
  sendEmail cfg now newId p apiKeyId data options w = (w1, Return (ApiSuccess resp)) ->
  resp = queuedResponse newId /\
  idempotencyKeys w1 !! key = Some (storedKey p newId now) /\
  messages w !! newId = None /\
  exists m j, messages w1 = <[newId := m]> (messages w) /\
    events w1 = events w ++ [queuedEvent newId apiKeyId now] /\
    sendEmailQueue w1 = sendEmailQueue w ++ [j].
Proof.
  intros Hkey Hfresh Hrun.
  destruct (afterRateLimit_frame cfg p now w) as (Fm & Fe & Fs & Ft & Fi & Fq & _).
  unfold sendEmail in Hrun. unfold mbind at 1, IO_bind at 1 in Hrun.
  destruct (rateLimitAllows cfg p now w) eqn:Hrl.
  2: { rewrite precheck_rate_limited in Hrun by done. simplify_eq. }
  rewrite precheck_admitted, Hkey in Hrun by done.
  rewrite check_absent in Hrun by (by rewrite Fi).
  apply body_success_inv in Hrun as (Hid & m & j & _ & _ & _ & _ & _ & Hstore).
  unfold storeStep in Hstore. rewrite Hkey in Hstore. cbn in Hstore.
  rewrite Fi, Hfresh in Hstore. simplify_eq. cbn.
  split; [done |]. split; [apply lookup_insert_eq |]. split; [by rewrite <- Fm |].
  exists m, j. by rewrite Fm, Fe, Fq.
Qed.

(** A call whose key has a live entry of its scope returns the stored
    response and changes nothing but the rate limiter's set. *)
Lemma replay_step cfg p key c w record :
  truthy (idempotencyKey (call_options c)) = Some key ->
  idempotencyKeys w !! key = Some record ->
  idem_scope record = scopeOf p ->
  call_now c <= idem_expiresAt record ->
  rateLimitAllows cfg p (call_now c) w = true ->
  exists w',
    runCall cfg p c w = (w', Return (ApiSuccess (idem_response record))) /\
    messages w' = messages w /\ events w' = events w /\
    sendEmailQueue w' = sendEmailQueue w /\ idempotencyKeys w' = idempotencyKeys w.
Proof.
  intros Hk Hrec Hscope Hexp Hrl.
  destruct (afterRateLimit_frame cfg p (call_now c) w) as (Fm & Fe & Fs & Ft & Fi & Fq & _).
  unfold runCall, sendEmail. unfold mbind at 1, IO_bind at 1.
  rewrite precheck_admitted, Hk by done.
  rewrite (check_live key (scopeOf p) _ _ record); [| by rewrite Fi | done | done].
  cbn. eexists. split; [reflexivity |]. done.
Qed.

(** The same for any number of calls made in turn. *)
Lemma replay_all cfg p key record (later : list SendCall) :
  idem_scope record = scopeOf p ->
  Forall (fun c => truthy (idempotencyKey (call_options c)) = Some key /\
                   call_now c <= idem_expiresAt record) later ->
  forall w,
    idempotencyKeys w !! key = Some record ->
    admittedAll cfg p later w = true ->
    exists w',
      runCalls cfg p later w = (w', replicate (length later) (Return (ApiSuccess (idem_response record)))) /\
      messages w' = messages w /\ events w' = events w /\
      sendEmailQueue w' = sendEmailQueue w.
Proof.
  intros Hscope Hall. induction Hall as [| c later [Hk Hexp] _ IH]; intros w Hrec Hadm.
  - exists w. done.
  - cbn [admittedAll] in Hadm. apply andb_true_iff in Hadm as [Hrl Hadm].
    destruct (replay_step cfg p key c w record Hk Hrec Hscope Hexp Hrl)
      as (w1 & Hrun & Fm & Fe & Fq & Fi).
    rewrite Hrun in Hadm. cbn [fst] in Hadm.
    destruct (IH w1) as (w2 & Hruns & Gm & Ge & Gq); [by rewrite Fi | done |].
    exists w2. cbn [runCalls length replicate]. rewrite Hrun, Hruns.
    split; [done |]. rewrite Gm, Ge, Gq. done.
Qed.

(** C4, as the code has it.  Calls with the same idempotency key in the
    same project, made one after the other: when the first, with a fresh
    key, succeeds, every later call made within the 24-hour window and
    admitted by the rate limiter returns the identical response and writes no
    message row, no event and no job, so the calls leave exactly one new
    message row. *)
Theorem idempotent_replay_sequential cfg p key (first : SendCall) (later : list SendCall) w w1 resp :
  truthy (idempotencyKey (call_options first)) = Some key ->
  idempotencyKeys w !! key = None ->
  runCall cfg p first w = (w1, Return (ApiSuccess resp)) ->
  Forall (fun c => truthy (idempotencyKey (call_options c)) = Some key /\
                   call_now c <= call_now first + IdempotencyService.IDEMPOTENCY_TTL_MS) later ->
  admittedAll cfg p later w1 = true ->
  exists w2,
    runCalls cfg p later w1 = (w2, replicate (length later) (Return (ApiSuccess resp))) /\
    messages w2 = messages w1 /\ events w2 = events w1 /\
    sendEmailQueue w2 = sendEmailQueue w1 /\
    size (messages w2) = S (size (messages w)).
Proof.
  intros Hk Hfresh Hrun Hlater Hadm.
  destruct (first_send_stores _ _ _ _ _ _ _ _ _ _ _ Hk Hfresh Hrun)
    as (-> & Hstored & Hid & m & j & Hm & _ & _).
  destruct (replay_all cfg p key (storedKey p (call_newId first) (call_now first)) later)
    with (w := w1) as (w2 & Hruns & Fm & Fe & Fq); [done | done | done | done |].
  exists w2. split; [exact Hruns |]. repeat (split; [done |]).
  rewrite Fm, Hm. by apply map_size_insert_None.
Qed.

(** C10.  The store is unique on the key alone.  When the key of a send
    is already stored, unexpired, under another scope, the pre-check reports
    no cached entry, the send writes the message row, the QUEUED event and
    the job, and the final store throws the unique-constraint error, which
    is what the caller receives. *)
Theorem cross_scope_key_reuse cfg now newId p apiKeyId data options w key record c :
  truthy (idempotencyKey options) = Some key ->
  idempotencyKeys w !! key = Some record ->
  idem_scope record <> scopeOf p ->
  now <= idem_expiresAt record ->
  rateLimitAllows cfg p now w = true ->
  findSuppressed (suppressions w) p (normalizeRecipients (req_to data)) = None ->
  (resolveContent p data w).2 = Return (inr c) ->
  is_Some (truthy (c_htmlBody c)) \/ is_Some (truthy (c_textBody c)) ->
  messages w !! newId = None ->
  (forall scope' response' t, IdempotencyService.store key scope' response' t w
                              = (w, Throw (P2002_unique "key"))) /\
  IdempotencyService.check key (scopeOf p) now w = (w, Return None) /\
  exists w' m j,
    sendEmail cfg now newId p apiKeyId data options w = (w', Throw (P2002_unique "key")) /\
    messages w' = <[newId := m]> (messages w) /\ msg_status m = MS_QUEUED /\
    events w' = events w ++ [queuedEvent newId apiKeyId now] /\
    sendEmailQueue w' = sendEmailQueue w ++ [j] /\
    qj_name j = "send:" +:+ newId /\ job_messageId (qj_data j) = newId /\
    idempotencyKeys w' = idempotencyKeys w.
Proof.
  intros Hkey Hrec Hscope Hexp Hrl Hsup Hres Hcontent Hid.
  split; [intros; by eapply store_taken |].
  split; [by eapply check_other_scope |].
  destruct (afterRateLimit_frame cfg p now w) as (Fm & Fe & Fs & Ft & Fi & Fq & _).
  set (w0 := afterRateLimit cfg p now w) in *.
  unfold sendEmail. unfold mbind at 1, IO_bind at 1.
  rewrite precheck_admitted, Hkey by done. fold w0.
  rewrite (check_other_scope key (scopeOf p) now w0 record) by (by rewrite ?Fi).
  destruct (body_accepted now newId p apiKeyId data options w0 c)
    as (m & j & Hm1 & _ & _ & Hj1 & Hj2 & _ & Hbody).
  { by rewrite Fs. } { by rewrite (resolveContent_frame p data w w0). } { done. } { by rewrite Fm. }
  rewrite Hbody. unfold storeStep. rewrite Hkey. cbn. rewrite Fi, Hrec.
  eexists _, m, j. split; [reflexivity |]. cbn. rewrite Fm, Fe, Fq, Fi. done.
Qed.




Lemma idempotent_replay_sequential_witness :
  let call now newId :=
    {| call_now := now; call_newId := newId; call_apiKeyId := "ak1";
       call_data := Fixtures.request1; call_options := Fixtures.keyedOptions "k1" |} in
  let w1 := (runCall defaultApiConfig "p1" (call 1000 "id-a") emptyWorld).1 in
  exists w2,
    runCalls defaultApiConfig "p1" [call 5000 "id-b"; call 9000 "id-c"] w1
    = (w2, [Return (ApiSuccess (queuedResponse "id-a"));
            Return (ApiSuccess (queuedResponse "id-a"))]) /\
    size (messages w2) = 1%nat.
Proof.
  intros call w1.
  destruct (idempotent_replay_sequential defaultApiConfig "p1" "k1"
              (call 1000 "id-a") [call 5000 "id-b"; call 9000 "id-c"]
              emptyWorld w1 (queuedResponse "id-a"))
    as (w2 & Hrun & _ & _ & _ & Hsize).
  - reflexivity.
  - reflexivity.
  - vm_compute. reflexivity.
  - repeat constructor; vm_compute; discriminate.
  - vm_compute. reflexivity.
  - exists w2. split; [exact Hrun | exact Hsize].
Defined.

(** C4, as stated, fails.  Two calls with the same key whose steps
    interleave both pass the check, both write a message row, and the second
    store throws.  And a replay that the rate limiter refuses returns the
    rate-limit error instead of the cached response. *)
Lemma duplicate_send_not_idempotent :
  (let options := Fixtures.keyedOptions "k1" in
   let '(wa, ra) := sendEmail_precheck defaultApiConfig 1000 "p1" options emptyWorld in
   let '(wb, rb) := sendEmail_precheck defaultApiConfig 1001 "p1" options wa in
   let '(wc, rc) := sendEmail_body 1000 "id-a" "p1" "ak1" Fixtures.request1 options wb in
   let '(wd, rd) := sendEmail_body 1001 "id-b" "p1" "ak1" Fixtures.request1 options wc in
   ra = Return (inr tt) /\ rb = Return (inr tt) /\
   rc = Return (ApiSuccess (queuedResponse "id-a")) /\
   rd = Throw (P2002_unique "key") /\
   size (messages wd) = 2%nat) /\
  (let options := Fixtures.keyedOptions "k1" in
   let '(w1, r1) := sendEmail Fixtures.strictConfig 1000 "id-a" "p1" "ak1"
                      Fixtures.request1 options emptyWorld in
   let '(w2, r2) := sendEmail Fixtures.strictConfig 2000 "id-b" "p1" "ak1"
                      Fixtures.request1 options w1 in
   r1 = Return (ApiSuccess (queuedResponse "id-a")) /\
   r2 = Return (ApiError "RATE_LIMIT_EXCEEDED" "Rate limit exceeded. Please try again later.")).
Proof. split; vm_compute; repeat split; reflexivity. Qed.

Lemma cross_scope_key_reuse_witness :
  exists w',
    sendEmail defaultApiConfig 1000 "id-a" "p1" "ak1" Fixtures.request1
      (Fixtures.keyedOptions "k1") Fixtures.worldKeyOfP2 = (w', Throw (P2002_unique "key")) /\
    statusOf w' "id-a" = Some MS_QUEUED /\
    length (sendEmailQueue w') = 1%nat.
Proof.
  destruct (cross_scope_key_reuse defaultApiConfig 1000 "id-a" "p1" "ak1" Fixtures.request1
              (Fixtures.keyedOptions "k1") Fixtures.worldKeyOfP2 "k1"
              {| idem_scope := "send:p2";
                 idem_response := {| resp_messageId := "m-p2"; resp_status := MS_QUEUED |};
                 idem_expiresAt := 90000000 |}
              {| c_subject := "S"; c_htmlBody := None; c_textBody := Some "T";
                 c_templateId := None; c_templateData := None |})
    as (_ & _ & w' & m & j & Hrun & Hm & Hst & _ & Hq & _).
  - reflexivity.
  - reflexivity.
  - vm_compute. discriminate.
  - vm_compute. discriminate.
  - vm_compute. reflexivity.
  - reflexivity.
  - reflexivity.
  - right. eexists. reflexivity.
  - reflexivity.
  - exists w'. split; [exact Hrun |]. split.
    + unfold statusOf. rewrite Hm, lookup_insert_eq. cbn. by rewrite Hst.
    + rewrite Hq. reflexivity.
Defined.

End SendService.

(** ** Inbound SMTP relay: authentication *)

Section SmtpAuth.
Import SmtpRelayServer.

Variable compare : string -> string -> bool.

(** No unrevoked key matches: the loop runs to its end. *)
Lemma scanKeys_no_match (apiKeyValue : string) (keys : list ApiKey) :
  (forall key, key ∈ keys -> key_revokedAt key = None ->
               compare apiKeyValue (key_keyHash key) = false) ->
  scanKeys compare apiKeyValue keys = NoValidKey.
Proof.
  induction keys as [| key rest IH]; intros Hno; [done |].
  cbn. destruct (key_revokedAt key) eqn:Hrev.
  - apply IH. intros k Hk. apply Hno. apply elem_of_cons. by right.
  - rewrite (Hno key) by (done || apply elem_of_cons; by left).
    apply IH. intros k Hk. apply Hno. apply elem_of_cons. by right.
Qed.

(** The first unrevoked key that matches lacks the scope: early return. *)
Lemma scanKeys_lacks_scope (apiKeyValue : string) (skipped rest : list ApiKey) (key : ApiKey) :
  (forall k, k ∈ skipped -> key_revokedAt k = None ->
             compare apiKeyValue (key_keyHash k) = false) ->
  key_revokedAt key = None ->
  compare apiKeyValue (key_keyHash key) = true ->
  "send:email" ∉ key_scopes key ->
  scanKeys compare apiKeyValue (skipped ++ key :: rest) = LacksScope.
Proof.
  intros Hskip Hrev Hmatch Hscope.
  induction skipped as [| k skipped IH].
  - cbn. rewrite Hrev, Hmatch. by rewrite bool_decide_eq_false_2.
  - cbn. destruct (key_revokedAt k) eqn:Hk.
    + apply IH. intros k' Hk'. apply Hskip. apply elem_of_cons. by right.
    + rewrite (Hskip k) by (done || apply elem_of_cons; by left).
      apply IH. intros k' Hk'. apply Hskip. apply elem_of_cons. by right.
Qed.

(** C9, as the code has it.  With a user name and a password present, an
    unknown project, a project that is not ACTIVE and a password that
    matches no unrevoked key of the project are all rejected with the same
    message "Invalid credentials", leaving session and world untouched; a
    password that matches an unrevoked key without the send:email scope is
    rejected with a message of its own. *)
Theorem smtp_auth_rejection_messages (now : Z) (auth : AuthInput) (session : Session)
    (w : World) (projectId apiKeyValue : string) :
  truthy (username auth) = Some projectId ->
  truthy (password auth) = Some apiKeyValue ->
  (projects w !! projectId = None ->
   handleAuth compare now auth session w
   = (w, Return (session, AuthError "Invalid credentials"))) /\
  (forall prj, projects w !! projectId = Some prj -> prj_status prj <> PS_ACTIVE ->
   handleAuth compare now auth session w
   = (w, Return (session, AuthError "Invalid credentials"))) /\
  (forall prj, projects w !! projectId = Some prj -> prj_status prj = PS_ACTIVE ->
   (forall key, key ∈ prj_apiKeys prj -> key_revokedAt key = None ->
                compare apiKeyValue (key_keyHash key) = false) ->
   handleAuth compare now auth session w
   = (w, Return (session, AuthError "Invalid credentials"))) /\
  (forall prj skipped key rest,
   projects w !! projectId = Some prj -> prj_status prj = PS_ACTIVE ->
   prj_apiKeys prj = skipped ++ key :: rest ->
   (forall k, k ∈ skipped -> key_revokedAt k = None ->
              compare apiKeyValue (key_keyHash k) = false) ->
   key_revokedAt key = None ->
   compare apiKeyValue (key_keyHash key) = true ->
   "send:email" ∉ key_scopes key ->
   handleAuth compare now auth session w
   = (w, Return (session, AuthError "API key does not have email sending permission"))).
Proof.
  intros Huser Hpass.
  unfold handleAuth. io_unfold. rewrite Huser, Hpass.
  split; [| split; [| split]].
  - intros ->. reflexivity.
  - intros prj -> Hst. by rewrite decide_False.
  - intros prj -> Hst Hno. rewrite decide_True by done.
    by rewrite scanKeys_no_match.
  - intros prj skipped key rest -> Hst Hkeys Hskip Hrev Hmatch Hscope.
    rewrite decide_True by done.
    rewrite Hkeys. by rewrite scanKeys_lacks_scope.
Qed.

End SmtpAuth.

Lemma smtp_auth_rejection_messages_witness :
  let run user pass :=
    SmtpRelayServer.handleAuth Fixtures.compareStandIn 1000
      (Fixtures.credentials user pass) SmtpRelayServer.newSession Fixtures.worldWithProject in
  let rejected text :=
    (Fixtures.worldWithProject,
     Return (SmtpRelayServer.newSession, SmtpRelayServer.AuthError text)) in
  run "nobody" "tm_live_send" = rejected "Invalid credentials" /\
  run "p1" "tm_live_wrong" = rejected "Invalid credentials" /\
  run "p1" "tm_live_read" = rejected "API key does not have email sending permission".
Proof.
  intros run rejected. split; [| split].
  - destruct (smtp_auth_rejection_messages Fixtures.compareStandIn 1000
                (Fixtures.credentials "nobody" "tm_live_send") SmtpRelayServer.newSession
                Fixtures.worldWithProject "nobody" "tm_live_send") as (Hunknown & _).
    + reflexivity.
    + reflexivity.
    + apply Hunknown. vm_compute. reflexivity.
  - destruct (smtp_auth_rejection_messages Fixtures.compareStandIn 1000
                (Fixtures.credentials "p1" "tm_live_wrong") SmtpRelayServer.newSession
                Fixtures.worldWithProject "p1" "tm_live_wrong") as (_ & _ & Hwrong & _).
    + reflexivity.
    + reflexivity.
    + apply (Hwrong {| prj_status := PS_ACTIVE;
                       prj_apiKeys := [Fixtures.sendKey; Fixtures.readOnlyKey] |}).
      * vm_compute. reflexivity.
      * reflexivity.
      * intros key Hkey _.
        apply elem_of_cons in Hkey as [-> | Hkey]; [vm_compute; reflexivity |].
        apply list_elem_of_singleton in Hkey as ->. vm_compute. reflexivity.
  - destruct (smtp_auth_rejection_messages Fixtures.compareStandIn 1000
                (Fixtures.credentials "p1" "tm_live_read") SmtpRelayServer.newSession
                Fixtures.worldWithProject "p1" "tm_live_read") as (_ & _ & _ & Hscope).
    + reflexivity.
    + reflexivity.
    + apply (Hscope {| prj_status := PS_ACTIVE;
                       prj_apiKeys := [Fixtures.sendKey; Fixtures.readOnlyKey] |}
               [Fixtures.sendKey] Fixtures.readOnlyKey []).
      * vm_compute. reflexivity.
      * reflexivity.
      * reflexivity.
      * intros k Hk _. apply list_elem_of_singleton in Hk as ->. vm_compute. reflexivity.
      * reflexivity.
      * vm_compute. reflexivity.
      * intros Hin. apply list_elem_of_singleton in Hin. discriminate.
Defined.

(** C9, as stated, fails: against the same project, a wrong password and
    the password of a key without the send:email scope are rejected with
    different messages. *)
Lemma smtp_auth_messages_differ :
  let run pass :=
    (SmtpRelayServer.handleAuth Fixtures.compareStandIn 1000
       (Fixtures.credentials "p1" pass) SmtpRelayServer.newSession
       Fixtures.worldWithProject).2 in
  run "tm_live_wrong"
    = Return (SmtpRelayServer.newSession, SmtpRelayServer.AuthError "Invalid credentials") /\
  run "tm_live_read"
    = Return (SmtpRelayServer.newSession,
              SmtpRelayServer.AuthError "API key does not have email sending permission") /\
  run "tm_live_wrong" <> run "tm_live_read".
Proof. vm_compute. repeat split; try reflexivity. discriminate. Qed.

(** ** A send-email job over its life in the queue *)

Section JobLife.
Import EmailProcessor.

Variables (cfg : WorkerConfig) (sendMail : Transport) (now : Z) (rnd : Q).
Variables (d : SendEmailJob) (e : Thrown).

Hypothesis Hfails : sendMail (buildMailOptions d) = Throw e.

(** A message with a status exists. *)
Lemma statusOf_Some w id st : statusOf w id = Some st -> exists m, messages w !! id = Some m.
Proof.
  unfold statusOf. destruct (messages w !! id) as [m |]; [eauto | done].
Qed.

(** A job with attempt limit [n] whose transport keeps failing: the runs
    that remain end with the job completed, the message FAILED, and the
    events a run of RETRY_SCHEDULED closed by one FAILED event that carries
    [n]. *)
Lemma runWith_always_failing (o : JobsOptions) (n : Z) :
  jo_attempts o = Some n ->
  job_to d <> [] ->
  forall (retries : nat) (made : Z) (w : World) (m : Message),
    0 <= made ->
    made + 1 + Z.of_nat retries = n ->
    messages w !! job_messageId d = Some m ->
    exists w' new,
      Bull.runWith retries (process cfg sendMail now rnd)
        {| data := d; opts := o; attemptsMade := made |} w = (w', Return Bull.Completed) /\
      statusOf w' (job_messageId d) = Some MS_FAILED /\
      events w' = events w ++ new /\
      map ev_type new = replicate retries ET_RETRY_SCHEDULED ++ [ET_FAILED] /\
      last new = Some {| ev_messageId := job_messageId d; ev_type := ET_FAILED;
                         ev_payload := EP_Failed (errorMessageOf e) n |}.
Proof.
  intros Ho Hto retries.
  induction retries as [| r IH]; intros made w m Hmade Hn Hm.
  - destruct (process_failure_final cfg sendMail now rnd
                {| data := d; opts := o; attemptsMade := made |} w m e Hm Hfails Hto)
      as (w' & Hrun & Hst & Hev).
    { unfold maxAttemptsFor. cbn. rewrite Ho.
      destruct (n =? 0) eqn:E; [apply Z.eqb_eq in E |]; lia. }
    exists w', [failedEvent {| data := d; opts := o; attemptsMade := made |} (errorMessageOf e)].
    cbn [Bull.runWith]. rewrite Hrun. split; [done |]. split; [done |]. split; [done |].
    split; [done |]. unfold failedEvent. cbn. do 3 f_equal. lia.
  - destruct (process_failure_retry cfg sendMail now rnd
                {| data := d; opts := o; attemptsMade := made |} w m e Hm Hfails)
      as (w1 & Hrun & Hst & Hev).
    { unfold maxAttemptsFor. cbn. rewrite Ho.
      destruct (n =? 0) eqn:E; [apply Z.eqb_eq in E |]; lia. }
    apply statusOf_Some in Hst as [m1 Hm1]. cbn in Hm1.
    destruct (IH (made + 1) w1 m1) as (w' & new & Hrun' & Hst' & Hev' & Hty & Hlast);
      [lia | lia | done |].
    exists w', (retryScheduledEvent {| data := d; opts := o; attemptsMade := made |}
                  (errorMessageOf e) (nextRetryAt now (made + 1) rnd) :: new).
    cbn [Bull.runWith]. rewrite Hrun. cbn [data opts attemptsMade].
    split; [exact Hrun' |]. split; [done |]. split.
    { rewrite Hev', Hev. cbn. by rewrite <- app_assoc. }
    split.
    { cbn. by rewrite Hty. }
    destruct new as [| ev new]; [done |]. exact Hlast.
Qed.

(** The same from the moment a worker first takes the job. *)
Lemma runJob_always_failing (q : QueuedJob SendEmailJob) (n : Z) (w : World) (m : Message) :
  qj_data q = d ->
  jo_attempts (qj_opts q) = Some n -> 1 <= n ->
  job_to d <> [] ->
  messages w !! job_messageId d = Some m ->
  exists w' new,
    Bull.runJob (process cfg sendMail now rnd) q w = (w', Return Bull.Completed) /\
    statusOf w' (job_messageId d) = Some MS_FAILED /\
    events w' = events w ++ new /\
    length (filter (fun ev => ev_type ev = ET_FAILED) new) = 1%nat /\
    last new = Some {| ev_messageId := job_messageId d; ev_type := ET_FAILED;
                       ev_payload := EP_Failed (errorMessageOf e) n |}.
Proof.
  intros Hd Ho Hn Hto Hm. unfold Bull.runJob, Bull.attemptsOf. rewrite Ho, Hd. cbn [default].
  destruct (runWith_always_failing (qj_opts q) n Ho Hto (Z.to_nat n - 1) 0 w m)
    as (w' & new & Hrun & Hst & Hev & Hty & Hlast); [lia | lia | done |].
  exists w', new. split; [exact Hrun |]. split; [done |]. split; [done |]. split; [| done].
  assert (Hcount : forall l : list Event,
            length (filter (fun ev => ev_type ev = ET_FAILED) l)
            = length (filter (fun t => t = ET_FAILED) (map ev_type l))).
  { induction l as [| ev l IHl]; [done |]. cbn [map]. rewrite !filter_cons.
    destruct (decide (ev_type ev = ET_FAILED)); cbn [length]; by rewrite IHl. }
  rewrite Hcount, Hty. clear.
  induction (Z.to_nat n - 1)%nat as [| k IHk]; [done |].
  cbn [replicate app]. rewrite filter_cons. rewrite decide_False by done. exact IHk.
Qed.

(** A job stored without an attempt limit runs once: when the transport
    fails and the worker's own limit is above one, the worker marks the
    message RETRYING and rethrows, and the queue fails the job. *)
Lemma runJob_without_attempt_limit (q : QueuedJob SendEmailJob) (w : World) (m : Message) :
  qj_data q = d ->
  jo_attempts (qj_opts q) = None ->
  2 <= retry_maxAttempts cfg ->
  messages w !! job_messageId d = Some m ->
  exists w',
    Bull.runJob (process cfg sendMail now rnd) q w = (w', Return (Bull.Failed e)) /\
    statusOf w' (job_messageId d) = Some MS_RETRYING /\
    map ev_type (events w') = map ev_type (events w) ++ [ET_RETRY_SCHEDULED].
Proof.
  intros Hd Ho Hmax Hm. unfold Bull.runJob, Bull.attemptsOf. rewrite Ho, Hd.
  change (Z.to_nat (default 0%Z None) - 1)%nat with 0%nat. cbn [Bull.runWith].
  destruct (process_failure_retry cfg sendMail now rnd
              {| data := d; opts := qj_opts q; attemptsMade := 0 |} w m e Hm Hfails)
    as (w1 & Hrun & Hst & Hev).
  { unfold maxAttemptsFor. cbn. rewrite Ho. lia. }
  rewrite Hrun. exists w1. split; [done |]. split; [done |].
  rewrite Hev, map_app. done.
Qed.

End JobLife.

(** ** Inbound SMTP relay: the job it enqueues *)

(** The job of an accepted SMTP message carries no option at all. *)
Lemma smtp_accepted_job_options parsed newId session w w' :
  SmtpRelayServer.handleData parsed newId session w = (w', Return None) ->
  exists j,
    sendEmailQueue w' = sendEmailQueue w ++ [j] /\
    qj_name j = "smtp:" +:+ newId /\
    job_messageId (qj_data j) = newId /\
    qj_opts j = noJobsOptions.
Proof.
  unfold SmtpRelayServer.handleData, SmtpRelayServer.queue_add,
    EmailService.createMessage, EmailService.createEvent.
  io_unfold. intros H.
  repeat (case_match; simplify_eq/=; try done);
    (eexists; split; [reflexivity | done]).
Qed.

(** The job of an accepted API send carries the API's default attempt limit
    and back-off. *)
Lemma api_accepted_job_options now newId p apiKeyId data options w w' resp :
  EmailService.sendEmail_body now newId p apiKeyId data options w
    = (w', Return (EmailService.ApiSuccess resp)) ->
  exists j,
    sendEmailQueue w' = sendEmailQueue w ++ [j] /\
    qj_name j = "send:" +:+ newId /\
    job_messageId (qj_data j) = newId /\
    jo_attempts (qj_opts j) = Some 3 /\
    jo_backoff (qj_opts j) = Some {| bo_type := BT_exponential; bo_delay := 5000 |}.
Proof.
  intros Hrun.
  apply body_success_inv in Hrun as (_ & m & j & _ & _ & Hname & Hid & Hopts & Hstore).
  exists j. split.
  - unfold storeStep in Hstore.
    repeat (case_match; simplify_eq/=; try done).
  - split; [done |]. split; [done |]. rewrite Hopts.
    unfold EmailService.jobOptionsOf. by repeat case_match.
Qed.

(** C6.  The same message is accepted once over SMTP and once over the API,
    and the transport then fails on every dispatch.  Both jobs carry the
    same data, but the SMTP job has no attempt limit and no back-off where
    the API job has 3 attempts and exponential back-off from 5000 ms.  The
    SMTP job is run once and failed by the queue with the message left
    RETRYING; the API job is run three times and the message ends FAILED. *)
Theorem smtp_job_is_not_retried :
  let wSmtp := (SmtpRelayServer.handleData (Return Fixtures.parsedMail1) "m1"
                  Fixtures.smtpSessionAnn emptyWorld).1 in
  let wApi := (EmailService.sendEmail defaultApiConfig 1000 "m1" "p1" "ak1"
                 Fixtures.request1 Fixtures.plainOptions emptyWorld).1 in
  let processor :=
    EmailProcessor.process defaultWorkerConfig (Fixtures.failingTransport "421 busy")
      2000 (1 # 2) in
  match sendEmailQueue wSmtp, sendEmailQueue wApi with
  | [jobSmtp], [jobApi] =>
      qj_data jobSmtp = qj_data jobApi /\
      qj_opts jobSmtp = noJobsOptions /\
      jo_attempts (qj_opts jobApi) = Some 3 /\
      jo_backoff (qj_opts jobApi) = Some {| bo_type := BT_exponential; bo_delay := 5000 |} /\
      (let '(w', state) := Bull.runJob processor jobSmtp wSmtp in
       state = Return (Bull.Failed (JsError "421 busy")) /\
       statusOf w' "m1" = Some MS_RETRYING /\
       map ev_type (events w') = [ET_QUEUED; ET_RETRY_SCHEDULED]) /\
      (let '(w', state) := Bull.runJob processor jobApi wApi in
       state = Return Bull.Completed /\
       statusOf w' "m1" = Some MS_FAILED /\
       map ev_type (events w')
         = [ET_QUEUED; ET_RETRY_SCHEDULED; ET_RETRY_SCHEDULED; ET_FAILED])
  | _, _ => False
  end.
Proof. vm_compute. repeat split; reflexivity. Qed.

(** ** Webhook signatures *)

Section Signatures.
Import Utils.

(** [crypto.createHmac('sha256', key).update(data).digest('hex')] *)
Variable hmac : string -> string -> string.

(** The decimal printer emits digits only. *)
Lemma pretty_N_char_stamp x : isStampChar (pretty_N_char x) = true.
Proof. unfold pretty_N_char. by repeat case_match. Qed.

Lemma pretty_N_go_stamp x s :
  allChars isStampChar s = true -> allChars isStampChar (pretty_N_go x s) = true.
Proof.
  revert s. induction (N.lt_wf_0 x) as [x _ IH]; intros s Hs.
  assert (x = 0 \/ 0 < x)%N as [-> | Hpos] by lia.
  - by rewrite pretty_N_go_0.
  - rewrite pretty_N_go_step by done. apply IH.
    + by apply N.div_lt.
    + cbn [allChars]. rewrite pretty_N_char_stamp. done.
Qed.

(** The printed clock reading holds digits and at most a sign. *)
Lemma pretty_Z_stamp (z : Z) : allChars isStampChar (pretty z) = true.
Proof.
  destruct z as [| p | p]; [done | |].
  - unfold pretty, pretty_Z, pretty, pretty_positive, pretty, pretty_N.
    case_decide; [done |]. by apply pretty_N_go_stamp.
  - unfold pretty, pretty_Z.
    change ("-" +:+ pretty_positive p) with (String "-" (pretty_positive p)).
    cbn [allChars]. change (isStampChar "-") with true. cbn [andb].
    unfold pretty, pretty_positive, pretty, pretty_N.
    case_decide; [done |]. by apply pretty_N_go_stamp.
Qed.

(** The match cannot start at a character other than [v]. *)
Lemma matchV1_skip_char c r :
  c <> "v"%char -> matchV1 (String c r) = matchV1 r.
Proof.
  intros Hc. cbn [matchV1]. 
  replace (String.prefix "v1=" (String c r)) with false; [done |].
  cbn [String.prefix]. destruct (ascii_dec "v" c) as [<- | ?]; done.
Qed.

Lemma matchV1_skip (p r : string) :
  allChars (fun c => negb (Ascii.eqb c "v")) p = true -> matchV1 (p +:+ r) = matchV1 r.
Proof.
  induction p as [| c p IH]; [done |]. cbn [allChars]. intros [Hc Hp]%andb_true_iff.
  change (String c p +:+ r) with (String c (p +:+ r)).
  rewrite matchV1_skip_char; [by apply IH |].
  intros ->. done.
Qed.

(** The capture group takes a whole hex digest. *)
Lemma takeLowerHex_all h : allChars isLowerHex h = true -> takeLowerHex h = h.
Proof.
  induction h as [| c h IH]; [done |]. cbn. intros [Hc Hh]%andb_true_iff.
  rewrite Hc. by rewrite IH.
Qed.

(** The pattern matches at [v1=] followed by a digest. *)
Lemma matchV1_here h : isHexDigest h -> matchV1 ("v1=" +:+ h) = Some h.
Proof.
  intros [Hne Hall]. destruct h as [| c h]; [done |].
  change ("v1=" +:+ String c h) with (String "v" (String "1" (String "=" (String c h)))).
  cbn [matchV1]. cbn [String.prefix dropChars].
  destruct (ascii_dec "v" "v"); [| done]. destruct (ascii_dec "1" "1"); [| done].
  destruct (ascii_dec "=" "="); [| done].
  rewrite takeLowerHex_all by done. done.
Qed.

Lemma allChars_impl (P Q : ascii -> bool) s :
  (forall c, P c = true -> Q c = true) -> allChars P s = true -> allChars Q s = true.
Proof.
  intros HPQ. induction s as [| c s IH]; [done |]. cbn.
  intros [Hc Hs]%andb_true_iff. rewrite (HPQ c Hc). by apply IH.
Qed.

Lemma stamp_not_v c : isStampChar c = true -> negb (Ascii.eqb c "v") = true.
Proof.
  destruct (Ascii.eqb c "v") eqn:E; [| done].
  apply Ascii.eqb_eq in E as ->. done.
Qed.


(** The capture group of a header built by [signWebhookPayload] is the digest. *)
Lemma matchV1_signature payload secret now :
  isHexDigest (hmac secret payload) ->
  matchV1 (signWebhookPayload hmac payload secret now) = Some (hmac secret payload).
Proof.
  intros Hh. unfold signWebhookPayload.
  change ("t=" +:+ pretty now +:+ ",v1=" +:+ hmac secret payload)
    with (String "t" (String "=" (pretty now +:+ String "," ("v1=" +:+ hmac secret payload)))).
  rewrite !matchV1_skip_char by done.
  rewrite matchV1_skip.
  - rewrite matchV1_skip_char by done.
    by apply matchV1_here.
  - eapply allChars_impl; [exact stamp_not_v | apply pretty_Z_stamp].
Qed.

(** The guarded comparison is string equality. *)
Lemma timingSafeEqual_orFalse_eq a b : timingSafeEqual_orFalse a b = true <-> a = b.
Proof.
  unfold timingSafeEqual_orFalse. split.
  - destruct (String.length a =? String.length b)%nat; [| done]. apply String.eqb_eq.
  - intros ->. rewrite Nat.eqb_refl. apply String.eqb_refl.
Qed.

(** Against a signature made for [payload] with [secret], verification of
    [payload'] with [secret'] succeeds exactly when the two digests agree. *)
Lemma verify_signed_iff payload payload' secret secret' now :
  isHexDigest (hmac secret payload) ->
  verifyWebhookPayload hmac payload' (signWebhookPayload hmac payload secret now) secret' = true
  <-> hmac secret' payload' = hmac secret payload.
Proof.
  intros Hh. unfold verifyWebhookPayload. rewrite matchV1_signature by done.
  apply timingSafeEqual_orFalse_eq.
Qed.

(** Signing then verifying with the same payload and secret succeeds. *)
Lemma verify_sign_roundtrip payload secret now :
  isHexDigest (hmac secret payload) ->
  verifyWebhookPayload hmac payload (signWebhookPayload hmac payload secret now) secret = true.
Proof. intros Hh. by apply verify_signed_iff. Qed.

(** The header is [t=], the decimal reading of the clock, [,v1=] and the
    digest. *)
Lemma signature_format payload secret now :
  signWebhookPayload hmac payload secret now
    = "t=" +:+ pretty now +:+ ",v1=" +:+ hmac secret payload /\
  allChars isStampChar (pretty now) = true.
Proof. split; [reflexivity | apply pretty_Z_stamp]. Qed.

(** A changed payload or secret is rejected exactly when it changes the
    digest. *)
Lemma verify_rejects_iff_digest_differs payload payload' secret secret' now :
  isHexDigest (hmac secret payload) ->
  verifyWebhookPayload hmac payload' (signWebhookPayload hmac payload secret now) secret' = false
  <-> hmac secret' payload' <> hmac secret payload.
Proof.
  intros Hh. rewrite <- (verify_signed_iff payload payload' secret secret' now Hh).
  destruct (verifyWebhookPayload _ _ _ _); split; congruence.
Qed.

End Signatures.

(** ** End-to-end scenarios *)

(** An accepted send whose transport succeeds: QUEUED, then DELIVERED with
    the SENT and DELIVERED events appended in this order. *)
Example scenario_send_and_deliver :
  let '(w1, out) :=
    EmailService.sendEmail defaultApiConfig 1000 "m1" "p1" "ak1"
      Fixtures.request1 Fixtures.plainOptions emptyWorld in
  out = Return (EmailService.ApiSuccess (queuedResponse "m1")) /\
  statusOf w1 "m1" = Some MS_QUEUED /\
  match sendEmailQueue w1 with
  | [job] =>
      let '(w2, state) :=
        Bull.runJob
          (EmailProcessor.process defaultWorkerConfig Fixtures.acceptingTransport 2000 0)
          job w1 in
      state = Return Bull.Completed /\
      statusOf w2 "m1" = Some MS_DELIVERED /\
      map ev_type (events w2) = [ET_QUEUED; ET_SENT; ET_DELIVERED]
  | _ => False
  end.
Proof. vm_compute. repeat split; reflexivity. Qed.

(** Three failures with "user unknown" and three attempts: two retries,
    one final failure, and a BOUNCE suppression row for the recipient. *)
Example scenario_hard_bounce :
  let '(w1, _) :=
    EmailService.sendEmail defaultApiConfig 1000 "m1" "p1" "ak1"
      Fixtures.request1 Fixtures.plainOptions emptyWorld in
  match sendEmailQueue w1 with
  | [job] =>
      let '(w2, state) :=
        Bull.runJob
          (EmailProcessor.process defaultWorkerConfig
             (Fixtures.failingTransport "550 5.1.1 User unknown") 2000 0)
          job w1 in
      state = Return Bull.Completed /\
      statusOf w2 "m1" = Some MS_FAILED /\
      map ev_type (events w2)
        = [ET_QUEUED; ET_RETRY_SCHEDULED; ET_RETRY_SCHEDULED; ET_FAILED] /\
      sup_reason <$> suppressions w2 !! ("p1", "ann@example.com") = Some SR_BOUNCE
  | _ => False
  end.
Proof. vm_compute. repeat split; reflexivity. Qed.

(** A subscription to [message.sent]: one job from [trigger], and a 200
    answer leaves one delivery row and the success counter at 1. *)
Example scenario_webhook_delivery :
  let '(w1, _) := WebhookService.trigger 1000 "p1" message_sent [] Fixtures.world1 in
  match webhookQueue w1 with
  | [job] =>
      let '(w2, state) :=
        Bull.runJob
          (WebhookProcessor.process (Fixtures.endpoint (Responded 200 (Some "ok"))) 2000)
          job w1 in
      state = Return Bull.Completed /\
      successCountOf w2 "wh1" = Some 1 /\
      map wd_responseStatus (webhookDeliveries w2) = [Some 200]
  | _ => False
  end.
Proof. vm_compute. repeat split; reflexivity. Qed.

(** * Further properties *)

(** ** Strings *)

Lemma string_app_cons c s t : String c s +:+ t = String c (s +:+ t).
Proof. reflexivity. Qed.

Lemma string_app_nil_l t : "" +:+ t = t.
Proof. reflexivity. Qed.

Lemma string_app_nil_r s : s +:+ "" = s.
Proof. induction s as [| c s IH]; [done |]. by rewrite string_app_cons, IH. Qed.

Lemma string_app_assoc s t u : (s +:+ t) +:+ u = s +:+ (t +:+ u).
Proof. induction s as [| c s IH]; [done |]. by rewrite !string_app_cons, IH. Qed.

Lemma string_length_app s t :
  String.length (s +:+ t) = (String.length s + String.length t)%nat.
Proof. induction s as [| c s IH]; [done |]. rewrite string_app_cons. cbn. by rewrite IH. Qed.

Lemma allChars_app P s t : allChars P (s +:+ t) = allChars P s && allChars P t.
Proof.
  induction s as [| c s IH]; [done |]. rewrite string_app_cons. cbn.
  rewrite IH. by rewrite andb_assoc.
Qed.

(** ** Truncation *)

Lemma takeChars_length n s :
  String.length (Utils.takeChars n s) = Nat.min n (String.length s).
Proof.
  revert s. induction n as [| n IH]; intros [| c s]; cbn; try done.
  by rewrite IH.
Qed.

(** X1.  With a limit of at least 3, [truncate] returns a string within the
    limit: a string that fits is returned as it is, a longer one is cut to
    its first [maxLength - 3] characters followed by three dots, which
    makes exactly [maxLength] characters. *)
Theorem truncate_within_limit (str : string) (maxLength : Z) :
  3 <= maxLength ->
  Z.of_nat (String.length (Utils.truncate str maxLength)) <= maxLength /\
  (Z.of_nat (String.length str) <= maxLength -> Utils.truncate str maxLength = str) /\
  (maxLength < Z.of_nat (String.length str) ->
   Utils.truncate str maxLength
     = Utils.takeChars (Z.to_nat (maxLength - 3)) str +:+ "..." /\
   Z.of_nat (String.length (Utils.truncate str maxLength)) = maxLength).
Proof.
  intros Hmax. unfold Utils.truncate, Utils.sliceTo.
  destruct (Z.of_nat (String.length str) <=? maxLength) eqn:Hfit.
  - apply Z.leb_le in Hfit. split; [done |]. split; [done | lia].
  - apply Z.leb_gt in Hfit.
    replace (maxLength - 3 <? 0) with false by (symmetry; apply Z.ltb_ge; lia).
    rewrite Z.min_l by lia.
    rewrite string_length_app, takeChars_length. cbn [String.length].
    split; [lia |]. split; [lia |]. intros _. split; [done | lia].
Qed.

Lemma truncate_within_limit_witness :
  Utils.truncate "Hello, world" 8 = "Hello..." /\
  Z.of_nat (String.length (Utils.truncate "Hello, world" 8)) = 8.
Proof.
  destruct (truncate_within_limit "Hello, world" 8) as (_ & _ & Hcut); [lia |].
  destruct Hcut as [Heq Hlen]; [vm_compute; reflexivity |].
  split; [rewrite Heq; reflexivity | exact Hlen].
Defined.

(** X2.  With a limit below 3, a string longer than the limit comes back
    longer than the limit: the three dots are appended to what
    [slice(0, maxLength - 3)], an index counted from the end, leaves. *)
Theorem truncate_small_limit_overflows (str : string) (maxLength : Z) :
  maxLength < 3 ->
  maxLength < Z.of_nat (String.length str) ->
  maxLength < Z.of_nat (String.length (Utils.truncate str maxLength)) /\
  Z.of_nat (String.length (Utils.truncate str maxLength))
    = Z.max (Z.of_nat (String.length str) + maxLength) 3.
Proof.
  intros Hsmall Hlong. unfold Utils.truncate, Utils.sliceTo.
  replace (Z.of_nat (String.length str) <=? maxLength) with false
    by (symmetry; apply Z.leb_gt; lia).
  replace (maxLength - 3 <? 0) with true by (symmetry; apply Z.ltb_lt; lia).
  rewrite string_length_app, takeChars_length. cbn [String.length]. lia.
Qed.

Lemma truncate_small_limit_overflows_witness :
  Z.of_nat (String.length (Utils.truncate "abcdef" 2)) = 8.
Proof.
  destruct (truncate_small_limit_overflows "abcdef" 2) as [_ Hlen];
    [lia | vm_compute; reflexivity |].
  rewrite Hlen. reflexivity.
Defined.

(** ** HTML escaping *)

Lemma replaceChar_app c by_ s t :
  Utils.replaceChar c by_ (s +:+ t) = Utils.replaceChar c by_ s +:+ Utils.replaceChar c by_ t.
Proof.
  induction s as [| x s IH]; [done |]. rewrite string_app_cons. cbn [Utils.replaceChar].
  case_decide; rewrite IH; [by rewrite string_app_assoc | done].
Qed.

Lemma sanitizeHtml_app s t :
  Utils.sanitizeHtml (s +:+ t) = Utils.sanitizeHtml s +:+ Utils.sanitizeHtml t.
Proof. unfold Utils.sanitizeHtml. by rewrite !replaceChar_app. Qed.

(** One character at a time: each character becomes its entity. *)
Lemma sanitizeHtml_cons c s :
  Utils.sanitizeHtml (String c s) = htmlEntity c +:+ Utils.sanitizeHtml s.
Proof.
  change (String c s) with (String c "" +:+ s). rewrite sanitizeHtml_app. f_equal.
  unfold htmlEntity, Utils.sanitizeHtml.
  repeat case_decide; subst; try done.
  cbn [Utils.replaceChar]. repeat (case_decide; [done |]). cbn [Utils.replaceChar].
  repeat (case_decide; [done |]). cbn [Utils.replaceChar].
  repeat (case_decide; [done |]). cbn [Utils.replaceChar].
  repeat (case_decide; [done |]). cbn [Utils.replaceChar].
  repeat (case_decide; [done |]). done.
Qed.

Ltac elem_here := repeat first [apply list_elem_of_here | apply list_elem_of_further].

Ltac elem_cases H :=
  repeat (apply elem_of_cons in H as [H | H]; [subst |]); [.. | by apply elem_of_nil in H].

Lemma htmlEntity_plain c : isHtmlSpecial c = false -> htmlEntity c = String c "".
Proof.
  unfold isHtmlSpecial, htmlEntity. intros H%bool_decide_eq_false.
  repeat (destruct (decide _) as [-> | ?]; [exfalso; apply H; elem_here |]). done.
Qed.

Lemma htmlEntity_special c :
  isHtmlSpecial c = true ->
  exists x rest, htmlEntity c = String "&" (String x rest) /\
                 allChars (fun y => negb (isHtmlDelimiter y)) (htmlEntity c) = true.
Proof.
  unfold isHtmlSpecial. intros H%bool_decide_eq_true.
  elem_cases H; (eexists _, _; split; [reflexivity | done]).
Qed.

Lemma htmlEntity_nonempty c : (1 <= String.length (htmlEntity c))%nat.
Proof. unfold htmlEntity. repeat case_decide; cbn; lia. Qed.

Lemma sanitizeHtml_length html :
  (String.length html <= String.length (Utils.sanitizeHtml html))%nat.
Proof.
  induction html as [| c html IH]; [done |].
  rewrite sanitizeHtml_cons, string_length_app. cbn [String.length].
  pose proof (htmlEntity_nonempty c). lia.
Qed.

(** X3.  The output of [sanitizeHtml] holds none of the characters [<],
    [>], the double quote and the single quote, and the input comes back
    unchanged exactly when it holds none of these four and no [&]. *)
Theorem sanitizeHtml_escapes (html : string) :
  allChars (fun c => negb (isHtmlDelimiter c)) (Utils.sanitizeHtml html) = true /\
  (Utils.sanitizeHtml html = html <->
   allChars (fun c => negb (isHtmlSpecial c)) html = true).
Proof.
  induction html as [| c html [IHsafe IHfix]]; [done |].
  rewrite sanitizeHtml_cons. cbn [allChars]. rewrite allChars_app.
  destruct (isHtmlSpecial c) eqn:Hc.
  - destruct (htmlEntity_special c Hc) as (x & rest & Hent & Hsafe).
    rewrite Hsafe, IHsafe. split; [done |]. cbn. split; [| done].
    rewrite Hent, !string_app_cons. intros [= <- Hrest]. exfalso.
    assert (String.length (String x (rest +:+ Utils.sanitizeHtml html))
            = String.length html) as Hlen by (by rewrite Hrest).
    revert Hlen. cbn [String.length]. rewrite string_length_app.
    pose proof (sanitizeHtml_length html). lia.
  - rewrite (htmlEntity_plain c Hc), string_app_cons, string_app_nil_l.
    cbn [allChars negb andb]. split.
    + rewrite IHsafe, !andb_true_r. apply negb_true_iff, bool_decide_eq_false.
      apply bool_decide_eq_false in Hc. intros Hin. apply Hc.
      by apply list_elem_of_further.
    + rewrite <- IHfix. split; [by intros [= ->] | by intros ->].
Qed.

(** X4.  [sanitizeHtml] loses nothing: two different inputs have different
    outputs. *)
Theorem sanitizeHtml_injective (a b : string) :
  a <> b -> Utils.sanitizeHtml a <> Utils.sanitizeHtml b.
Proof.
  intros Hne Heq. apply Hne. clear Hne. revert b Heq.
  induction a as [| c a IH]; intros [| d b].
  - done.
  - rewrite sanitizeHtml_cons. pose proof (htmlEntity_nonempty d).
    destruct (htmlEntity d); [cbn in *; lia | done].
  - rewrite sanitizeHtml_cons. pose proof (htmlEntity_nonempty c).
    destruct (htmlEntity c); [cbn in *; lia | done].
  - rewrite !sanitizeHtml_cons.
    destruct (isHtmlSpecial c) eqn:Hc, (isHtmlSpecial d) eqn:Hd.
    + apply bool_decide_eq_true in Hc, Hd.
      elem_cases Hc; elem_cases Hd; intros [= H]; by rewrite (IH b H).
    + destruct (htmlEntity_special c Hc) as (x & rest & -> & _).
      rewrite (htmlEntity_plain d Hd), !string_app_cons. intros [= <- _].
      exfalso. apply bool_decide_eq_false in Hd. apply Hd. elem_here.
    + destruct (htmlEntity_special d Hd) as (x & rest & -> & _).
      rewrite (htmlEntity_plain c Hc), !string_app_cons. intros [= -> _].
      exfalso. apply bool_decide_eq_false in Hc. apply Hc. elem_here.
    + rewrite (htmlEntity_plain c Hc), (htmlEntity_plain d Hd), !string_app_cons.
      intros [= -> H]. by rewrite (IH b H).
Qed.

Lemma sanitizeHtml_injective_witness :
  Utils.sanitizeHtml "<" <> Utils.sanitizeHtml "&lt;".
Proof. apply (sanitizeHtml_injective "<" "&lt;"). discriminate. Defined.

(** ** Address validation *)

Section EmailRegex.
Import Utils.

Lemma string_app_eq_nil s t : s +:+ t = "" -> s = "" /\ t = "".
Proof. destruct s; [done | discriminate]. Qed.

Lemma nullable_matches r : nullable r = true <-> reMatches r "".
Proof.
  split.
  - induction r as [| | p | r1 IH1 r2 IH2 | r1 IH1 r2 IH2 | r IH]; cbn; try done.
    + intros _. constructor.
    + intros [H1 H2]%andb_true_iff. apply (reMatches_seq r1 r2 "" ""); auto.
    + intros [H | H]%orb_true_iff; [apply reMatches_alt_l | apply reMatches_alt_r]; auto.
    + intros _. constructor.
  - intros H. remember "" as s eqn:Hs. induction H; cbn; try done.
    + apply string_app_eq_nil in Hs as [-> ->]. rewrite IHreMatches1, IHreMatches2; done.
    + rewrite IHreMatches by done. done.
    + rewrite IHreMatches by done. apply orb_true_r.
Qed.

Lemma deriv_matches r c s : reMatches (deriv r c) s <-> reMatches r (String c s).
Proof.
  split.
  - revert s. induction r as [| | p | r1 IH1 r2 IH2 | r1 IH1 r2 IH2 | r IH]; cbn; intros s H.
    + inversion H.
    + inversion H.
    + destruct (p c) eqn:Hp; inversion H; subst. by constructor.
    + destruct (nullable r1) eqn:Hn.
      * inversion H as [| | | ? ? ? H' | ? ? ? H' | |]; subst.
        -- inversion H' as [| | ? ? s1 s2 Ha Hb | | | |]; subst.
           change (String c (s1 +:+ s2)) with (String c s1 +:+ s2).
           constructor; auto.
        -- change (String c s) with ("" +:+ String c s).
           constructor; [by apply nullable_matches | auto].
      * inversion H as [| | ? ? s1 s2 Ha Hb | | | |]; subst.
        change (String c (s1 +:+ s2)) with (String c s1 +:+ s2).
        constructor; auto.
    + inversion H; subst; [apply reMatches_alt_l | apply reMatches_alt_r]; auto.
    + inversion H as [| | ? ? s1 s2 Ha Hb | | | |]; subst.
      change (String c (s1 +:+ s2)) with (String c s1 +:+ s2).
      apply reMatches_star_cons; auto.
  - intros H. remember (String c s) as cs eqn:Hcs. revert c s Hcs.
    induction H as [| p c0 Hp | r1 r2 s1 s2 H1 IH1 H2 IH2 | r1 r2 s0 H1 IH1 | r1 r2 s0 H2 IH2
                    | r | r s1 s2 H1 IH1 H2 IH2]; intros c s Hcs; cbn.
    + discriminate.
    + injection Hcs as -> <-. rewrite Hp. constructor.
    + destruct s1 as [| c1 s1].
      * rewrite string_app_nil_l in Hcs. subst s2.
        apply nullable_matches in H1. rewrite H1.
        apply reMatches_alt_r. by apply IH2.
      * rewrite string_app_cons in Hcs. injection Hcs as -> <-.
        destruct (nullable r1); [apply reMatches_alt_l |]; constructor; auto.
    + apply reMatches_alt_l. auto.
    + apply reMatches_alt_r. auto.
    + discriminate.
    + destruct s1 as [| c1 s1].
      * rewrite string_app_nil_l in Hcs. by apply IH2.
      * rewrite string_app_cons in Hcs. injection Hcs as -> <-.
        constructor; auto.
Qed.

Lemma reTest_matches r s : reTest r s = true <-> reMatches r s.
Proof.
  revert r. induction s as [| c s IH]; intros r; cbn.
  - apply nullable_matches.
  - rewrite IH. apply deriv_matches.
Qed.

Lemma star_class_matches p x : reMatches (ReStar (ReClass p)) x <-> allChars p x = true.
Proof.
  split.
  - intros H. remember (ReStar (ReClass p)) as r eqn:Hr.
    induction H as [| | | | | r0 | r0 s1 s2 H1 IH1 H2 IH2]; try discriminate; [done |].
    injection Hr as ->. inversion H1 as [| ? c Hc | | | | |]; subst.
    rewrite string_app_cons, string_app_nil_l. cbn. by rewrite Hc, IH2.
  - induction x as [| c x IH]; cbn; [intros _; constructor |].
    intros [Hc Hx]%andb_true_iff.
    change (String c x) with (String c "" +:+ x). constructor; [by constructor | auto].
Qed.

Lemma plus_class_matches p x :
  reMatches (rePlus (ReClass p)) x <-> x <> "" /\ allChars p x = true.
Proof.
  unfold rePlus. split.
  - intros H. inversion H as [| | ? ? s1 s2 Ha Hb | | | |]; subst.
    inversion Ha as [| ? c Hc | | | | |]; subst. apply star_class_matches in Hb.
    rewrite string_app_cons, string_app_nil_l. cbn. by rewrite Hc, Hb.
  - intros [Hne Hall]. destruct x as [| c x]; [done |]. cbn in Hall.
    apply andb_true_iff in Hall as [Hc Hx].
    change (String c x) with (String c "" +:+ x).
    constructor; [by constructor | by apply star_class_matches].
Qed.

Lemma char_matches c x : reMatches (ReClass (Ascii.eqb c)) x <-> x = String c "".
Proof.
  split.
  - intros H. inversion H as [| ? c0 Hc | | | | |]; subst. by apply Ascii.eqb_eq in Hc as ->.
  - intros ->. constructor. apply Ascii.eqb_refl.
Qed.

(** X5.  [isValidEmail] accepts exactly the strings made of a local part, an
    @, a domain, a dot and a last label, where each of the three parts is
    not empty and holds neither white space nor @.  A dot may stand
    anywhere else in the three parts. *)
Theorem isValidEmail_spec (email : string) :
  isValidEmail email = true <->
  exists l d t,
    email = l +:+ "@" +:+ d +:+ "." +:+ t /\
    isAddressPart l /\ isAddressPart d /\ isAddressPart t.
Proof.
  unfold isValidEmail, emailRegex, isAddressPart. rewrite reTest_matches. split.
  - intros H.
    inversion H as [| | ? ? l s1 Hl H1 | | | |]; subst.
    inversion H1 as [| | ? ? a s2 Ha H2 | | | |]; subst.
    inversion H2 as [| | ? ? d s3 Hd H3 | | | |]; subst.
    inversion H3 as [| | ? ? dot t Hdot Ht | | | |]; subst.
    apply char_matches in Ha as ->. apply char_matches in Hdot as ->.
    exists l, d, t. split; [done |].
    by rewrite <- !plus_class_matches.
  - intros (l & d & t & -> & Hl & Hd & Ht).
    constructor; [by apply plus_class_matches |].
    constructor; [by apply char_matches |].
    constructor; [by apply plus_class_matches |].
    constructor; [by apply char_matches |].
    by apply plus_class_matches.
Qed.

(** Some addresses. *)
Example isValidEmail_samples :
  Utils.isValidEmail "ann@example.com" = true /\
  Utils.isValidEmail "ann@example" = false /\
  Utils.isValidEmail "ann smith@example.com" = false /\
  Utils.isValidEmail "ann@@example.com" = false /\
  Utils.isValidEmail "ann@example..com" = true.
Proof. vm_compute. repeat split; reflexivity. Qed.

End EmailRegex.

(** ** Templates *)

Section Templates.
Import Utils.

Lemma dedupe_fold_elem (x : string) (l seen : list string) :
  x ∈ fold_left (fun seen x => if bool_decide (x ∈ seen) then seen else seen ++ [x]) l seen
  <-> x ∈ seen \/ x ∈ l.
Proof.
  revert seen. induction l as [| y l IH]; intros seen; cbn.
  - split; [by left | intros [H | H]; [done | by apply elem_of_nil in H]].
  - rewrite IH. case_bool_decide as Hy.
    + rewrite elem_of_cons. split; [intros [H | H]; auto |].
      intros [H | [-> | H]]; auto.
    + rewrite elem_of_app, !elem_of_cons, elem_of_nil. tauto.
Qed.

Lemma dedupe_fold_NoDup (l seen : list string) :
  NoDup seen ->
  NoDup (fold_left (fun seen x => if bool_decide (x ∈ seen) then seen else seen ++ [x]) l seen).
Proof.
  revert seen. induction l as [| y l IH]; intros seen Hseen; cbn; [done |].
  apply IH. case_bool_decide as Hy; [done |].
  apply NoDup_app. split; [done |]. split; [| apply NoDup_singleton].
  intros x Hx ->%list_elem_of_singleton. done.
Qed.

Lemma extractTemplateVariables_elem k t :
  k ∈ extractTemplateVariables t <-> k ∈ matchedKeys Outside t.
Proof.
  unfold extractTemplateVariables. destruct (matchedKeys Outside t) as [| v vs] eqn:E; [done |].
  unfold dedupe. rewrite dedupe_fold_elem. split; [intros [H | H]; [by apply elem_of_nil in H | done] | auto].
Qed.

Lemma extractTemplateVariables_NoDup t : NoDup (extractTemplateVariables t).
Proof.
  unfold extractTemplateVariables. destruct (matchedKeys Outside t); [apply NoDup_nil_2 |].
  apply dedupe_fold_NoDup, NoDup_nil_2.
Qed.

(** Two objects whose lookups agree on the matched keys render alike. *)
Lemma renderFrom_agree_property v1 v2 s st :
  (forall k, k ∈ matchedKeys st s -> getProperty v1 k = getProperty v2 k) ->
  renderFrom v1 st s = renderFrom v2 st s.
Proof.
  revert st. induction s as [| c s IH]; intros st H; [done |].
  destruct st as [| | | key | key]; cbn [renderFrom matchedKeys] in *;
    destruct (isWordChar c); destruct (decide (c = lbrace)); destruct (decide (c = rbrace));
    cbn [renderFrom matchedKeys] in *;
    try (erewrite IH; [reflexivity | exact H]).
  all: assert (substitute v1 key = substitute v2 key) as ->
    by (unfold substitute; rewrite (H key) by apply list_elem_of_here; done).
  all: f_equal; apply IH; intros k Hk; apply H; by apply list_elem_of_further.
Qed.

(** Two bindings that agree on the matched keys render alike. *)
Lemma renderFrom_agree v1 v2 s st :
  (forall k, k ∈ matchedKeys st s -> v1 !! k = v2 !! k) ->
  renderFrom v1 st s = renderFrom v2 st s.
Proof.
  intros H. apply renderFrom_agree_property. intros k Hk.
  unfold getProperty. by rewrite (H k Hk).
Qed.

(** When the lookup of every matched key is undefined, the pass returns
    its input. *)
Lemma renderFrom_unbound v s st :
  (forall k, k ∈ matchedKeys st s -> getProperty v k = None) ->
  renderFrom v st s = pendingText st +:+ s.
Proof.
  revert st. induction s as [| c s IH]; intros st H.
  - by rewrite string_app_nil_r.
  - destruct st as [| | | key | key]; cbn [renderFrom matchedKeys] in *;
      destruct (isWordChar c) eqn:Hw; destruct (decide (c = lbrace)) as [Hl | Hl];
      destruct (decide (c = rbrace)) as [Hr | Hr];
      cbn [renderFrom matchedKeys] in *;
      try (rewrite IH by exact H; cbn [pendingText]; try subst c;
           by rewrite ?string_app_assoc, ?string_app_cons, ?string_app_nil_l).
    all: unfold substitute; rewrite (H key) by apply list_elem_of_here.
    all: rewrite IH by (intros k Hk; apply H; by apply list_elem_of_further).
    all: cbn [pendingText]; try subst c;
      by rewrite ?string_app_assoc, ?string_app_cons, ?string_app_nil_l.
Qed.

Lemma isWordChar_not_brace c : isWordChar c = true -> c <> lbrace /\ c <> rbrace.
Proof. intros H. split; intros ->; done. Qed.

(** Inside a key: the rest of the key and the closing braces. *)
Lemma renderFrom_key vars k p s2 :
  allChars isWordChar k = true ->
  renderFrom vars (InKey p) (k +:+ "}}" +:+ s2)
    = substitute vars (p +:+ k) +:+ renderFrom vars Outside s2.
Proof.
  revert p. induction k as [| c k IH]; intros p Hk.
  - rewrite string_app_nil_r. cbn. done.
  - cbn [allChars] in Hk. apply andb_true_iff in Hk as [Hc Hk].
    rewrite string_app_cons. cbn [renderFrom]. rewrite Hc, (IH _ Hk).
    by rewrite string_app_assoc.
Qed.

Lemma matchedKeys_key k p s2 :
  allChars isWordChar k = true ->
  matchedKeys (InKey p) (k +:+ "}}" +:+ s2) = (p +:+ k) :: matchedKeys Outside s2.
Proof.
  revert p. induction k as [| c k IH]; intros p Hk.
  - rewrite string_app_nil_r. cbn. done.
  - cbn [allChars] in Hk. apply andb_true_iff in Hk as [Hc Hk].
    rewrite string_app_cons. cbn [matchedKeys]. rewrite Hc, (IH _ Hk).
    by rewrite string_app_assoc.
Qed.

Lemma placeholder_app k s2 :
  placeholder k +:+ s2 = String lbrace (String lbrace (k +:+ "}}" +:+ s2)).
Proof. unfold placeholder. by rewrite !string_app_assoc. Qed.

(** A placeholder is replaced in whatever state the pass meets it. *)
Lemma renderFrom_placeholder_here vars k s2 st :
  isTemplateKey k ->
  renderFrom vars st (placeholder k +:+ s2)
    = pendingText st +:+ substitute vars k +:+ renderFrom vars Outside s2.
Proof.
  intros [Hne Hk]. rewrite placeholder_app.
  destruct k as [| c k]; [done |]. cbn [allChars] in Hk.
  apply andb_true_iff in Hk as [Hc Hk].
  assert (renderFrom vars Open2 (String c k +:+ "}}" +:+ s2)
          = substitute vars (String c k) +:+ renderFrom vars Outside s2) as Hopen2.
  { rewrite string_app_cons. cbn [renderFrom]. rewrite Hc.
    by rewrite renderFrom_key. }
  destruct st; cbn [renderFrom pendingText]; change (isWordChar lbrace) with false;
    repeat (case_decide; [| done]); cbn [renderFrom];
    repeat (case_decide; [| done]); cbn [renderFrom];
    repeat (case_decide; try done); try (unfold lbrace, rbrace in *; discriminate);
    rewrite Hopen2; by rewrite ?string_app_assoc.
Qed.

Lemma matchedKeys_placeholder_here k s2 st :
  isTemplateKey k ->
  matchedKeys st (placeholder k +:+ s2) = k :: matchedKeys Outside s2.
Proof.
  intros [Hne Hk]. rewrite placeholder_app.
  destruct k as [| c k]; [done |]. cbn [allChars] in Hk.
  apply andb_true_iff in Hk as [Hc Hk].
  assert (matchedKeys Open2 (String c k +:+ "}}" +:+ s2)
          = String c k :: matchedKeys Outside s2) as Hopen2.
  { rewrite string_app_cons. cbn [matchedKeys]. rewrite Hc.
    by rewrite matchedKeys_key. }
  destruct st; cbn [matchedKeys]; change (isWordChar lbrace) with false;
    repeat (case_decide; [| done]); cbn [matchedKeys];
    repeat (case_decide; [| done]); cbn [matchedKeys];
    repeat (case_decide; try done); try (unfold lbrace, rbrace in *; discriminate);
    by rewrite Hopen2.
Qed.

(** The pass over a text that holds a placeholder splits at it. *)
Lemma renderFrom_app_placeholder vars k s1 s2 st :
  isTemplateKey k ->
  renderFrom vars st (s1 +:+ placeholder k +:+ s2)
    = renderFrom vars st s1 +:+ substitute vars k +:+ renderFrom vars Outside s2.
Proof.
  intros Hk. revert st. induction s1 as [| c s1 IH]; intros st.
  - rewrite string_app_nil_l. by apply renderFrom_placeholder_here.
  - rewrite string_app_cons.
    destruct st; cbn [renderFrom];
      destruct (isWordChar c); destruct (decide (c = lbrace)); destruct (decide (c = rbrace));
      rewrite IH; by rewrite ?string_app_assoc.
Qed.

Lemma matchedKeys_app_placeholder k s1 s2 st :
  isTemplateKey k ->
  matchedKeys st (s1 +:+ placeholder k +:+ s2)
    = matchedKeys st s1 ++ k :: matchedKeys Outside s2.
Proof.
  intros Hk. revert st. induction s1 as [| c s1 IH]; intros st.
  - rewrite string_app_nil_l. by apply matchedKeys_placeholder_here.
  - rewrite string_app_cons.
    destruct st; cbn [matchedKeys];
      destruct (isWordChar c); destruct (decide (c = lbrace)); destruct (decide (c = rbrace));
      by rewrite IH.
Qed.

Ltac str_norm :=
  repeat first [rewrite string_app_assoc | rewrite string_app_cons | rewrite string_app_nil_l].

Lemma occurs_shift k x a b :
  (exists s1 s2, a = s1 +:+ placeholder k +:+ s2) ->
  b = x +:+ a ->
  exists s1 s2, b = s1 +:+ placeholder k +:+ s2.
Proof.
  intros (s1 & s2 & ->) ->. exists (x +:+ s1), s2. by rewrite string_app_assoc.
Qed.

Lemma isTemplateKey_snoc p c :
  isTemplateKey p -> isWordChar c = true -> isTemplateKey (p +:+ String c "").
Proof.
  intros [Hne Hp] Hc. split.
  - by destruct p.
  - rewrite allChars_app, Hp. cbn. by rewrite Hc.
Qed.

(** A matched key is a key, and its placeholder stands in the text read so
    far. *)
Lemma matchedKeys_occurs k s st :
  match st with InKey p | Close1 p => isTemplateKey p | _ => True end ->
  k ∈ matchedKeys st s ->
  isTemplateKey k /\ exists s1 s2, pendingText st +:+ s = s1 +:+ placeholder k +:+ s2.
Proof.
  revert st. induction s as [| c s IH]; intros st Hwf Hk.
  { by apply elem_of_nil in Hk. }
  assert (forall st' x,
    match st' with InKey p | Close1 p => isTemplateKey p | _ => True end ->
    k ∈ matchedKeys st' s ->
    pendingText st +:+ String c s = x +:+ (pendingText st' +:+ s) ->
    isTemplateKey k /\ exists s1 s2, pendingText st +:+ String c s = s1 +:+ placeholder k +:+ s2)
    as Hstep.
  { intros st' x Hwf' Hk' Heq. destruct (IH st' Hwf' Hk') as [Hkey Hocc].
    split; [done |]. by eapply occurs_shift. }
  destruct st as [| | | p | p]; cbn [matchedKeys] in Hk.
  - destruct (decide (c = lbrace)) as [-> | ?].
    + by apply (Hstep Open1 "").
    + by apply (Hstep Outside (String c "")).
  - destruct (decide (c = lbrace)) as [-> | ?].
    + by apply (Hstep Open2 "").
    + by apply (Hstep Outside ("{" +:+ String c "")).
  - destruct (isWordChar c) eqn:Hc; [| destruct (decide (c = lbrace)) as [-> | ?]].
    + apply (Hstep (InKey (String c "")) ""); [| done | done].
      split; [done |]. cbn. by rewrite Hc.
    + by apply (Hstep Open2 "{").
    + by apply (Hstep Outside ("{{" +:+ String c "")).
  - destruct (isWordChar c) eqn:Hc;
      [| destruct (decide (c = rbrace)) as [-> | ?];
         [| destruct (decide (c = lbrace)) as [-> | ?]]].
    + apply (Hstep (InKey (p +:+ String c "")) ""); [| done |].
      * by apply isTemplateKey_snoc.
      * cbn [pendingText]. by str_norm.
    + apply (Hstep (Close1 p) ""); [done | done |]. cbn [pendingText]. by str_norm.
    + apply (Hstep Open1 ("{{" +:+ p)); [done | done |]. cbn [pendingText]. by str_norm.
    + apply (Hstep Outside ("{{" +:+ p +:+ String c "")); [done | done |].
      cbn [pendingText]. by str_norm.
  - destruct (decide (c = rbrace)) as [-> | ?];
      [| destruct (decide (c = lbrace)) as [-> | ?]].
    + apply elem_of_cons in Hk as [-> | Hk].
      * split; [done |]. exists "", s. unfold placeholder. cbn [pendingText]. by str_norm.
      * apply (Hstep Outside (placeholder p)); [done | done |].
        unfold placeholder. cbn [pendingText]. by str_norm.
    + apply (Hstep Open1 ("{{" +:+ p +:+ "}")); [done | done |].
      cbn [pendingText]. by str_norm.
    + apply (Hstep Outside ("{{" +:+ p +:+ "}" +:+ String c "")); [done | done |].
      cbn [pendingText]. by str_norm.
Qed.

(** Two bindings that agree on the extracted variables render alike. *)
Lemma renderTemplate_agree template (v1 v2 : gmap string string) :
  (forall k, k ∈ extractTemplateVariables template -> v1 !! k = v2 !! k) ->
  renderTemplate template v1 = renderTemplate template v2.
Proof.
  intros Hagree. unfold renderTemplate. apply renderFrom_agree. intros k Hk.
  apply Hagree. by apply extractTemplateVariables_elem.
Qed.

End Templates.

(** The unit tests of [extractTemplateVariables]. *)
Example extractTemplateVariables_extracts :
  Utils.extractTemplateVariables "Hello {{name}}! Welcome to {{company}}." = ["name"; "company"].
Proof. vm_compute. reflexivity. Qed.

Example extractTemplateVariables_removes_duplicates :
  Utils.extractTemplateVariables "{{name}} {{name}}" = ["name"].
Proof. vm_compute. reflexivity. Qed.

Example extractTemplateVariables_without_variables :
  Utils.extractTemplateVariables "Hello World!" = [].
Proof. vm_compute. reflexivity. Qed.

(** A key that no object binds is still defined when [Object.prototype]
    has it. *)
Example renderTemplate_inherited_key :
  Utils.renderTemplate "{{constructor}} {{name}} {{__proto__}}" ∅
    = "function Object() { [native code] } {{name}} [object Object]".
Proof. vm_compute. reflexivity. Qed.

(** X6.  Wherever a placeholder stands, [renderTemplate] replaces it by
    [variables[key]], the object's own property or else the one inherited
    from [Object.prototype], and leaves it as it is only when that lookup is
    undefined.  The text before the placeholder and the text after it are
    rendered on their own: a value is not scanned again. *)
Theorem renderTemplate_placeholder (variables : gmap string string) (k s1 s2 : string) :
  isTemplateKey k ->
  Utils.renderTemplate (s1 +:+ placeholder k +:+ s2) variables
    = Utils.renderTemplate s1 variables
      +:+ default (placeholder k) (Utils.getProperty variables k)
      +:+ Utils.renderTemplate s2 variables.
Proof.
  intros Hk. unfold Utils.renderTemplate. rewrite renderFrom_app_placeholder by done.
  unfold Utils.substitute, placeholder. by destruct (Utils.getProperty variables k).
Qed.

Lemma renderTemplate_placeholder_witness :
  Utils.renderTemplate ("Dear " +:+ placeholder "name" +:+ ", {{unknown}}")
      {[ "name" := "{{unknown}}" ]}
    = "Dear {{unknown}}, {{unknown}}" /\
  Utils.renderTemplate ("" +:+ placeholder "toString" +:+ "") {[ "name" := "Ann" ]}
    = "function toString() { [native code] }".
Proof.
  split.
  - rewrite (renderTemplate_placeholder {[ "name" := "{{unknown}}" ]} "name"
               "Dear " ", {{unknown}}").
    + vm_compute. reflexivity.
    + split; [discriminate | reflexivity].
  - rewrite (renderTemplate_placeholder {[ "name" := "Ann" ]} "toString" "" "").
    + vm_compute. reflexivity.
    + split; [discriminate | reflexivity].
Defined.

(** X7.  [extractTemplateVariables] returns exactly the keys whose
    placeholder occurs in the template, each of them once. *)
Theorem extractTemplateVariables_spec (template k : string) :
  NoDup (Utils.extractTemplateVariables template) /\
  (k ∈ Utils.extractTemplateVariables template <->
   isTemplateKey k /\ exists s1 s2, template = s1 +:+ placeholder k +:+ s2).
Proof.
  split; [apply extractTemplateVariables_NoDup |].
  rewrite extractTemplateVariables_elem. split.
  - intros Hk. by apply (matchedKeys_occurs k template Utils.Outside).
  - intros (Hk & s1 & s2 & ->). rewrite matchedKeys_app_placeholder by done.
    apply elem_of_app. right. apply list_elem_of_here.
Qed.

(** X8.  [renderTemplate] reads the bindings of the variables that
    [extractTemplateVariables] lists and no other: two bindings that agree
    on them give the same text.  The template comes back unchanged when
    [variables[key]] is undefined for each of them, that is when the key is
    neither bound nor a property of [Object.prototype]. *)
Theorem renderTemplate_reads_extracted (template : string) (v1 v2 : gmap string string) :
  (forall k, k ∈ Utils.extractTemplateVariables template -> v1 !! k = v2 !! k) ->
  Utils.renderTemplate template v1 = Utils.renderTemplate template v2 /\
  ((forall k, k ∈ Utils.extractTemplateVariables template ->
      v1 !! k = None /\ Utils.objectPrototype k = None) ->
   Utils.renderTemplate template v1 = template).
Proof.
  intros Hagree. unfold Utils.renderTemplate. split.
  - apply renderFrom_agree. intros k Hk. apply Hagree.
    by apply extractTemplateVariables_elem.
  - intros Hnone. rewrite renderFrom_unbound; [done |].
    intros k Hk. unfold Utils.getProperty.
    destruct (Hnone k) as [-> ->]; [by apply extractTemplateVariables_elem | done].
Qed.

Lemma renderTemplate_reads_extracted_witness :
  Utils.renderTemplate "Hi {{first}} {{last}}" {[ "first" := "Ann"; "zip" := "75001" ]}
    = Utils.renderTemplate "Hi {{first}} {{last}}" {[ "first" := "Ann" ]}.
Proof.
  apply (renderTemplate_reads_extracted "Hi {{first}} {{last}}"
           {[ "first" := "Ann"; "zip" := "75001" ]} {[ "first" := "Ann" ]}).
  intros k Hk.
  assert (k = "first" \/ k = "last") as [-> | ->].
  { vm_compute in Hk. apply elem_of_cons in Hk as [-> | Hk]; [by left |].
    apply elem_of_cons in Hk as [-> | Hk]; [by right |]. by apply elem_of_nil in Hk. }
  - reflexivity.
  - reflexivity.
Defined.

(** ** Idempotency store *)

Section Idempotency.
Import IdempotencyService.

(** X9.  A stored response is served for its whole lifetime and to its own
    scope only: after [store] on a free key, [check] with the same scope
    returns the response at every instant up to the expiry, included, and
    changes nothing; with another scope it reports no entry; after the
    expiry it reports no entry and deletes the row, which leaves the table
    as it was before [store]. *)
Theorem store_then_check (key scope : string) (response : SendResponse) (now : Z) (w : World) :
  idempotencyKeys w !! key = None ->
  let record := {| idem_scope := scope; idem_response := response;
                   idem_expiresAt := now + IDEMPOTENCY_TTL_MS |} in
  exists w1,
    store key scope response now w = (w1, Return tt) /\
    (forall later, later <= now + IDEMPOTENCY_TTL_MS ->
       check key scope later w1 = (w1, Return (Some record)) /\
       forall other, other <> scope -> check key other later w1 = (w1, Return None)) /\
    (forall later other, now + IDEMPOTENCY_TTL_MS < later ->
       check key other later w1 = (w, Return None)).
Proof.
  intros Hfree record. unfold store. rewrite Hfree. eexists. split; [reflexivity |].
  split.
  - intros later Hlater. unfold check. cbn. rewrite lookup_insert_eq. cbn.
    replace (now + IDEMPOTENCY_TTL_MS <? later) with false by (symmetry; apply Z.ltb_ge; lia).
    split.
    + by rewrite decide_True.
    + intros other Hother. by rewrite decide_False.
  - intros later other Hlater. unfold check. cbn. rewrite lookup_insert_eq. cbn.
    replace (now + IDEMPOTENCY_TTL_MS <? later) with true by (symmetry; apply Z.ltb_lt; lia).
    f_equal. destruct w. unfold set_idempotencyKeys. cbn in *. f_equal.
    rewrite delete_insert_eq. by apply delete_id.
Qed.

Lemma store_then_check_witness :
  let response := {| resp_messageId := "m1"; resp_status := MS_QUEUED |} in
  exists w1,
    store "k1" "send:p1" response 1000 emptyWorld = (w1, Return tt) /\
    (check "k1" "send:p1" (1000 + IDEMPOTENCY_TTL_MS) w1).2
      = Return (Some {| idem_scope := "send:p1"; idem_response := response;
                        idem_expiresAt := 1000 + IDEMPOTENCY_TTL_MS |}) /\
    check "k1" "send:p1" (1001 + IDEMPOTENCY_TTL_MS) w1 = (emptyWorld, Return None).
Proof.
  intros response.
  destruct (store_then_check "k1" "send:p1" response 1000 emptyWorld)
    as (w1 & Hstore & Hlive & Hdead); [reflexivity |].
  exists w1. split; [exact Hstore |]. split.
  - destruct (Hlive (1000 + IDEMPOTENCY_TTL_MS)) as [-> _]; [lia | reflexivity].
  - apply Hdead. lia.
Defined.

(** X10.  [cleanup] cannot be observed through [check]: at the instant of
    the clean-up or later, [check] answers the same with and without it.
    The number [cleanup] returns is the number of rows it removed, and it
    writes to no other table. *)
Theorem cleanup_unobservable (now later : Z) (key scope : string) (w : World) :
  now <= later ->
  exists w1 count,
    cleanup now w = (w1, Return count) /\
    (check key scope later w1).2 = (check key scope later w).2 /\
    Z.of_nat (size (idempotencyKeys w)) = Z.of_nat (size (idempotencyKeys w1)) + count /\
    messages w1 = messages w /\ events w1 = events w /\
    sendEmailQueue w1 = sendEmailQueue w /\ rateLimits w1 = rateLimits w.
Proof.
  intros Hlater. unfold cleanup. eexists _, _. split; [reflexivity |]. split; [| split].
  - unfold check. cbn.
    destruct (idempotencyKeys w !! key) as [record |] eqn:Hkey.
    + destruct (decide (idem_expiresAt record < now)) as [Hexp | Hlive].
      * rewrite (proj2 (map_lookup_filter_None _ _ _)).
        2: { right. intros x Hx. rewrite Hkey in Hx. simplify_eq. unfold expired. cbn. tauto. }
        replace (idem_expiresAt record <? later) with true by (symmetry; apply Z.ltb_lt; lia).
        done.
      * rewrite (proj2 (map_lookup_filter_Some _ _ _ _)) by (split; [exact Hkey | exact Hlive]).
        destruct (idem_expiresAt record <? later); [done |].
        by destruct (decide (idem_scope record = scope)).
    + rewrite (proj2 (map_lookup_filter_None _ _ _)); [done |]. by left.
  - cbn. rewrite <- Nat2Z.inj_add. f_equal.
    rewrite <- (map_filter_union_complement (expired now) (idempotencyKeys w)) at 1.
    rewrite map_size_disj_union by apply map_disjoint_filter_complement. lia.
  - done.
Qed.

Lemma cleanup_unobservable_witness :
  let response := {| resp_messageId := "m1"; resp_status := MS_QUEUED |} in
  let w := (store "k1" "send:p1" response 1000 emptyWorld).1 in
  (cleanup (1001 + IDEMPOTENCY_TTL_MS) w).2 = Return 1 /\
  (check "k1" "send:p1" (1002 + IDEMPOTENCY_TTL_MS) (cleanup (1001 + IDEMPOTENCY_TTL_MS) w).1).2
    = (check "k1" "send:p1" (1002 + IDEMPOTENCY_TTL_MS) w).2.
Proof.
  intros response w.
  destruct (cleanup_unobservable (1001 + IDEMPOTENCY_TTL_MS) (1002 + IDEMPOTENCY_TTL_MS)
              "k1" "send:p1" w) as (w1 & count & Hrun & Hcheck & _); [lia |].
  assert ((cleanup (1001 + IDEMPOTENCY_TTL_MS) w).2 = Return 1) as Hcount
    by (vm_compute; reflexivity).
  rewrite Hrun in *. split; [exact Hcount | exact Hcheck].
Defined.

End Idempotency.

(** ** Rate limiter *)

Section RateLimit.
Import RateLimiter.

Lemma filter_filter_weaker {A} (P Q : A -> Prop) `{!forall x, Decision (P x)}
    `{!forall x, Decision (Q x)} (l : list A) :
  (forall x, x ∈ l -> P x -> Q x) -> filter P (filter Q l) = filter P l.
Proof.
  induction l as [| x l IH]; intros Himp; [done |].
  rewrite !filter_cons.
  destruct (decide (Q x)) as [HQ | HQ].
  - rewrite filter_cons. destruct (decide (P x));
      (rewrite IH; [done | intros y Hy; apply Himp; by apply list_elem_of_further]).
  - destruct (decide (P x)) as [HP | HP].
    + exfalso. apply HQ, Himp; [apply list_elem_of_here | done].
    + apply IH. intros y Hy. apply Himp. by apply list_elem_of_further.
Qed.

Lemma filter_ext_in {A} (P Q : A -> Prop) `{!forall x, Decision (P x)}
    `{!forall x, Decision (Q x)} (l : list A) :
  (forall x, x ∈ l -> P x <-> Q x) -> filter P l = filter Q l.
Proof.
  induction l as [| x l IH]; intros Hiff; [done |].
  rewrite !filter_cons.
  assert (filter P l = filter Q l) as ->
    by (apply IH; intros y Hy; apply Hiff; by apply list_elem_of_further).
  destruct (decide (P x)) as [HP | HP], (decide (Q x)) as [HQ | HQ]; try done.
  - exfalso. apply HQ, Hiff; [apply list_elem_of_here | done].
  - exfalso. apply HP, Hiff; [apply list_elem_of_here | done].
Qed.

(** The limiter's set and the history of requests hold the same recent
    instants. *)
Lemma verdicts_window cfg key times :
  forall (lo : Z) (stored earlier : list Z) (w : World),
    ascendingFrom lo times ->
    default [] (rateLimits w !! (RATE_LIMIT_PREFIX +:+ key)) = stored ->
    (forall s, s ∈ stored -> 0 <= s) ->
    0 <= lo ->
    (forall t, lo <= t ->
       filter (fun s => t - rateLimit_windowMs cfg < s) stored
       = filter (fun s => t - rateLimit_windowMs cfg < s) earlier) ->
    verdicts cfg key times w
    = slidingWindow (rateLimit_windowMs cfg) (rateLimit_maxRequests cfg) earlier times.
Proof.
  induction times as [| t times IH]; intros lo stored earlier w Hasc Hstored Hpos Hlo Hinv;
    [done |].
  destruct Hasc as [Hlt Hasc]. cbn [verdicts slidingWindow].
  unfold checkLimit. rewrite Hstored. cbn [allowed].
  assert (filter (fun score : Z => ~ (0 <= score <= t - rateLimit_windowMs cfg)) stored
          = filter (fun s => t - rateLimit_windowMs cfg < s) stored) as Hkeep.
  { apply filter_ext_in. intros s Hs. specialize (Hpos s Hs). lia. }
  rewrite Hkeep, (Hinv t Hlt). f_equal.
  apply (IH t (filter (fun s => t - rateLimit_windowMs cfg < s) earlier ++ [t])).
  - done.
  - cbn. by rewrite lookup_insert_eq.
  - intros s [Hs | Hs]%elem_of_app.
    + rewrite <- (Hinv t Hlt) in Hs. apply list_elem_of_filter in Hs as [_ Hs]. by apply Hpos.
    + apply list_elem_of_singleton in Hs as ->. lia.
  - lia.
  - intros t' Ht'. rewrite !filter_app. f_equal.
    rewrite filter_filter_weaker; [done |]. intros x _. lia.
Qed.

End RateLimit.

(** X11.  The rate limiter is a sliding window over every request, admitted
    or refused.  On a key that has no history, for requests made at
    instants that do not go back, the request at [t] is admitted exactly
    when fewer than [maxRequests] earlier requests came after
    [t - windowMs]. *)
Theorem rate_limiter_sliding_window (cfg : ApiConfig) (key : string) (times : list Z)
    (w : World) :
  rateLimits w !! (RateLimiter.RATE_LIMIT_PREFIX +:+ key) = None ->
  ascendingFrom 0 times ->
  verdicts cfg key times w
  = slidingWindow (rateLimit_windowMs cfg) (rateLimit_maxRequests cfg) [] times.
Proof.
  intros Hnone Hasc. apply (verdicts_window cfg key times 0 [] [] w); try done.
  - by rewrite Hnone.
  - intros s Hs. by apply elem_of_nil in Hs.
Qed.

Lemma rate_limiter_sliding_window_witness :
  verdicts {| rateLimit_windowMs := 60000; rateLimit_maxRequests := 2 |} "project:p1"
    [1000; 2000; 3000; 61500; 63500] emptyWorld
  = [true; true; false; false; true].
Proof.
  rewrite (rate_limiter_sliding_window
             {| rateLimit_windowMs := 60000; rateLimit_maxRequests := 2 |} "project:p1"
             [1000; 2000; 3000; 61500; 63500] emptyWorld).
  - vm_compute. reflexivity.
  - reflexivity.
  - cbn. lia.
Defined.

(** ** Send service: what a call writes *)

Section SendOutcome.
Import EmailService.

#[local] Arguments Utils.renderTemplate : simpl never.
#[local] Arguments afterRateLimit : simpl never.

Lemma resolveContent_inl_code p data w r :
  (resolveContent p data w).2 = Return (inl r) ->
  exists tid tpl msg,
    truthy (req_templateId data) = Some tid /\
    (templates w !! tid = None \/
     (templates w !! tid = Some tpl /\ tpl_projectId tpl <> p)) /\
    r = ApiError "TEMPLATE_NOT_FOUND" msg.
Proof.
  unfold resolveContent. io_unfold.
  destruct (truthy (req_templateId data)) as [tid |]; [| done].
  destruct (templates w !! tid) as [tpl |] eqn:Htpl; cbn.
  - destruct (decide (tpl_projectId tpl = p)); cbn; [done |].
    intros [= <-]. exists tid, tpl. eexists. eauto.
  - intros [= <-]. exists tid. eexists {| tpl_projectId := ""; tpl_subject := "";
                                          tpl_html := None; tpl_text := None |}, _. eauto.
Qed.

(** The three ways the second part of [sendEmail] can end. *)
Lemma body_cases now newId p apiKeyId data options w :
  (exists code msg,
     sendEmail_body now newId p apiKeyId data options w = (w, Return (ApiError code msg)) /\
     code ∈ ["RECIPIENT_SUPPRESSED"; "TEMPLATE_NOT_FOUND"; "MISSING_CONTENT"]) \/
  sendEmail_body now newId p apiKeyId data options w = (w, Throw (P2002_unique "id")) \/
  (messages w !! newId = None /\
   exists m j,
     msg_status m = MS_QUEUED /\ msg_projectId m = p /\
     qj_name j = "send:" +:+ newId /\ job_messageId (qj_data j) = newId /\
     sendEmail_body now newId p apiKeyId data options w =
       storeStep options p newId now
         (acceptedWorld newId m (queuedEvent newId apiKeyId now) j w)).
Proof.
  destruct (findSuppressed (suppressions w) p (normalizeRecipients (req_to data)))
    as [[r0 row] |] eqn:Hsup.
  { left. eexists _, _. split; [by apply body_suppressed | elem_here]. }
  pose proof (resolveContent_world p data w) as Hw.
  destruct (resolveContent p data w) as [w0 out] eqn:Er. cbn in Hw. subst w0.
  destruct out as [[r | c] | e].
  - destruct (resolveContent_inl_code p data w r) as (tid & tpl & msg & _ & _ & ->);
      [by rewrite Er |].
    left. eexists _, _. split; [| shelve].
    unfold sendEmail_body. unfold mbind at 1, IO_bind at 1, gets. rewrite Hsup.
    unfold mbind at 1, IO_bind at 1. rewrite Er. reflexivity.
    Unshelve. elem_here.
  - destruct (decide (truthy (c_htmlBody c) = None /\ truthy (c_textBody c) = None))
      as [[H1 H2] | Hc].
    { left. eexists _, _. split; [| shelve].
      unfold sendEmail_body. unfold mbind at 1, IO_bind at 1, gets. rewrite Hsup.
      unfold mbind at 1, IO_bind at 1. rewrite Er, H1, H2. reflexivity.
      Unshelve. elem_here. }
    destruct (messages w !! newId) as [m0 |] eqn:Hfresh.
    { destruct (body_not_accepted now newId p apiKeyId data options w) as [(code & msg & H) | H].
      - right; right; right. rewrite Hfresh. eauto.
      - exfalso. revert H.
        unfold sendEmail_body. unfold mbind at 1, IO_bind at 1, gets. rewrite Hsup.
        unfold mbind at 1, IO_bind at 1. rewrite Er.
        destruct (truthy (c_htmlBody c)) eqn:Eh, (truthy (c_textBody c)) eqn:Et;
          try (by destruct Hc);
          unfold createMessage; io_unfold; rewrite Hfresh; done.
      - by right; left. }
    right; right. split; [done |].
    destruct (body_accepted now newId p apiKeyId data options w c Hsup) as
      (m & j & Hm1 & Hm2 & Hm3 & Hj1 & Hj2 & Hj3 & Hbody); [by rewrite Er | | done |].
    { destruct (truthy (c_htmlBody c)), (truthy (c_textBody c)); eauto. by destruct Hc. }
    exists m, j. done.
  - by destruct (resolveContent_no_throw p data w e); rewrite Er.
Qed.

(** How the first part of [sendEmail] can end, and what it leaves
    untouched. *)
Lemma precheck_cases cfg now p options w :
  exists w2 out,
    sendEmail_precheck cfg now p options w = (w2, Return out) /\
    messages w2 = messages w /\ events w2 = events w /\ suppressions w2 = suppressions w /\
    templates w2 = templates w /\ sendEmailQueue w2 = sendEmailQueue w /\
    webhookQueue w2 = webhookQueue w /\
    rateLimits w2 = rateLimits (afterRateLimit cfg p now w) /\
    match out with
    | inl r =>
        (rateLimitAllows cfg p now w = false /\
         r = ApiError "RATE_LIMIT_EXCEEDED" "Rate limit exceeded. Please try again later.") \/
        (rateLimitAllows cfg p now w = true /\
         exists key record,
           truthy (idempotencyKey options) = Some key /\
           idempotencyKeys w !! key = Some record /\
           idem_scope record = scopeOf p /\ now <= idem_expiresAt record /\
           idempotencyKeys w2 = idempotencyKeys w /\
           r = ApiSuccess (idem_response record))
    | inr _ => rateLimitAllows cfg p now w = true
    end.
Proof.
  destruct (afterRateLimit_frame cfg p now w) as (Fm & Fe & Fs & Ft & Fi & Fq & Fwq).
  destruct (rateLimitAllows cfg p now w) eqn:Hrl.
  2: { rewrite precheck_rate_limited by done. eexists _, _. split; [reflexivity |].
       repeat (split; [done |]). by left. }
  rewrite precheck_admitted by done.
  destruct (truthy (idempotencyKey options)) as [key |] eqn:Hkey.
  2: { eexists _, _. split; [reflexivity |]. done. }
  unfold IdempotencyService.check. rewrite Fi.
  destruct (idempotencyKeys w !! key) as [record |] eqn:Hrec.
  2: { eexists _, _. split; [reflexivity |]. done. }
  destruct (idem_expiresAt record <? now) eqn:Hexp.
  { eexists _, _. split; [reflexivity |]. done. }
  apply Z.ltb_ge in Hexp.
  destruct (decide (idem_scope record = scopeOf p)) as [Hscope | Hscope].
  2: { eexists _, _. split; [reflexivity |]. done. }
  eexists _, _. split; [reflexivity |]. repeat (split; [done |]).
  right. split; [done |]. exists key, record. done.
Qed.

Lemma storeStep_cases options p newId now wAcc :
  (storeStep options p newId now wAcc = (wAcc, Throw (P2002_unique "key"))) \/
  (exists w1, storeStep options p newId now wAcc = (w1, Return (ApiSuccess (queuedResponse newId))) /\
     messages w1 = messages wAcc /\ events w1 = events wAcc /\
     suppressions w1 = suppressions wAcc /\ templates w1 = templates wAcc /\
     sendEmailQueue w1 = sendEmailQueue wAcc /\ webhookQueue w1 = webhookQueue wAcc /\
     rateLimits w1 = rateLimits wAcc).
Proof.
  unfold storeStep. destruct (truthy (idempotencyKey options)) as [k |].
  - destruct (idempotencyKeys wAcc !! k); [by left |]. right. eexists. split; [reflexivity |]. done.
  - right. eexists. split; [reflexivity |]. done.
Qed.

(** What an error response of [sendEmail] tells. *)
Lemma sendEmail_error_cases cfg now newId p apiKeyId data options w w' code msg :
  sendEmail cfg now newId p apiKeyId data options w = (w', Return (ApiError code msg)) ->
  code ∈ ["RATE_LIMIT_EXCEEDED"; "RECIPIENT_SUPPRESSED"; "TEMPLATE_NOT_FOUND"; "MISSING_CONTENT"] /\
  (code = "RATE_LIMIT_EXCEEDED" <-> rateLimitAllows cfg p now w = false) /\
  messages w' = messages w /\ events w' = events w /\
  suppressions w' = suppressions w /\ templates w' = templates w /\
  sendEmailQueue w' = sendEmailQueue w /\ webhookQueue w' = webhookQueue w.
Proof.
  intros Hrun. unfold sendEmail in Hrun. unfold mbind at 1, IO_bind at 1 in Hrun.
  destruct (precheck_cases cfg now p options w)
    as (w2 & out & Hpre & Fm & Fe & Fs & Ft & Fq & Fwq & Frl & Hout).
  rewrite Hpre in Hrun. unfold mret, IO_ret in Hrun. destruct out as [r | []].
  - cbn in Hrun. destruct Hout as [[Hrl ->] | [Hrl (key & record & _ & _ & _ & _ & _ & ->)]];
      simplify_eq.
    split; [elem_here |]. split; [by split |]. done.
  - destruct (body_cases now newId p apiKeyId data options w2)
      as [(code' & msg' & Hbody & Hcode) | [Hbody | (_ & m & j & _ & _ & _ & _ & Hbody)]];
      rewrite Hbody in Hrun.
    + simplify_eq. split; [by apply list_elem_of_further |]. split; [| done].
      rewrite Hout. split; [| done]. intros ->. elem_cases Hcode; done.
    + simplify_eq.
    + destruct (storeStep_cases options p newId now
                  (acceptedWorld newId m (queuedEvent newId apiKeyId now) j w2))
        as [Hst | (w1 & Hst & _)]; rewrite Hst in Hrun; simplify_eq.
Qed.

(** What a rejection of [sendEmail] tells: the rate limiter admitted the
    request and the database refused an insert, either the message row,
    before anything was written, or the idempotency key, after the message
    row, the event and the job were written. *)
Lemma sendEmail_throw_cases cfg now newId p apiKeyId data options w w' e :
  sendEmail cfg now newId p apiKeyId data options w = (w', Throw e) ->
  rateLimitAllows cfg p now w = true /\
  (e = P2002_unique "id" /\
   messages w' = messages w /\ events w' = events w /\
   sendEmailQueue w' = sendEmailQueue w /\ webhookQueue w' = webhookQueue w \/
   e = P2002_unique "key" /\ messages w !! newId = None /\
   exists m j,
     messages w' = <[newId := m]> (messages w) /\
     events w' = events w ++ [queuedEvent newId apiKeyId now] /\
     sendEmailQueue w' = sendEmailQueue w ++ [j]).
Proof.
  intros Hrun. unfold sendEmail in Hrun. unfold mbind at 1, IO_bind at 1 in Hrun.
  destruct (precheck_cases cfg now p options w)
    as (w2 & out & Hpre & Fm & Fe & Fs & Ft & Fq & Fwq & Frl & Hout).
  rewrite Hpre in Hrun. unfold mret, IO_ret in Hrun. destruct out as [r | []].
  - cbn in Hrun. simplify_eq.
  - split; [exact Hout |].
    destruct (body_cases now newId p apiKeyId data options w2)
      as [(code' & msg' & Hbody & Hcode) | [Hbody | (Hfresh & m & j & _ & _ & _ & _ & Hbody)]];
      rewrite Hbody in Hrun.
    + simplify_eq.
    + simplify_eq. by left.
    + destruct (storeStep_cases options p newId now
                  (acceptedWorld newId m (queuedEvent newId apiKeyId now) j w2))
        as [Hst | (w1 & Hst & _)]; rewrite Hst in Hrun; simplify_eq.
      right. split; [done |]. split; [by rewrite <- Fm |]. exists m, j.
      cbn. by rewrite Fm, Fe, Fq.
Qed.


(** X12.  An error response of [sendEmail] means that nothing was accepted:
    the message, event, suppression and template tables and both queues
    are as before the call.  The error code is one of four, and it is
    RATE_LIMIT_EXCEEDED exactly when the rate limiter refused the
    request. *)
Theorem sendEmail_error_writes_nothing cfg now newId p apiKeyId data options w w' code msg :
  sendEmail cfg now newId p apiKeyId data options w = (w', Return (ApiError code msg)) ->
  code ∈ ["RATE_LIMIT_EXCEEDED"; "RECIPIENT_SUPPRESSED"; "TEMPLATE_NOT_FOUND"; "MISSING_CONTENT"] /\
  (code = "RATE_LIMIT_EXCEEDED" <-> rateLimitAllows cfg p now w = false) /\
  messages w' = messages w /\ events w' = events w /\
  suppressions w' = suppressions w /\ templates w' = templates w /\
  sendEmailQueue w' = sendEmailQueue w /\ webhookQueue w' = webhookQueue w.
Proof. apply sendEmail_error_cases. Qed.

Lemma sendEmail_error_writes_nothing_witness :
  let run := sendEmail defaultApiConfig 1000 "m1" "p1" "ak1" Fixtures.request1
               Fixtures.plainOptions (Fixtures.suppressAnn emptyWorld) in
  run.2 = Return (ApiError "RECIPIENT_SUPPRESSED"
                    "Recipient ann@example.com is suppressed: BOUNCE") /\
  messages run.1 = ∅ /\ sendEmailQueue run.1 = [].
Proof.
  intros run.
  assert (run.2 = Return (ApiError "RECIPIENT_SUPPRESSED"
                            "Recipient ann@example.com is suppressed: BOUNCE")) as Hout
    by (vm_compute; reflexivity).
  split; [exact Hout |].
  destruct (sendEmail_error_writes_nothing defaultApiConfig 1000 "m1" "p1" "ak1"
              Fixtures.request1 Fixtures.plainOptions (Fixtures.suppressAnn emptyWorld)
              run.1 "RECIPIENT_SUPPRESSED" "Recipient ann@example.com is suppressed: BOUNCE")
    as (_ & _ & Hm & _ & _ & _ & Hq & _).
  - rewrite <- Hout. apply surjective_pairing.
  - split; [exact Hm | exact Hq].
Defined.

(** X13.  A successful [sendEmail] is one of two things.  Either it replays
    the response stored under the idempotency key, for this project and not
    yet expired, and writes no message, event or job; or it returns the new
    id with status QUEUED after writing exactly one message row under
    that id, QUEUED and owned by the project, one QUEUED event and one job
    named after the id at the end of the send-email queue. *)
Theorem sendEmail_success_replays_or_queues cfg now newId p apiKeyId data options w w' resp :
  sendEmail cfg now newId p apiKeyId data options w = (w', Return (ApiSuccess resp)) ->
  (exists key record,
     truthy (idempotencyKey options) = Some key /\
     idempotencyKeys w !! key = Some record /\
     idem_scope record = scopeOf p /\ now <= idem_expiresAt record /\
     resp = idem_response record /\
     messages w' = messages w /\ events w' = events w /\
     sendEmailQueue w' = sendEmailQueue w /\ idempotencyKeys w' = idempotencyKeys w) \/
  (resp = queuedResponse newId /\ messages w !! newId = None /\
   exists m j,
     messages w' = <[newId := m]> (messages w) /\
     msg_status m = MS_QUEUED /\ msg_projectId m = p /\
     events w' = events w ++ [queuedEvent newId apiKeyId now] /\
     sendEmailQueue w' = sendEmailQueue w ++ [j] /\
     qj_name j = "send:" +:+ newId /\ job_messageId (qj_data j) = newId).
Proof.
  intros Hrun. unfold sendEmail in Hrun. unfold mbind at 1, IO_bind at 1 in Hrun.
  destruct (precheck_cases cfg now p options w)
    as (w2 & out & Hpre & Fm & Fe & Fs & Ft & Fq & Fwq & Frl & Hout).
  rewrite Hpre in Hrun. unfold mret, IO_ret in Hrun. destruct out as [r | []].
  - cbn in Hrun.
    destruct Hout as [[Hrl ->] | [Hrl (key & record & Hk & Hrec & Hsc & Hlive & Hi & ->)]];
      simplify_eq.
    left. exists key, record. done.
  - destruct (body_cases now newId p apiKeyId data options w2)
      as [(code' & msg' & Hbody & Hcode) | [Hbody | (Hfresh & m & j & Hm1 & Hm2 & Hj1 & Hj2 & Hbody)]];
      rewrite Hbody in Hrun; [simplify_eq | simplify_eq |].
    destruct (storeStep_cases options p newId now
                (acceptedWorld newId m (queuedEvent newId apiKeyId now) j w2))
      as [Hst | (w1 & Hst & Sm & Se & _ & _ & Sq & _)]; rewrite Hst in Hrun; simplify_eq.
    right. split; [done |]. split; [by rewrite <- Fm |]. exists m, j.
    rewrite Sm, Se, Sq. cbn. rewrite Fm, Fe, Fq. done.
Qed.

Lemma sendEmail_success_replays_or_queues_witness :
  let run := sendEmail defaultApiConfig 1000 "m1" "p1" "ak1" Fixtures.request1
               Fixtures.plainOptions emptyWorld in
  run.2 = Return (ApiSuccess (queuedResponse "m1")) /\
  exists m, messages run.1 = {[ "m1" := m ]} /\ msg_status m = MS_QUEUED.
Proof.
  intros run.
  assert (run.2 = Return (ApiSuccess (queuedResponse "m1"))) as Hout
    by (vm_compute; reflexivity).
  split; [exact Hout |].
  destruct (sendEmail_success_replays_or_queues defaultApiConfig 1000 "m1" "p1" "ak1"
              Fixtures.request1 Fixtures.plainOptions emptyWorld run.1 (queuedResponse "m1"))
    as [(key & record & Hkey & _) | (_ & _ & m & j & Hm & Hst & _)].
  - rewrite <- Hout. apply surjective_pairing.
  - discriminate Hkey.
  - exists m. split; [exact Hm | exact Hst].
Defined.

(** X14.  Rate limits are kept per project: a [sendEmail] call of one
    project, whatever its outcome, leaves the verdict of the rate limiter
    for every other project as it was. *)
Theorem sendEmail_rate_limit_isolation cfg now newId p apiKeyId data options w (p' : string)
    (later : Z) :
  p <> p' ->
  rateLimitAllows cfg p' later (sendEmail cfg now newId p apiKeyId data options w).1
  = rateLimitAllows cfg p' later w.
Proof.
  intros Hne.
  assert (rateLimits (sendEmail cfg now newId p apiKeyId data options w).1
          = rateLimits (afterRateLimit cfg p now w)) as Hrl.
  { unfold sendEmail. unfold mbind at 1, IO_bind at 1.
    destruct (precheck_cases cfg now p options w)
      as (w2 & out & Hpre & _ & _ & _ & _ & _ & _ & Frl & _).
    rewrite Hpre. unfold mret, IO_ret. destruct out as [r | []]; [done |].
    destruct (body_cases now newId p apiKeyId data options w2)
      as [(code' & msg' & Hbody & _) | [Hbody | (_ & m & j & _ & _ & _ & _ & Hbody)]];
      rewrite Hbody; [done | done |].
    destruct (storeStep_cases options p newId now
                (acceptedWorld newId m (queuedEvent newId apiKeyId now) j w2))
      as [Hst | (w1 & Hst & _ & _ & _ & _ & _ & _ & Srl)]; rewrite Hst; cbn; [done |].
    by rewrite Srl. }
  unfold rateLimitAllows, RateLimiter.checkLimit. cbn. rewrite Hrl.
  unfold afterRateLimit, RateLimiter.checkLimit. cbn.
  rewrite lookup_insert_ne; [done |].
  unfold RateLimiter.getProjectKey, RateLimiter.RATE_LIMIT_PREFIX.
  intros Heq. apply Hne. revert Heq. clear.
  change ("rate_limit:" +:+ "project:" +:+ p) with ("rate_limit:project:" +:+ p).
  change ("rate_limit:" +:+ "project:" +:+ p') with ("rate_limit:project:" +:+ p').
  repeat (rewrite !string_app_cons). rewrite !string_app_nil_l. by intros [= ->].
Qed.

Lemma sendEmail_rate_limit_isolation_witness :
  rateLimitAllows Fixtures.strictConfig "p2" 1500
    (sendEmail Fixtures.strictConfig 1000 "m1" "p1" "ak1" Fixtures.request1
       Fixtures.plainOptions emptyWorld).1 = true.
Proof.
  rewrite (sendEmail_rate_limit_isolation Fixtures.strictConfig 1000 "m1" "p1" "ak1"
             Fixtures.request1 Fixtures.plainOptions emptyWorld "p2" 1500).
  - vm_compute. reflexivity.
  - discriminate.
Defined.

Lemma resolveContent_own p data t w :
  (resolveContent p data (withTemplates t w)).2
  = (resolveContent p data (withTemplates (ownTemplates p t) w)).2.
Proof.
  unfold resolveContent. io_unfold.
  destruct (truthy (req_templateId data)) as [tid |]; [| done]. cbn.
  unfold ownTemplates.
  destruct (t !! tid) as [tpl |] eqn:Htpl.
  - destruct (decide (tpl_projectId tpl = p)) as [Hown | Hown].
    + rewrite (proj2 (map_lookup_filter_Some _ _ _ _)) by done. cbn.
      by rewrite decide_True.
    + rewrite (proj2 (map_lookup_filter_None _ _ _)); [done |].
      right. intros x Hx. rewrite Htpl in Hx. by simplify_eq.
  - rewrite (proj2 (map_lookup_filter_None _ _ _)); [done |]. by left.
Qed.

(** The send service runs alike on two worlds that differ in their template
    tables, as long as the template step answers alike. *)
Lemma sendEmail_withTemplates cfg now newId p apiKeyId data options t1 t2 w :
  (resolveContent p data (withTemplates t1 w)).2
  = (resolveContent p data (withTemplates t2 w)).2 ->
  sendEmail cfg now newId p apiKeyId data options (withTemplates t1 w)
  = (withTemplates t1 (sendEmail cfg now newId p apiKeyId data options (withTemplates t2 w)).1,
     (sendEmail cfg now newId p apiKeyId data options (withTemplates t2 w)).2).
Proof.
  intros Hres.
  unfold sendEmail, sendEmail_precheck, RateLimiter.checkLimit, IdempotencyService.check.
  io_unfold. cbn.
  destruct (_ <? rateLimit_maxRequests cfg); cbn; [| done].
  assert (forall w0, templates w0 = templates w ->
    sendEmail_body now newId p apiKeyId data options (withTemplates t1 w0)
    = (withTemplates t1
         (sendEmail_body now newId p apiKeyId data options (withTemplates t2 w0)).1,
       (sendEmail_body now newId p apiKeyId data options (withTemplates t2 w0)).2)) as Hbody.
  { intros w0 Hw0.
    assert ((resolveContent p data (withTemplates t1 w0)).2
            = (resolveContent p data (withTemplates t2 w0)).2) as Hres0.
    { rewrite (resolveContent_frame p data (withTemplates t1 w) (withTemplates t1 w0)) by done.
      rewrite (resolveContent_frame p data (withTemplates t2 w) (withTemplates t2 w0)) by done.
      done. }
    pose proof (resolveContent_world p data (withTemplates t1 w0)) as H1.
    pose proof (resolveContent_world p data (withTemplates t2 w0)) as H2.
    unfold sendEmail_body. io_unfold. cbn.
    destruct (findSuppressed _ _ _) as [[r0 row] |]; [done |].
    destruct (resolveContent p data (withTemplates t1 w0)) as [wa ra].
    destruct (resolveContent p data (withTemplates t2 w0)) as [wb rb].
    cbn in H1, H2, Hres0. subst wa wb rb.
    destruct ra as [[r | c] | e]; [done | | done].
    unfold createMessage, createEvent, QueuePlugin.sendEmail_add, IdempotencyService.store.
    io_unfold. cbn.
    destruct (truthy (c_htmlBody c)), (truthy (c_textBody c)); cbn; try done;
      destruct (messages w0 !! newId); cbn; try done;
      destruct (truthy (idempotencyKey options)) as [k |]; cbn; try done;
      destruct (idempotencyKeys w0 !! k); done. }
  set (f := insert (M := gmap string (list Z)) _ _).
  destruct (truthy (idempotencyKey options)) as [key |]; cbn.
  - destruct (idempotencyKeys w !! key) as [record |]; cbn.
    + destruct (idem_expiresAt record <? now); cbn.
      * exact (Hbody (set_idempotencyKeys (delete key) (set_rateLimits f w)) eq_refl).
      * destruct (decide (idem_scope record = scopeOf p)); cbn; [done |].
        exact (Hbody (set_rateLimits f w) eq_refl).
    + exact (Hbody (set_rateLimits f w) eq_refl).
  - exact (Hbody (set_rateLimits f w) eq_refl).
Qed.

(** X15.  A project's sends see its own templates only.  On two worlds
    whose template tables hold the same templates of project [p] and
    differ in any way in the templates of other projects, [sendEmail] for
    [p] returns the same outcome and makes the same writes: a template of
    another project is answered like a template that does not exist. *)
Theorem sendEmail_sees_own_templates_only cfg now newId p apiKeyId data options
    (t1 t2 : gmap string Template) (w : World) :
  ownTemplates p t1 = ownTemplates p t2 ->
  let run1 := sendEmail cfg now newId p apiKeyId data options (withTemplates t1 w) in
  let run2 := sendEmail cfg now newId p apiKeyId data options (withTemplates t2 w) in
  run1.2 = run2.2 /\ run1.1 = withTemplates t1 run2.1.
Proof.
  intros Hown run1 run2. unfold run1, run2.
  rewrite (sendEmail_withTemplates cfg now newId p apiKeyId data options t1 t2 w); [done |].
  by rewrite (resolveContent_own p data t1), (resolveContent_own p data t2), Hown.
Qed.

End SendOutcome.

Lemma sendEmail_sees_own_templates_only_witness :
  let foreign := {| tpl_projectId := "p2"; tpl_subject := "Hello {{name}}";
                    tpl_html := None; tpl_text := Some "Dear {{name}}" |} in
  let data := {| EmailService.req_to := EmailService.ToOne (EmailService.AddrString "ann@example.com");
                 EmailService.req_from := EmailService.AddrString "noreply@example.com";
                 EmailService.req_replyTo := None;
                 EmailService.req_subject := "S";
                 EmailService.req_text := None;
                 EmailService.req_html := None;
                 EmailService.req_templateId := Some "tpl-2";
                 EmailService.req_variables := None;
                 EmailService.req_attachments := None;
                 EmailService.req_headers := None |} in
  (EmailService.sendEmail defaultApiConfig 1000 "m1" "p1" "ak1" data Fixtures.plainOptions
     (withTemplates {[ "tpl-2" := foreign ]} emptyWorld)).2
  = Return (EmailService.ApiError "TEMPLATE_NOT_FOUND" "Template with ID tpl-2 not found").
Proof.
  intros foreign data.
  destruct (sendEmail_sees_own_templates_only defaultApiConfig 1000 "m1" "p1" "ak1" data
              Fixtures.plainOptions {[ "tpl-2" := foreign ]} ∅ emptyWorld) as [Hout _].
  - vm_compute. reflexivity.
  - rewrite Hout. vm_compute. reflexivity.
Defined.

(** ** Email delivery worker *)

Section EmailWorker.
Import EmailProcessor.

Lemma externalIdTaken_free id externalId sentAt (w : World) m1 :
  externalIdFree id externalId w ->
  externalIdTaken id (sentData externalId sentAt) (<[id := m1]> (messages w)) = false.
Proof.
  intros Hfree. unfold externalIdTaken. cbn.
  destruct (existsb _ _) eqn:E; [| done]. exfalso.
  apply existsb_exists in E as ([k v] & Hin & Hf).
  apply bool_decide_eq_true in Hf as [Hk Hv]. cbn in Hk, Hv.
  apply list_elem_of_In, elem_of_map_to_list in Hin.
  rewrite lookup_insert_ne in Hin by done.
  by apply (Hfree k v).
Qed.

Lemma externalIdTaken_none id extra table :
  x_externalId extra = None -> externalIdTaken id extra table = false.
Proof. unfold externalIdTaken. by intros ->. Qed.

#[local] Arguments externalIdTaken : simpl never.

Variables (cfg : WorkerConfig) (sendMail : Transport) (now : Z) (rnd : Q).
Variables (job : Job SendEmailJob) (w : World).

(** X16.  A job whose message row exists and whose mail the transport
    accepts ends with the message DELIVERED: the provider's id, the instant
    of sending and the instant of delivery are recorded on the row, a SENT
    and a DELIVERED event are appended in this order, the processor returns
    normally, and the suppression list and the queues are left alone.  The
    provider's id must not be held by another message. *)
Theorem process_success (m : Message) (info : SentInfo) :
  messages w !! job_messageId (data job) = Some m ->
  sendMail (buildMailOptions (data job)) = Return info ->
  externalIdFree (job_messageId (data job)) (info_messageId info) w ->
  exists w' m',
    process cfg sendMail now rnd job w = (w', Return tt) /\
    messages w' = <[job_messageId (data job) := m']> (messages w) /\
    msg_status m' = MS_DELIVERED /\
    msg_externalId m' = Some (info_messageId info) /\
    msg_sentAt m' = Some now /\ msg_deliveredAt m' = Some now /\
    msg_error m' = msg_error m /\
    events w' = events w ++ [sentEvent job info; deliveredEvent job] /\
    suppressions w' = suppressions w /\
    sendEmailQueue w' = sendEmailQueue w /\ webhookQueue w' = webhookQueue w.
Proof.
  intros Hmessage Hsent Hfree.
  unfold process, updateMessageStatus, recordEvent. io_unfold.
  rewrite Hmessage. rewrite externalIdTaken_none by done. cbn.
  rewrite Hsent. cbn. rewrite lookup_insert_eq.
  rewrite externalIdTaken_free by done. cbn. rewrite lookup_insert_eq.
  rewrite externalIdTaken_none by done. cbn.
  eexists _, _. split; [reflexivity |]. cbn.
  split; [by rewrite !insert_insert_eq |]. cbn. rewrite <- app_assoc. done.
Qed.

(** X17.  A job whose message row is gone fails on every attempt without
    any effect: the status update is refused, the refusal is met again in
    the handler of the failure, and the processor rejects with it; nothing
    is written, whatever the transport would have answered and whatever the
    attempt count. *)
Theorem process_missing_message :
  messages w !! job_messageId (data job) = None ->
  process cfg sendMail now rnd job w = (w, Throw P2025_notFound).
Proof.
  intros Hnone. unfold process, updateMessageStatus. io_unfold.
  rewrite Hnone. cbn. destruct (_ <? _); cbn; by rewrite Hnone.
Qed.

End EmailWorker.

Lemma process_success_witness :
  let job := {| data := Fixtures.sendJob1; opts := api_defaultJobOptions; attemptsMade := 0 |} in
  exists w',
    EmailProcessor.process defaultWorkerConfig Fixtures.acceptingTransport 2000 (1 # 2) job
      Fixtures.world1 = (w', Return tt) /\
    statusOf w' "m1" = Some MS_DELIVERED.
Proof.
  intros job.
  destruct (process_success defaultWorkerConfig Fixtures.acceptingTransport 2000 (1 # 2) job
              Fixtures.world1 Fixtures.message1
              {| EmailProcessor.info_messageId := "<1@mx>";
                 EmailProcessor.info_response := "250 OK" |})
    as (w' & m' & Hrun & Hm & Hst & _).
  - reflexivity.
  - reflexivity.
  - intros id' m'. unfold Fixtures.world1. cbn.
    intros [<- <-]%lookup_singleton_Some. done.
  - exists w'. split; [exact Hrun |]. unfold statusOf. rewrite Hm, lookup_insert_eq.
    cbn. by rewrite Hst.
Defined.

Lemma process_missing_message_witness :
  let job := {| data := Fixtures.sendJob1; opts := api_defaultJobOptions; attemptsMade := 0 |} in
  EmailProcessor.process defaultWorkerConfig Fixtures.acceptingTransport 2000 (1 # 2) job
    emptyWorld = (emptyWorld, Throw P2025_notFound).
Proof.
  intros job. apply process_missing_message. reflexivity.
Defined.

Section HardBounce.
Import EmailProcessor.

Variables (cfg : WorkerConfig) (sendMail : Transport) (now : Z) (rnd : Q).
Variables (job : Job SendEmailJob) (w : World) (m : Message) (e : Thrown).
Variables (first : Recipient) (rest : list Recipient).

Hypothesis Hmessage : messages w !! job_messageId (data job) = Some m.
Hypothesis Hfails : sendMail (buildMailOptions (data job)) = Throw e.
Hypothesis Hto : job_to (data job) = first :: rest.

(** X18.  The worker suppresses a recipient only when the attempts are
    exhausted and the text of the failure names a hard bounce, and then it
    suppresses the first recipient of the job and no other: the row of the
    message's project and the first address becomes a BOUNCE carrying the
    error text, every other row of the suppression list is as before.
    While attempts remain, or for any other failure, the list is
    untouched. *)
Theorem hard_bounce_suppresses_first_recipient :
  let text := errorMessageOf e in
  let exhausted := maxAttemptsFor cfg (opts job) <=? attemptsMade job + 1 in
  let w' := (process cfg sendMail now rnd job w).1 in
  (exhausted && isHardBounceError text = false -> suppressions w' = suppressions w) /\
  (exhausted && isHardBounceError text = true ->
   (exists row, suppressions w' !! (msg_projectId m, email first) = Some row /\
                sup_reason row = SR_BOUNCE /\ sup_metadata row = Some text) /\
   forall key, key <> (msg_projectId m, email first) ->
               suppressions w' !! key = suppressions w !! key).
Proof.
  intros text exhausted w'. unfold w', exhausted, text. clear w' exhausted text.
  unfold process, updateMessageStatus, recordEvent, addToSuppressionList. io_unfold.
  rewrite Hmessage. cbn. rewrite Hfails. cbn.
  rewrite (Z.ltb_antisym (maxAttemptsFor cfg (opts job)) (attemptsMade job + 1)).
  destruct (maxAttemptsFor cfg (opts job) <=? attemptsMade job + 1); cbn.
  - rewrite lookup_insert_eq. cbn.
    destruct (isHardBounceError (errorMessageOf e)); cbn.
    + split; [done |]. intros _. rewrite Hto. cbn. rewrite lookup_insert_eq. cbn.
      unfold upsertBounce. split.
      * destruct (suppressions w !! (msg_projectId m, email first));
          rewrite lookup_insert_eq; eexists; done.
      * intros key Hkey.
        destruct (suppressions w !! (msg_projectId m, email first));
          by rewrite lookup_insert_ne.
    + done.
  - rewrite lookup_insert_eq. cbn. done.
Qed.

End HardBounce.

Lemma hard_bounce_suppresses_first_recipient_witness :
  let job := {| data := Fixtures.sendJob1; opts := api_defaultJobOptions; attemptsMade := 2 |} in
  let w' := (EmailProcessor.process defaultWorkerConfig
               (Fixtures.failingTransport "550 5.1.1 User unknown") 2000 (1 # 2) job
               Fixtures.world1).1 in
  exists row, suppressions w' !! ("p1", "ann@example.com") = Some row /\
              sup_reason row = SR_BOUNCE.
Proof.
  intros job w'.
  destruct (hard_bounce_suppresses_first_recipient defaultWorkerConfig
              (Fixtures.failingTransport "550 5.1.1 User unknown") 2000 (1 # 2) job
              Fixtures.world1 Fixtures.message1 (JsError "550 5.1.1 User unknown")
              {| email := "ann@example.com"; name := None |} [])
    as [_ Hhard]; [reflexivity | reflexivity | reflexivity |].
  destruct Hhard as [(row & Hrow & Hreason & _) _]; [vm_compute; reflexivity |].
  exists row. split; [exact Hrow | exact Hreason].
Defined.

(** X19.  The instant of the next retry announced in a RETRY_SCHEDULED
    event lies between 2 and 60 seconds after the failure: the worker calls
    [calculateBackoff] with the number of the attempt that failed, which is
    at least 1.  From the sixth attempt on it is exactly 60 seconds. *)
Theorem announced_retry_window (now attempts : Z) (rnd : Q) :
  1 <= attempts -> (0 <= rnd)%Q -> (rnd < 1)%Q ->
  now + 2000 <= EmailProcessor.nextRetryAt now attempts rnd <= now + 60000 /\
  (6 <= attempts -> EmailProcessor.nextRetryAt now attempts rnd = now + 60000).
Proof.
  intros Hatt Hr0 Hr1. unfold EmailProcessor.nextRetryAt, Utils.calculateBackoff_default,
    Utils.calculateBackoff, Utils.defaultBaseDelay, Utils.defaultMaxDelay.
  rewrite Z2Nat.id by lia.
  set (p := inject_Z (2 ^ attempts)).
  assert (2 <= p)%Q as Hp.
  { unfold p. change 2%Q with (inject_Z 2). rewrite <- Zle_Qle.
    change 2 with (2 ^ 1) at 1. apply Z.pow_le_mono_r; lia. }
  assert (2000 <= Qmin (1000 * p + rnd * 1000) 60000)%Q as Hlo.
  { apply Q.min_glb; nra. }
  assert (Qmin (1000 * p + rnd * 1000) 60000 <= 60000)%Q as Hhi by apply Q.le_min_r.
  split.
  - split.
    + rewrite <- (Qfloor_Z (now + 2000)). apply Qfloor_resp_le.
      rewrite inject_Z_plus. change (inject_Z 2000) with 2000%Q. lra.
    + rewrite <- (Qfloor_Z (now + 60000)). apply Qfloor_resp_le.
      rewrite inject_Z_plus. change (inject_Z 60000) with 60000%Q. lra.
  - intros H6.
    assert (64 <= p)%Q as Hp6.
    { unfold p. change 64%Q with (inject_Z 64). rewrite <- Zle_Qle.
      change 64 with (2 ^ 6). apply Z.pow_le_mono_r; lia. }
    rewrite <- (Qfloor_Z (now + 60000)). apply Qfloor_comp.
    rewrite inject_Z_plus. change (inject_Z 60000) with 60000%Q.
    rewrite Q.min_r by nra. reflexivity.
Qed.

Lemma announced_retry_window_witness :
  3000 <= EmailProcessor.nextRetryAt 1000 1 (1 # 2) <= 61000.
Proof.
  destruct (announced_retry_window 1000 1 (1 # 2)) as [Hwin _]; [lia | lra | lra |].
  exact Hwin.
Defined.

(** ** Webhook delivery *)

Section WebhookOutcomes.

Variables (env : WebhookEnv) (now : Z).



End WebhookOutcomes.



(** ** Webhook signatures: what verification reads *)

Section SignatureScope.
Import Utils.

Variable hmac : string -> string -> string.

Lemma takeLowerHex_app h after :
  allChars isLowerHex h = true ->
  (after = "" \/ exists c r, after = String c r /\ isLowerHex c = false) ->
  takeLowerHex (h +:+ after) = h.
Proof.
  intros Hh Hafter. induction h as [| c h IH].
  - rewrite string_app_nil_l. destruct Hafter as [-> | (c & r & -> & Hc)]; [done |].
    cbn. by rewrite Hc.
  - cbn [allChars] in Hh. apply andb_true_iff in Hh as [Hc Hh].
    rewrite string_app_cons. cbn. rewrite Hc. by rewrite IH.
Qed.

(** What the pattern captures when it is tried at the head of [s]. *)
Lemma matchV1_unfold s :
  matchV1 s
  = match (if String.prefix "v1=" s then takeLowerHex (dropChars 3 s) else "") with
    | String c r => Some (String c r)
    | EmptyString => match s with
                     | EmptyString => None
                     | String _ r => matchV1 r
                     end
    end.
Proof.
  destruct s as [| a s].
  - reflexivity.
  - cbn [matchV1].
    by destruct (if String.prefix "v1=" (String a s)
                 then takeLowerHex (dropChars 3 (String a s)) else "").
Qed.

Lemma prefix_v1 s :
  String.prefix "v1=" s = true -> exists r, s = "v1=" +:+ r /\ dropChars 3 s = r.
Proof.
  destruct s as [| a [| b [| c r]]]; cbn [String.prefix]; try done;
    repeat (match goal with |- context [ascii_dec ?x ?y] => destruct (ascii_dec x y) end;
            try done).
  subst. intros _. by exists r.
Qed.

Lemma group_here g after :
  isHexDigest g -> endsGroup after ->
  (if String.prefix "v1=" ("v1=" +:+ g +:+ after)
   then takeLowerHex (dropChars 3 ("v1=" +:+ g +:+ after)) else "") = g.
Proof.
  intros [Hne Hhex] Hafter.
  change ("v1=" +:+ g +:+ after) with (String "v" (String "1" (String "=" (g +:+ after)))).
  cbn [String.prefix dropChars].
  destruct (ascii_dec "v" "v"); [| done]. destruct (ascii_dec "1" "1"); [| done].
  destruct (ascii_dec "=" "="); [| done].
  replace (String.prefix "" (g +:+ after)) with true by (by destruct (g +:+ after)).
  by apply takeLowerHex_app.
Qed.

Lemma no_group_here s :
  ~ startsV1Group s ->
  (if String.prefix "v1=" s then takeLowerHex (dropChars 3 s) else "") = "".
Proof.
  intros Hno. destruct (String.prefix "v1=" s) eqn:Hp; [| done].
  apply prefix_v1 in Hp as (r & -> & ->).
  destruct r as [| c r]; [done |]. cbn [takeLowerHex].
  destruct (isLowerHex c) eqn:Hc; [| done].
  destruct Hno. by exists c, r.
Qed.

(** The pattern matches at the first place where a group starts. *)
Lemma matchV1_first before g after :
  isHexDigest g -> endsGroup after ->
  noGroupStartsIn before ("v1=" +:+ g +:+ after) ->
  matchV1 (before +:+ "v1=" +:+ g +:+ after) = Some g.
Proof.
  intros Hg Hafter. induction before as [| c before IH]; intros Hno.
  - rewrite string_app_nil_l, matchV1_unfold, group_here by done.
    destruct Hg as [Hne _]. by destruct g.
  - rewrite string_app_cons, matchV1_unfold.
    rewrite no_group_here.
    + apply IH. intros p q -> Hq. apply (Hno (String c p) q); [done | done].
    + rewrite <- string_app_cons. apply (Hno "" (String c before)); done.
Qed.

(** Without a group the pattern does not match. *)
Lemma matchV1_none s :
  (forall p q, s = p +:+ q -> ~ startsV1Group q) -> matchV1 s = None.
Proof.
  induction s as [| c s IH]; intros Hno; [done |].
  rewrite matchV1_unfold, no_group_here by (apply (Hno "" (String c s)); done).
  apply IH. intros p q ->. apply (Hno (String c p) q). done.
Qed.

(** X22.  [verifyWebhookPayload] reads the first group [v1=<hex digits>] of
    the header and nothing else.  A header whose first group holds the
    digits [group] is accepted exactly when [group] is the digest of the
    payload under the secret, whatever stands before the group, where the
    sender puts the time stamp, and whatever follows it, a later group
    included.  A header without any group is refused. *)
Theorem verify_reads_first_v1_group (payload secret : string) :
  (forall before group after,
     isHexDigest group -> endsGroup after ->
     noGroupStartsIn before ("v1=" +:+ group +:+ after) ->
     (verifyWebhookPayload hmac payload (before +:+ "v1=" +:+ group +:+ after) secret = true
      <-> group = hmac secret payload)) /\
  (forall signature,
     (forall p q, signature = p +:+ q -> ~ startsV1Group q) ->
     verifyWebhookPayload hmac payload signature secret = false).
Proof.
  split.
  - intros before group after Hg Hafter Hno. unfold verifyWebhookPayload.
    rewrite matchV1_first by done. rewrite timingSafeEqual_orFalse_eq.
    split; congruence.
  - intros signature Hno. unfold verifyWebhookPayload. by rewrite matchV1_none.
Qed.

End SignatureScope.

(** A header with a letter v before the group, and one whose first group is
    not the digest although a later one is. *)
Example verifyWebhookPayload_samples :
  Utils.verifyWebhookPayload digestStandIn "{}"
    ("version=2,v1=" +:+ digestStandIn "whsec" "{}") "whsec" = true /\
  Utils.verifyWebhookPayload digestStandIn "{}"
    ("t=0,v1=ffff,v1=" +:+ digestStandIn "whsec" "{}") "whsec" = false /\
  Utils.verifyWebhookPayload digestStandIn "{}" "t=0,v2=ffff" "whsec" = false.
Proof. vm_compute. repeat split; reflexivity. Qed.

Lemma verify_reads_first_v1_group_witness :
  Utils.verifyWebhookPayload digestStandIn "{}"
    ("version=2," +:+ "v1=" +:+ digestStandIn "whsec" "{}" +:+ ",v1=ffff") "whsec" = true /\
  Utils.verifyWebhookPayload digestStandIn "{}"
    ("t=0," +:+ "v1=" +:+ "ffff" +:+ ",v1=52") "whsec" = false.
Proof.
  destruct (verify_reads_first_v1_group digestStandIn "{}" "whsec") as [Hfirst _].
  assert (forall before rest : string,
            allChars (fun c => negb (Ascii.eqb c "1")) before = true ->
            noGroupStartsIn before ("v1=" +:+ rest)) as Hbefore.
  { intros before rest Hall p q -> Hq [c [r Heq]]. destruct Heq as [Heq _].
    rewrite allChars_app in Hall. apply andb_true_iff in Hall as [_ Hall].
    destruct q as [| a [| b q]]; [done | |].
    - cbn in Hall. rewrite string_app_cons, string_app_nil_l in Heq.
      injection Heq as -> Heq. discriminate.
    - cbn in Hall. rewrite !string_app_cons in Heq. injection Heq as -> -> Heq.
      cbn in Hall. discriminate. }
  split.
  - apply (Hfirst "version=2," (digestStandIn "whsec" "{}") ",v1=ffff").
    + split; [discriminate | reflexivity].
    + right. exists ","%char, "v1=ffff". split; reflexivity.
    + apply Hbefore. reflexivity.
    + reflexivity.
  - apply not_true_is_false. intros Hacc.
    apply (Hfirst "t=0," "ffff" ",v1=52") in Hacc.
    + discriminate.
    + split; [discriminate | reflexivity].
    + right. exists ","%char, "v1=52". split; reflexivity.
    + apply Hbefore. reflexivity.
Defined.

(** X23.  The request the webhook code sends can be verified by its
    receiver: the signature header is made over the body that is sent, with
    the secret of the subscription, so [verifyWebhookPayload] accepts the
    body, the header and that secret.  The digest is assumed to be a
    non-empty string of lower-case hex digits, as [digest('hex')] returns. *)
Theorem webhook_request_verifies (env : WebhookEnv) (now : Z) (id : string) (wh : Webhook)
    (eventType : WebhookEventType) (payload : WebhookPayload) :
  isHexDigest (hmacSha256Hex env (wh_secret wh) (JSON_stringify env payload)) ->
  let request := webhookRequest env now id wh eventType payload in
  rq_url request = wh_url wh /\
  rq_body request = JSON_stringify env payload /\
  Utils.verifyWebhookPayload (hmacSha256Hex env) (rq_body request) (rq_signature request)
    (wh_secret wh) = true.
Proof.
  intros Hhex request. unfold request, webhookRequest. cbn.
  split; [done |]. split; [done |]. by apply verify_signed_iff.
Qed.

Lemma webhook_request_verifies_witness :
  let env := {| JSON_stringify := fun _ => "{}"; hmacSha256Hex := digestStandIn;
                fetch := fun _ => Responded 200 None |} in
  let request := webhookRequest env 1000 "wh1" Fixtures.webhook1 message_sent Fixtures.payload1 in
  Utils.verifyWebhookPayload digestStandIn (rq_body request) (rq_signature request)
    "whsec_0123456789abcdef" = true.
Proof.
  intros env request.
  destruct (webhook_request_verifies env 1000 "wh1" Fixtures.webhook1 message_sent
              Fixtures.payload1) as (_ & _ & Hverify).
  - split; [discriminate | reflexivity].
  - exact Hverify.
Defined.

(** ** Authentication and the send route *)

Section SendRoute.
Import Auth EmailRoutes.

Lemma findMatch_Some compare token apiKeys key :
  findMatch compare token apiKeys = Some key ->
  key ∈ apiKeys /\ compare token (key_keyHash (ak_key key)) = true.
Proof.
  induction apiKeys as [| k rest IH]; [done |]. cbn.
  destruct (compare token (key_keyHash (ak_key k))) eqn:Hk.
  - intros [= <-]. split; [apply list_elem_of_here | done].
  - intros H. destruct (IH H) as [Hin Hc]. split; [by apply list_elem_of_further | done].
Qed.

Lemma unrevokedKeys_elem key w :
  key ∈ unrevokedKeys w ->
  projects w !! ak_projectId key = Some (ak_project key) /\
  ak_key key ∈ prj_apiKeys (ak_project key) /\
  key_revokedAt (ak_key key) = None.
Proof.
  unfold unrevokedKeys. intros Hin%list_elem_of_In.
  apply in_concat in Hin as (l & Hl & Hin).
  apply in_map_iff in Hl as ([pid prj] & <- & Hrow).
  apply in_map_iff in Hin as (k & <- & Hk). cbn.
  apply list_elem_of_In, elem_of_map_to_list in Hrow.
  apply list_elem_of_In, list_elem_of_filter in Hk as [Hrev Hk]. done.
Qed.

(** What [authenticateApiKey] lets through, and what a refusal leaves
    untouched. *)
Lemma authenticateApiKey_cases compare now authorization w :
  (exists reply,
     authenticateApiKey compare now authorization w = (w, Return (inl reply)) /\
     (reply_status reply = 401 \/ reply_status reply = 403)) \/
  (exists header token key,
     authorization = Some header /\
     split " " header !! 0%nat = Some "Bearer" /\
     split " " header !! 1%nat = Some token /\
     holdsActiveKey compare w token (ak_projectId key) (ak_key key) /\
     authenticateApiKey compare now authorization w
     = (set_projects (fun t =>
          <[ ak_projectId key :=
               SmtpRelayServer.touchProjectKey (key_id (ak_key key)) now (ak_project key) ]> t) w,
        Return (inr key))).
Proof.
  unfold authenticateApiKey.
  destruct authorization as [header |]; cbn; [| left; eexists; split; [reflexivity | by left]].
  destruct (decide (header = "")) as [-> | Hne]; cbn;
    [left; eexists; split; [reflexivity | by left] |].
  destruct (decide (split " " header !! 0%nat = Some "Bearer")) as [Hscheme | Hscheme];
    [| left; eexists; split; [reflexivity | by left]].
  destruct (split " " header !! 1%nat) as [token |] eqn:Htoken; cbn;
    [| left; eexists; split; [reflexivity | by left]].
  destruct (decide (token = "")) as [-> | Htok]; cbn;
    [left; eexists; split; [reflexivity | by left] |].
  io_unfold.
  destruct (findMatch compare token (unrevokedKeys w)) as [key |] eqn:Hmatch;
    [| left; eexists; split; [reflexivity | by left]].
  apply findMatch_Some in Hmatch as [Hin Hcompare].
  apply unrevokedKeys_elem in Hin as (Hprj & Hkey & Hrev).
  destruct (decide (prj_status (ak_project key) = PS_ACTIVE)) as [Hactive | Hactive];
    [| left; eexists; split; [reflexivity | by right]].
  right. exists header, token, key. split; [done |]. split; [done |]. split; [done |].
  split; [by exists (ak_project key) | done].
Qed.

(** X24.  [POST /v1/send] accepts nothing from a caller without a sending
    key.  Either the request is answered without anything being accepted:
    the message, event and idempotency tables, the rate limiter of the send
    service and the send-email queue are as before, and the reply is the one
    that ended the request before the hooks of the route, or else a 401 or a
    403 of these hooks.  Or no reply ended the request early, the header is
    [Bearer <token>] and the token matches an unrevoked key of an active
    project that carries the scope [send:email]. *)
Theorem postSend_requires_sending_key (early : option Reply)
    (compare : string -> string -> bool) (cfg : ApiConfig)
    (now : Z) (newId : string) (authorization : option string)
    (parsed : list (string * string) + SendEmailWithOptions) (w : World) :
  let run := postSend early compare cfg now newId authorization parsed w in
  (exists reply,
     run.2 = Return reply /\
     (early = Some reply \/
      early = None /\ (reply_status reply = 401 \/ reply_status reply = 403)) /\
     messages run.1 = messages w /\ events run.1 = events w /\
     idempotencyKeys run.1 = idempotencyKeys w /\ rateLimits run.1 = rateLimits w /\
     sendEmailQueue run.1 = sendEmailQueue w) \/
  (early = None /\
   exists header token pid key,
     authorization = Some header /\
     split " " header !! 0%nat = Some "Bearer" /\
     split " " header !! 1%nat = Some token /\
     holdsActiveKey compare w token pid key /\
     "send:email" ∈ key_scopes key).
Proof.
  intros run. destruct early as [first |].
  { left. exists first. split; [done |]. split; [by left | done]. }
  destruct (authenticateApiKey_cases compare now authorization w)
    as [(reply & Hauth & Hstatus) | (header & token & key & Hhdr & Hscheme & Htoken & Hholds & Hauth)].
  { left. exists reply.
    assert (run = (w, Return reply)) as ->; [| split; [done |]; split; [by right | done]].
    unfold run, postSend. unfold mbind, IO_bind. by rewrite Hauth. }
  destruct (decide ("send:email" ∈ key_scopes (ak_key key))) as [Hscope | Hscope].
  { right. split; [done |]. exists header, token, (ak_projectId key), (ak_key key). done. }
  left. exists (forbidden ("Missing required scope. Required one of: " +:+ "send:email")).
  assert (run = (set_projects (fun t =>
                   <[ ak_projectId key :=
                        SmtpRelayServer.touchProjectKey (key_id (ak_key key)) now
                          (ak_project key) ]> t) w,
                 Return (forbidden ("Missing required scope. Required one of: "
                                    +:+ "send:email")))) as ->.
  { unfold run, postSend. unfold mbind, IO_bind. rewrite Hauth.
    unfold requireScope. cbn [existsb]. rewrite bool_decide_eq_false_2 by done.
    cbn. unfold mret, IO_ret. reflexivity. }
  cbn. split; [done |]. split; [right; split; [done | by right] | done].
Qed.

End SendRoute.

(** ** The send handler *)

Section SendStatuses.
Import EmailService EmailRoutes.

(** What a reply of the handler tells. *)
Lemma sendHandler_reply_cases (cfg : ApiConfig) (now : Z) (newId : string)
    (apiKey : Auth.ApiKeyWithProject)
    (parsed : list (string * string) + SendEmailWithOptions) (w w' : World) (reply : Reply) :
  sendHandler cfg now newId apiKey parsed w = (w', Return reply) ->
  reply_status reply ∈ [202; 400; 404; 429] /\
  (reply_status reply = 202 <-> exists r, reply_body reply = SendBody (ApiSuccess r)) /\
  (reply_status reply = 429 <->
   (exists body, parsed = inr body) /\
   rateLimitAllows cfg (Auth.ak_projectId apiKey) now w = false) /\
  (reply_status reply <> 202 ->
   messages w' = messages w /\ events w' = events w /\
   sendEmailQueue w' = sendEmailQueue w /\ webhookQueue w' = webhookQueue w).
Proof.
  unfold sendHandler. destruct parsed as [issues | body].
  - unfold mret, IO_ret. intros [= <- <-]. cbn.
    split; [elem_here |]. split; [split; [done | by intros [r Hr]] |].
    split; [split; [done | by intros [[b Hb] _]] | done].
  - unfold mbind, IO_bind.
    destruct (sendEmail cfg now newId (Auth.ak_projectId apiKey) (key_id (Auth.ak_key apiKey))
                (swo_data body) _ w) as [w1 [[r | code msg] | e]] eqn:Hsend;
      unfold mret, IO_ret; intros Hrun; simplify_eq; cbn [reply_status reply_body].
    + split; [elem_here |]. split; [split; [by exists r | done] |].
      split; [| done]. split; [done |]. intros [_ Hrl].
      unfold sendEmail in Hsend. unfold mbind at 1, IO_bind at 1 in Hsend.
      destruct (precheck_cases cfg now (Auth.ak_projectId apiKey)
                  {| idempotencyKey := swo_idempotencyKey body; tags := swo_tags body;
                     priority := swo_priority body |} w)
        as (w2 & out & Hpre & _ & _ & _ & _ & _ & _ & _ & Hout).
      rewrite Hpre in Hsend. destruct out as [r0 | []].
      * destruct Hout as [[_ ->] | [Hrl' _]]; [| congruence].
        unfold mret, IO_ret in Hsend. cbn in Hsend. simplify_eq.
      * congruence.
    + apply sendEmail_error_cases in Hsend
        as (Hcode & Hrate & Fm & Fe & _ & _ & Fq & Fwq).
      split; [repeat case_decide; elem_here |].
      split; [split; [repeat case_decide; done | by intros [r Hr]] |].
      split; [| done].
      rewrite <- Hrate. split.
      * intros Hs. split; [by exists body |]. repeat case_decide; done.
      * intros [_ ->]. by rewrite decide_True.
Qed.

(** What a rejection of the handler tells. *)
Lemma sendHandler_throw_cases (cfg : ApiConfig) (now : Z) (newId : string)
    (apiKey : Auth.ApiKeyWithProject)
    (parsed : list (string * string) + SendEmailWithOptions) (w w' : World) (e : Thrown) :
  sendHandler cfg now newId apiKey parsed w = (w', Throw e) ->
  rateLimitAllows cfg (Auth.ak_projectId apiKey) now w = true /\
  (e = P2002_unique "id" /\
   messages w' = messages w /\ events w' = events w /\
   sendEmailQueue w' = sendEmailQueue w /\ webhookQueue w' = webhookQueue w \/
   e = P2002_unique "key" /\ messages w !! newId = None /\
   exists m j,
     messages w' = <[newId := m]> (messages w) /\
     events w' = events w ++ [queuedEvent newId (key_id (Auth.ak_key apiKey)) now] /\
     sendEmailQueue w' = sendEmailQueue w ++ [j]).
Proof.
  unfold sendHandler. destruct parsed as [issues | body]; [done |].
  unfold mbind, IO_bind.
  destruct (sendEmail cfg now newId (Auth.ak_projectId apiKey) (key_id (Auth.ak_key apiKey))
              (swo_data body) _ w) as [w1 [[r | code msg] | e1]] eqn:Hsend;
    unfold mret, IO_ret; intros Hrun; simplify_eq.
  by apply sendEmail_throw_cases in Hsend.
Qed.

(** X25.  How the handler of [POST /v1/send] can end, for a key of an
    existing project, as authentication leaves it on the request, and with
    the database and the queue reachable.  Either it replies, and the status
    tells what happened: it is 202, 400, 404 or 429; 202 goes with a success
    body and any other status with an error body or a validation report; and
    after any status but 202 the message and event tables and both queues
    are as before.  Or it rejects, and then with a unique-constraint error
    of the database, which leaves the answer to the error handler of the
    server: on the message id, with the tables and the queues as before, or
    on the idempotency key, with the message row, the QUEUED event and the
    job already written and left there.  It replies 429 exactly when the
    body is valid and the rate limiter refuses the request. *)
Theorem sendHandler_statuses (cfg : ApiConfig) (now : Z) (newId : string)
    (apiKey : Auth.ApiKeyWithProject)
    (parsed : list (string * string) + SendEmailWithOptions) (w : World) :
  is_Some (projects w !! Auth.ak_projectId apiKey) ->
  let run := sendHandler cfg now newId apiKey parsed w in
  ((exists reply,
      run.2 = Return reply /\
      reply_status reply ∈ [202; 400; 404; 429] /\
      (reply_status reply = 202 <-> exists r, reply_body reply = SendBody (ApiSuccess r)) /\
      (reply_status reply <> 202 ->
       messages run.1 = messages w /\ events run.1 = events w /\
       sendEmailQueue run.1 = sendEmailQueue w /\ webhookQueue run.1 = webhookQueue w)) \/
   (run.2 = Throw (P2002_unique "id") /\
    messages run.1 = messages w /\ events run.1 = events w /\
    sendEmailQueue run.1 = sendEmailQueue w /\ webhookQueue run.1 = webhookQueue w) \/
   (run.2 = Throw (P2002_unique "key") /\ messages w !! newId = None /\
    exists m j,
      messages run.1 = <[newId := m]> (messages w) /\
      events run.1 = events w ++ [queuedEvent newId (key_id (Auth.ak_key apiKey)) now] /\
      sendEmailQueue run.1 = sendEmailQueue w ++ [j])) /\
  ((exists reply, run.2 = Return reply /\ reply_status reply = 429) <->
   (exists body, parsed = inr body) /\
   rateLimitAllows cfg (Auth.ak_projectId apiKey) now w = false).
Proof.
  intros _ run. destruct run as [w' [reply | e]] eqn:Hrun; cbn [fst snd].
  - destruct (sendHandler_reply_cases _ _ _ _ _ _ _ _ Hrun) as (Hst & H202 & H429 & Hframe).
    split.
    + left. by exists reply.
    + rewrite <- H429. split; [by intros (r & [= <-] & Hr) | intros Hr; by exists reply].
  - destruct (sendHandler_throw_cases _ _ _ _ _ _ _ _ Hrun)
      as [Hrl [(-> & Hframe) | (-> & Hfresh & Hwritten)]].
    + split; [right; left; done |].
      split; [by intros (r & Hr & _) | intros [_ Hno]; congruence].
    + split; [right; right; done |].
      split; [by intros (r & Hr & _) | intros [_ Hno]; congruence].
Qed.

End SendStatuses.

Lemma sendHandler_statuses_witness :
  let apiKey := {| Auth.ak_key := Fixtures.sendKey; Auth.ak_projectId := "p1";
                   Auth.ak_project := {| prj_status := PS_ACTIVE;
                                         prj_apiKeys := [Fixtures.sendKey] |} |} in
  let run := EmailRoutes.sendHandler defaultApiConfig 1000 "m1" apiKey
               (inr {| EmailRoutes.swo_data := Fixtures.request1;
                       EmailRoutes.swo_idempotencyKey := Some "k1";
                       EmailRoutes.swo_tags := None;
                       EmailRoutes.swo_priority := None |})
               (set_idempotencyKeys (fun _ => idempotencyKeys Fixtures.worldKeyOfP2)
                  Fixtures.worldWithProject) in
  run.2 = Throw (P2002_unique "key") /\
  is_Some (messages run.1 !! "m1") /\ length (sendEmailQueue run.1) = 1%nat.
Proof.
  intros apiKey run.
  assert (run.2 = Throw (P2002_unique "key")) as Hout by (vm_compute; reflexivity).
  split; [exact Hout |]. unfold run in *.
  destruct (sendHandler_statuses defaultApiConfig 1000 "m1" apiKey
              (inr {| EmailRoutes.swo_data := Fixtures.request1;
                      EmailRoutes.swo_idempotencyKey := Some "k1";
                      EmailRoutes.swo_tags := None;
                      EmailRoutes.swo_priority := None |})
              (set_idempotencyKeys (fun _ => idempotencyKeys Fixtures.worldKeyOfP2)
                 Fixtures.worldWithProject))
    as [[(reply & Hreply & _) | [(Hid & _) | (_ & _ & m & j & Hm & _ & Hq)]] _].
  - by eexists.
  - rewrite Hout in Hreply. discriminate.
  - rewrite Hout in Hid. discriminate.
  - rewrite Hm, Hq. split; [by rewrite lookup_insert_eq | reflexivity].
Defined.

(** ** The webhook test route *)

(** X26.  [POST /v1/webhooks/:id/test] answers 404 and queues nothing when
    the project of the caller owns no webhook [id].  Otherwise it answers
    that the test is queued, and what it queues is a [message.sent] event
    with the test data for the whole project: one job for every active
    webhook of the project that lists [message.sent], and none for any
    other webhook, the tested one included. *)
Theorem test_route_triggers_project (now : Z) (apiKey : Auth.ApiKeyWithProject)
    (id : string) (w : World) :
  let p := Auth.ak_projectId apiKey in
  let run := WebhookRoutes.testHandler now apiKey id w in
  ((forall wh, webhooks w !! id = Some wh -> wh_projectId wh <> p) ->
   run = (w, Return {| reply_status := 404;
                       reply_body := ErrorBody "NOT_FOUND" "Webhook not found" |})) /\
  ((exists wh, webhooks w !! id = Some wh /\ wh_projectId wh = p) ->
   run.2 = Return {| reply_status := 200;
                     reply_body := MessageBody "Test webhook queued for delivery" |} /\
   exists added,
     webhookQueue run.1 = webhookQueue w ++ added /\
     (forall id',
        length (jobsOf id' added)
        = match webhooks w !! id' with
          | Some wh' =>
              if decide (wh_projectId wh' = p /\ wh_active wh' = true /\
                         message_sent ∈ wh_eventTypes wh')
              then 1%nat else 0%nat
          | None => 0%nat
          end) /\
     (forall j, j ∈ added ->
        wj_eventType (qj_data j) = message_sent /\
        wp_data (wj_payload (qj_data j)) = WebhookRoutes.testData now)).
Proof.
  intros p run. split.
  - intros Hnone. unfold run, WebhookRoutes.testHandler. unfold mbind, IO_bind, gets.
    destruct (webhooks w !! id) as [wh |] eqn:Hwh; [| done].
    rewrite decide_False; [done |]. by apply Hnone.
  - intros (wh & Hwh & Hp).
    assert (run = (set_webhookQueue
                     (fun q => q ++ triggeredJobs now p message_sent
                                      (WebhookRoutes.testData now) w) w,
                   Return {| reply_status := 200;
                             reply_body := MessageBody "Test webhook queued for delivery" |}))
      as ->.
    { unfold run, WebhookRoutes.testHandler. unfold mbind at 1, IO_bind at 1, gets.
      rewrite Hwh, decide_True by done.
      unfold mbind, IO_bind. rewrite trigger_appends. reflexivity. }
    cbn [fst snd]. split; [done |].
    exists (triggeredJobs now p message_sent (WebhookRoutes.testData now) w).
    split; [by destruct w |]. split.
    + intros id'. rewrite triggeredJobs_per_subscription.
      destruct (webhooks w !! id') as [wh' |]; [| done].
      repeat case_decide; unfold WebhookService.subscribed in *; cbn [fst snd] in *; done.
    + intros j Hj. apply triggeredJobs_content in Hj as (He & Hp' & _). by rewrite Hp'.
Qed.

(** ** The template routes *)

Section TemplateVariables.
Import Utils TemplateRoutes.

Lemma dedupe_elem (x : string) (l : list string) : x ∈ dedupe l <-> x ∈ l.
Proof.
  unfold dedupe. rewrite dedupe_fold_elem. rewrite elem_of_nil. tauto.
Qed.

(** X27.  The variables that [POST /v1/templates] stores for a request that
    names none are listed once each and are all that rendering reads: two
    bindings that agree on them render the subject, the html and the text
    of the template alike. *)
Theorem createVariables_cover_rendering (html text : option string) (subject : string)
    (v1 v2 : gmap string string) :
  (forall k, k ∈ createVariables html text subject None -> v1 !! k = v2 !! k) ->
  NoDup (createVariables html text subject None) /\
  renderTemplate subject v1 = renderTemplate subject v2 /\
  (forall h, html = Some h -> renderTemplate h v1 = renderTemplate h v2) /\
  (forall t, text = Some t -> renderTemplate t v1 = renderTemplate t v2).
Proof.
  unfold createVariables. intros Hagree.
  split; [apply dedupe_fold_NoDup, NoDup_nil_2 |].
  assert (forall k, k ∈ extractTemplateVariables subject -> v1 !! k = v2 !! k) as Hs.
  { intros k Hk. apply Hagree, dedupe_elem. rewrite !elem_of_app. auto. }
  split; [by apply renderTemplate_agree |]. split.
  - intros h ->. destruct (decide (h = "")) as [-> | Hne]; [done |].
    apply renderTemplate_agree. intros k Hk. apply Hagree, dedupe_elem.
    rewrite !elem_of_app. left. unfold truthy. by rewrite decide_False.
  - intros t ->. destruct (decide (t = "")) as [-> | Hne]; [done |].
    apply renderTemplate_agree. intros k Hk. apply Hagree, dedupe_elem.
    rewrite !elem_of_app. right. left. unfold truthy. by rewrite decide_False.
Qed.

End TemplateVariables.

Lemma createVariables_cover_rendering_witness :
  TemplateRoutes.createVariables (Some "<p>{{name}}</p>") None "Order {{id}} for {{name}}" None
    = ["name"; "id"] /\
  Utils.renderTemplate "Order {{id}} for {{name}}" {[ "name" := "Ann"; "id" := "7"; "x" := "y" ]}
    = Utils.renderTemplate "Order {{id}} for {{name}}" {[ "name" := "Ann"; "id" := "7" ]}.
Proof.
  split; [vm_compute; reflexivity |].
  destruct (createVariables_cover_rendering (Some "<p>{{name}}</p>") None
              "Order {{id}} for {{name}}"
              {[ "name" := "Ann"; "id" := "7"; "x" := "y" ]} {[ "name" := "Ann"; "id" := "7" ]})
    as (_ & Hsubject & _); [| exact Hsubject].
  intros k Hk.
  assert (k = "name" \/ k = "id") as [-> | ->].
  { vm_compute in Hk. apply elem_of_cons in Hk as [-> | Hk]; [by left |].
    apply elem_of_cons in Hk as [-> | Hk]; [by right |]. by apply elem_of_nil in Hk. }
  - reflexivity.
  - reflexivity.
Defined.

(** ** SMTP sessions *)

Section SmtpSession.
Import SmtpRelayServer.

Variable compare : string -> string -> bool.

Lemma scanKeys_ValidKey apiKeyValue keys key :
  scanKeys compare apiKeyValue keys = ValidKey key ->
  key ∈ keys /\ key_revokedAt key = None /\
  compare apiKeyValue (key_keyHash key) = true /\ "send:email" ∈ key_scopes key.
Proof.
  induction keys as [| k rest IH]; [done |]. cbn.
  destruct (key_revokedAt k) eqn:Hrev.
  - intros H. destruct (IH H) as (Hin & Hrest). split; [by apply list_elem_of_further | done].
  - destruct (compare apiKeyValue (key_keyHash k)) eqn:Hmatch.
    + case_bool_decide as Hscope; [| done]. intros [= <-].
      split; [apply list_elem_of_here | done].
    + intros H. destruct (IH H) as (Hin & Hrest). split; [by apply list_elem_of_further | done].
Qed.

(** [handleAuth] refuses and changes nothing, or it was given the id of an
    active project and a password that matches one of its sending keys. *)
Lemma handleAuth_cases now auth session w :
  (exists message,
     handleAuth compare now auth session w = (w, Return (session, AuthError message))) \/
  (exists pid token key w',
     username auth = Some pid /\ password auth = Some token /\ pid <> "" /\
     holdsActiveKey compare w token pid key /\ "send:email" ∈ key_scopes key /\
     handleAuth compare now auth session w
     = (w', Return (withProjectId pid session, AuthOk pid)) /\
     messages w' = messages w /\ events w' = events w /\
     sendEmailQueue w' = sendEmailQueue w).
Proof.
  unfold handleAuth, tryCatch.
  destruct (username auth) as [pid |] eqn:Hu; cbn; [| left; eauto].
  destruct (decide (pid = "")) as [-> | Hpid]; cbn; [left; eauto |].
  destruct (password auth) as [token |] eqn:Hp; cbn; [| left; eauto].
  destruct (decide (token = "")) as [-> | Htoken]; cbn; [left; eauto |].
  unfold mbind, IO_bind, gets, mret, IO_ret, modify.
  destruct (projects w !! pid) as [prj |] eqn:Hprj; [| left; eauto].
  destruct (decide (prj_status prj = PS_ACTIVE)) as [Hactive | Hactive]; [| left; eauto].
  destruct (scanKeys compare token (prj_apiKeys prj)) as [| | key] eqn:Hscan;
    [left; eauto | left; eauto |].
  apply scanKeys_ValidKey in Hscan as (Hin & Hrev & Hmatch & Hscope).
  right. exists pid, token, key. eexists. split; [done |]. split; [done |]. split; [done |].
  split; [by exists prj |]. split; [done |]. split; [reflexivity |]. by destruct w.
Qed.

(** [handleData] always calls back. *)
Lemma handleData_returns parsed newId session w :
  exists w' err, handleData parsed newId session w = (w', Return err).
Proof.
  unfold handleData, tryCatch.
  match goal with |- context [match ?body w with _ => _ end] => destruct (body w) as [w' [err | e]] end;
    unfold mret, IO_ret; eauto.
Qed.

(** Without a project id every handler but [handleAuth] refuses. *)
Lemma smtpStep_unauthenticated c session w :
  truthy (ses_projectId session) = None ->
  (forall now auth, c <> SmtpAuth now auth) ->
  smtpStep compare c session w = (w, Return (session, Some "Not authenticated")).
Proof.
  intros Hs Hc. destruct c as [now auth | a | a | parsed newId]; cbn.
  - by destruct (Hc now auth).
  - unfold handleMailFrom. by rewrite Hs.
  - unfold handleRcptTo. by rewrite Hs.
  - unfold handleData, tryCatch. rewrite Hs. reflexivity.
Qed.

(** X28.  An SMTP session that has no project id accepts nothing until an
    AUTH succeeds.  After any sequence of handler calls either the world is
    as before, the session is unchanged and every callback received an
    error; or one of the calls was an AUTH whose user name is the id of an
    active project and whose password matches an unrevoked key of that
    project with the scope [send:email]. *)
Theorem smtp_session_needs_valid_auth (cmds : list SmtpCommand) (session : Session)
    (w : World) :
  truthy (ses_projectId session) = None ->
  (exists errs,
     runSession compare cmds session w = (w, Return (session, errs)) /\
     length errs = length cmds /\ Forall is_Some errs) \/
  (exists now auth pid token key,
     SmtpAuth now auth ∈ cmds /\
     username auth = Some pid /\ password auth = Some token /\
     holdsActiveKey compare w token pid key /\ "send:email" ∈ key_scopes key).
Proof.
  intros Hs. induction cmds as [| c rest IH].
  - left. exists []. done.
  - assert (forall errs0 e,
      smtpStep compare c session w = (w, Return (session, Some e)) ->
      runSession compare rest session w = (w, Return (session, errs0)) ->
      length errs0 = length rest -> Forall is_Some errs0 ->
      exists errs, runSession compare (c :: rest) session w = (w, Return (session, errs)) /\
                   length errs = length (c :: rest) /\ Forall is_Some errs) as Hcons.
    { intros errs0 e Hstep Hrest Hlen Hall. exists (Some e :: errs0).
      cbn [runSession]. unfold mbind, IO_bind. rewrite Hstep. cbn [fst snd].
      rewrite Hrest. cbn. split; [done |]. split; [by rewrite Hlen |].
      by apply Forall_cons. }
    destruct IH as [(errs0 & Hrest & Hlen & Hall) |
                    (now & auth & pid & token & key & Hin & Hrest)].
    2: { right. exists now, auth, pid, token, key. split; [by apply list_elem_of_further | done]. }
    destruct c as [now auth | a | a | parsed newId].
    + destruct (handleAuth_cases now auth session w)
        as [(message & Hauth) |
            (pid & token & key & w' & Hu & Hp & _ & Hholds & Hscope & _)].
      * left. apply (Hcons errs0 message); try done.
        cbn. unfold mbind, IO_bind. by rewrite Hauth.
      * right. exists now, auth, pid, token, key. split; [apply list_elem_of_here | done].
    + left. apply (Hcons errs0 "Not authenticated"); try done.
      by apply smtpStep_unauthenticated.
    + left. apply (Hcons errs0 "Not authenticated"); try done.
      by apply smtpStep_unauthenticated.
    + left. apply (Hcons errs0 "Not authenticated"); try done.
      by apply smtpStep_unauthenticated.
Qed.

Lemma map_email_recipients (l : list string) :
  map email (map (fun e => {| email := e; name := None |}) l) = l.
Proof. induction l as [| x l IH]; cbn; [done | by rewrite IH]. Qed.

(** The job of an accepted SMTP message is addressed to the recipients of
    the session. *)
Lemma handleData_job_to parsed newId session w w' :
  handleData parsed newId session w = (w', Return None) ->
  exists j,
    sendEmailQueue w' = sendEmailQueue w ++ [j] /\
    map email (job_to (qj_data j)) = default [] (ses_envelopeTo session).
Proof.
  unfold handleData, queue_add, EmailService.createMessage, EmailService.createEvent.
  io_unfold. intros H.
  repeat (case_match; simplify_eq/=; try done);
    (eexists; split; [reflexivity | cbn; apply map_email_recipients]).
Qed.

(** X29.  No handler of the relay ever empties the envelope of a session.
    On an authenticated session, after any sequence of handler calls the
    session lists its earlier recipients followed by every RCPT TO address
    of the sequence, whatever MAIL FROM and DATA came in between; and the
    job of a message accepted next is addressed to all of them. *)
Theorem smtp_recipients_accumulate (cmds : list SmtpCommand) (session : Session) (w : World) :
  is_Some (truthy (ses_projectId session)) ->
  exists w1 s1 errs,
    runSession compare cmds session w = (w1, Return (s1, errs)) /\
    is_Some (truthy (ses_projectId s1)) /\
    default [] (ses_envelopeTo s1) = default [] (ses_envelopeTo session) ++ rcptsOf cmds /\
    (forall parsed newId w2,
       handleData parsed newId s1 w1 = (w2, Return None) ->
       exists j,
         sendEmailQueue w2 = sendEmailQueue w1 ++ [j] /\
         map email (job_to (qj_data j))
         = default [] (ses_envelopeTo session) ++ rcptsOf cmds).
Proof.
  intros Hs.
  enough (exists w1 s1 errs,
            runSession compare cmds session w = (w1, Return (s1, errs)) /\
            is_Some (truthy (ses_projectId s1)) /\
            default [] (ses_envelopeTo s1)
            = default [] (ses_envelopeTo session) ++ rcptsOf cmds)
    as (w1 & s1 & errs & Hrun & Hs1 & Hto).
  { exists w1, s1, errs. split; [done |]. split; [done |]. split; [done |].
    intros parsed newId w2 Hdata.
    destruct (handleData_job_to _ _ _ _ _ Hdata) as (j & Hq & Hj).
    exists j. split; [done |]. by rewrite Hj. }
  revert session w Hs. induction cmds as [| c rest IH]; intros session w Hs.
  - exists w, session, []. cbn. by rewrite app_nil_r.
  - assert (forall w0 s0 e,
      smtpStep compare c session w = (w0, Return (s0, e)) ->
      is_Some (truthy (ses_projectId s0)) ->
      default [] (ses_envelopeTo s0) ++ rcptsOf rest
      = default [] (ses_envelopeTo session) ++ rcptsOf (c :: rest) ->
      exists w1 s1 errs,
        runSession compare (c :: rest) session w = (w1, Return (s1, errs)) /\
        is_Some (truthy (ses_projectId s1)) /\
        default [] (ses_envelopeTo s1)
        = default [] (ses_envelopeTo session) ++ rcptsOf (c :: rest)) as Hcons.
    { intros w0 s0 e Hstep Hs0 Hto.
      destruct (IH s0 w0 Hs0) as (w1 & s1 & errs & Hrun & Hs1 & Hto1).
      exists w1, s1, (e :: errs). cbn [runSession]. unfold mbind, IO_bind.
      rewrite Hstep. cbn [fst snd]. rewrite Hrun. cbn [fst snd].
      split; [done |]. split; [done |]. by rewrite Hto1. }
    destruct Hs as [p Hp].
    destruct c as [now auth | a | a | parsed newId].
    + destruct (handleAuth_cases now auth session w)
        as [(message & Hauth) |
            (pid & token & key & w' & _ & _ & Hpid & _ & _ & Hauth & _)].
      * apply (Hcons w session (Some message)); [| by exists p | done].
        cbn. unfold mbind, IO_bind. by rewrite Hauth.
      * apply (Hcons w' (withProjectId pid session) None); [| | done].
        -- cbn. unfold mbind, IO_bind. by rewrite Hauth.
        -- exists pid. cbn. by rewrite decide_False.
    + apply (Hcons w {| ses_projectId := ses_projectId session; ses_envelopeFrom := Some a;
                        ses_envelopeTo := ses_envelopeTo session |} None);
        [| by exists p | done].
      cbn. unfold handleMailFrom. by rewrite Hp.
    + apply (Hcons w {| ses_projectId := ses_projectId session;
                        ses_envelopeFrom := ses_envelopeFrom session;
                        ses_envelopeTo := Some (default [] (ses_envelopeTo session) ++ [a]) |}
               None); [| by exists p |].
      * cbn. unfold handleRcptTo. by rewrite Hp.
      * cbn. by rewrite <- app_assoc.
    + destruct (handleData_returns parsed newId session w) as (w' & err & Hdata).
      apply (Hcons w' session err); [| by exists p | done].
      cbn. unfold mbind, IO_bind. by rewrite Hdata.
Qed.

End SmtpSession.

Lemma smtp_session_needs_valid_auth_witness :
  let cmds := [ SmtpAuth 1000 (Fixtures.credentials "p1" "tm_live_wrong");
                SmtpMailFrom "noreply@example.com";
                SmtpRcptTo "ann@example.com";
                SmtpData (Return Fixtures.parsedMail1) "m1" ] in
  exists errs,
    runSession Fixtures.compareStandIn cmds SmtpRelayServer.newSession Fixtures.worldWithProject
    = (Fixtures.worldWithProject, Return (SmtpRelayServer.newSession, errs)) /\
    length errs = 4%nat.
Proof.
  intros cmds.
  destruct (smtp_session_needs_valid_auth Fixtures.compareStandIn cmds
              SmtpRelayServer.newSession Fixtures.worldWithProject eq_refl)
    as [(errs & Hrun & Hlen & _) |
        (now & auth & pid & token & key & Hin & Hu & Hp & (prj & Hprj & _ & Hkey & _ & Hc) & _)].
  - exists errs. split; [exact Hrun | exact Hlen].
  - exfalso. unfold cmds in Hin. elem_cases Hin; try discriminate.
    injection Hin as -> ->. cbn in Hu, Hp. injection Hu as <-. injection Hp as <-.
    vm_compute in Hprj. injection Hprj as <-. cbn in Hkey.
    elem_cases Hkey; vm_compute in Hc; discriminate.
Defined.

Lemma smtp_recipients_accumulate_witness :
  let cmds := [ SmtpData (Return Fixtures.parsedMail1) "m1";
                SmtpMailFrom "noreply@example.com";
                SmtpRcptTo "bob@example.com" ] in
  exists w1 s1 errs,
    runSession Fixtures.compareStandIn cmds Fixtures.smtpSessionAnn emptyWorld
    = (w1, Return (s1, errs)) /\
    default [] (SmtpRelayServer.ses_envelopeTo s1) = ["ann@example.com"; "bob@example.com"].
Proof.
  intros cmds.
  destruct (smtp_recipients_accumulate Fixtures.compareStandIn cmds Fixtures.smtpSessionAnn
              emptyWorld)
    as (w1 & s1 & errs & Hrun & _ & Hto & _).
  - exists "p1". reflexivity.
  - exists w1, s1, errs. split; [exact Hrun | exact Hto].
Defined.
